(** * Video-game pipeline: field normalisation and record linkage

    A shallow embedding of [src/processors/data_cleaner.py],
    [src/processors/data_merger.py], the title extraction and the
    validations of [src/dagster_pipeline/ops.py] and
    [src/dagster_pipeline/assets.py], and the records and files of the two
    scrapers of [src/scrapers], with the properties of the specification
    stated and settled against it, and further properties of the code.

    Conventions of the embedding.
    - A Python [str] is a list of characters; a character is a code
      point below 256, so that the character classes of [re] and of
      [str.strip] ([\d], [\s], [\w]) can be written out.  The strings
      of the embedding are these strings, and a statement on every
      string is one on every string of such characters: beyond them
      the classes are those of the Unicode tables of the interpreter
      ([\d] and [int] take every decimal digit of every script), which
      the embedding does not hold.
    - What depends on the platform is a parameter: [pads] of the dates
      says whether [strftime] writes a year below 1000 with four
      digits.
    - A Python [float] is a binary64 primitive float; arithmetic and
      comparisons are the IEEE ones, [nan] included.
    - [None]/[NaN] cells of a data frame are [None] of an option type.
    - An exception that leaves a function is a constructor of its
      result type.
    - The network is a state passed through the scrapers: what a site
      answers is a variable of the section that embeds them. *)

From Stdlib Require Import Ascii String.
From Stdlib Require Import List Bool Arith ZArith NArith Lia.
From Stdlib Require Import Floats.
From Stdlib Require Import Sorting.Sorted.

Set Warnings "-inexact-float,-abstract-large-number".
Import ListNotations.

Set Implicit Arguments.

(** ** Characters and strings *)

(** A [str] whose characters are code points below 256 (U+0000 to
    U+00FF).  On these the classes below are the ones of CPython; a
    [str] with other characters is outside the embedding. *)
Definition pystr := list ascii.

Definition str (s : string) : pystr := list_ascii_of_string s.

Definition code (c : ascii) : N := N_of_ascii c.

Definition in_range (lo hi : N) (c : ascii) : bool :=
  ((lo <=? code c) && (code c <=? hi))%N.

(** [\d] of [re] on a [str] pattern, and the decimal digits of [int]:
    below code point 256 the digits [0] to [9] and no other (the
    superscripts and fractions there are not decimal digits). *)
Definition is_digit (c : ascii) : bool := in_range 48 57 c.

(** [Py_UNICODE_ISSPACE]: what [str.strip] removes and [\s] matches. *)
Definition is_space (c : ascii) : bool :=
  in_range 9 13 c || in_range 28 32 c || (code c =? 133)%N || (code c =? 160)%N.

(** [\w] of [re] on a [str] pattern: alphanumeric or underscore. *)
Definition is_word (c : ascii) : bool :=
  is_digit c || in_range 65 90 c || in_range 97 122 c || (code c =? 95)%N
  || (code c =? 170)%N || (code c =? 178)%N || (code c =? 179)%N
  || (code c =? 181)%N || (code c =? 185)%N || (code c =? 186)%N
  || in_range 188 190 c
  || in_range 192 214 c || in_range 216 246 c || in_range 248 255 c.

(** [str.lower] on one character. *)
Definition lower_char (c : ascii) : ascii :=
  if in_range 65 90 c || (in_range 192 222 c && negb (code c =? 215)%N)
  then ascii_of_N (code c + 32) else c.

Definition lower (s : pystr) : pystr := map lower_char s.

Definition char_eqb (a b : ascii) : bool := Ascii.eqb a b.

Fixpoint str_eqb (a b : pystr) : bool :=
  match a, b with
  | [], [] => true
  | x :: a', y :: b' => char_eqb x y && str_eqb a' b'
  | _, _ => false
  end.

(** [x in [..]] on a list of strings. *)
Definition str_in (x : pystr) (l : list pystr) : bool := existsb (str_eqb x) l.

Fixpoint lstrip (s : pystr) : pystr :=
  match s with
  | c :: s' => if is_space c then lstrip s' else s
  | [] => []
  end.

Definition rstrip (s : pystr) : pystr := rev (lstrip (rev s)).

(** [s.strip()] *)
Definition strip (s : pystr) : pystr := rstrip (lstrip s).

(** The longest prefix of characters in a class, and what follows it:
    a greedy [c+] or [c*] of [re]. *)
Fixpoint span (p : ascii -> bool) (s : pystr) : pystr * pystr :=
  match s with
  | c :: s' => if p c then let (a, b) := span p s' in (c :: a, b) else ([], s)
  | [] => ([], [])
  end.

(** ** [DataMerger.clean_game_title] *)

(** [re.sub(r'^\d+\.\s*', '', title)]: the pattern is anchored, so at most
    one match, at offset 0: a non-empty run of digits, a period, and the
    white space after it. *)
Definition sub_numbering (title : pystr) : pystr :=
  match span is_digit title with
  | (_ :: _, c :: rest) => if char_eqb c "."%char then lstrip rest else title
  | _ => title
  end.

(** On a [str]; a value that is not a [str] is returned as it is. *)
Definition clean_title (title : pystr) : pystr := strip (sub_numbering title).

Definition clean_game_title (title : option pystr) : option pystr :=
  option_map clean_title title.

(** ** [DataCleaner._extract_price] *)

Definition digit_val (c : ascii) : Z := Z.of_N (code c) - 48.

(** The number a run of decimal digits denotes: [int(s)]. *)
Definition digits_val (s : pystr) : Z :=
  fold_left (fun acc c => 10 * acc + digit_val c)%Z s 0%Z.

(** The binary64 nearest to [n / 10^k] (ties to even), for [n >= 0]: one
    correctly rounded division of the two integers. *)
Definition float_of_decimal (n : Z) (k : nat) : float :=
  match n with
  | Zpos p =>
      SF2Prim (SFdiv prec emax (S754_finite false p 0)
                 (S754_finite false (Z.to_pos (10 ^ Z.of_nat k)) 0))
  | _ => 0%float
  end.

(** [float(s)] on a string of digits and periods, which is all
    [_extract_price] passes to it: [ddd], [ddd.], [ddd.ddd] or [.ddd];
    anything else raises [ValueError] ([None]). *)
Definition py_float (s : pystr) : option float :=
  let (ip, r) := span is_digit s in
  match r with
  | [] =>
      match ip with
      | [] => None
      | _ => Some (float_of_decimal (digits_val ip) 0)
      end
  | c :: r' =>
      if char_eqb c "."%char then
        let (fp, r'') := span is_digit r' in
        match r'', ip ++ fp with
        | [], _ :: _ => Some (float_of_decimal (digits_val (ip ++ fp)) (length fp))
        | _, _ => None
        end
      else None
  end.

(** The class [[\d.,]] of the price pattern. *)
Definition is_price_char (c : ascii) : bool :=
  is_digit c || char_eqb c "."%char || char_eqb c ","%char.

(** [re.search(r'[\d.,]+', s)]: the first maximal run of price
    characters, [None] when there is none. *)
Fixpoint search_price (s : pystr) : option pystr :=
  match s with
  | [] => None
  | c :: s' => if is_price_char c then Some (fst (span is_price_char s))
               else search_price s'
  end.

(** [re.sub(r'[^\d.]', '', m)] *)
Definition keep_digits_dot (m : pystr) : pystr :=
  filter (fun c => is_digit c || char_eqb c "."%char) m.

Definition price_placeholders : list pystr :=
  [str "N/A"; str "Free"; str "Free to Play"; str ""].

Definition _extract_price (price_str : option pystr) : option float :=
  match price_str with
  | None => None
  | Some p =>
      let p := strip p in
      if str_in p price_placeholders then Some 0%float
      else match search_price p with
           | Some m => py_float (keep_digits_dot m)
           | None => None
           end
  end.

(** ** [DataCleaner._standardize_date] *)

(** Is there a [)] ahead before any line break?  ([.] of [re] does not
    match a newline, so a lazy [.*?] can only reach a [)] on the line.) *)
Fixpoint closes (s : pystr) : bool :=
  match s with
  | [] => false
  | c :: s' =>
      if char_eqb c ")"%char then true
      else if (code c =? 10)%N then false
      else closes s'
  end.

(** [re.sub(r'\(.*?\)', '', s)], left to right: [inside] says the scan is
    within a match, which ends at the first [)]. *)
Fixpoint sub_parens_from (inside : bool) (s : pystr) : pystr :=
  match s with
  | [] => []
  | c :: s' =>
      if inside then
        if char_eqb c ")"%char then sub_parens_from false s'
        else sub_parens_from true s'
      else if char_eqb c "("%char && closes s' then sub_parens_from true s'
      else c :: sub_parens_from false s'
  end.

Definition sub_parens (s : pystr) : pystr := sub_parens_from false s.

Local Open Scope N_scope.

(** What [strptime] reads from a string; the defaults are those of
    [_strptime] (1900-01-01). *)
Record date := mkdate { year : N; month : N; day : N }.

Definition default_date : date := mkdate 1900 1 1.

Definition set_year (d : date) (y : N) := mkdate y (month d) (day d).
Definition set_month (d : date) (m : N) := mkdate (year d) m (day d).
Definition set_day (d : date) (n : N) := mkdate (year d) (month d) n.

(** The pieces of the regular expression [_strptime.TimeRE.pattern]
    builds from a format: a literal character, [\s+] for a run of white
    space, and the directives the table of formats uses. *)
Inductive item : Type :=
  | Lit (c : ascii)
  | Spaces
  | Dir_b | Dir_B | Dir_d | Dir_m | Dir_Y.

Definition directive (c : ascii) : option item :=
  if char_eqb c "b"%char then Some Dir_b
  else if char_eqb c "B"%char then Some Dir_B
  else if char_eqb c "d"%char then Some Dir_d
  else if char_eqb c "m"%char then Some Dir_m
  else if char_eqb c "Y"%char then Some Dir_Y
  else None.

(** [TimeRE.pattern]: [None] for a directive outside the ones above (a
    [ValueError] of [strptime]); [in_space] says the previous character
    of the format was white space, already turned into [\s+]. *)
Fixpoint compile_from (in_space : bool) (fmt : pystr) : option (list item) :=
  match fmt with
  | [] => Some []
  | c :: r =>
      if char_eqb c "%"%char then
        match r with
        | d :: r' =>
            match directive d, compile_from false r' with
            | Some it, Some its => Some (it :: its)
            | _, _ => None
            end
        | [] => None
        end
      else if is_space c then
        if in_space then compile_from true r
        else option_map (cons Spaces) (compile_from true r)
      else option_map (cons (Lit c)) (compile_from false r)
  end.

Definition compile (fmt : pystr) : option (list item) := compile_from false fmt.

Definition digit_of (c : ascii) : N := code c - 48.

(** Is [name] (lower case) a prefix of [s], ignoring case?  The rest of
    [s] when it is. *)
Fixpoint prefix_ci (name s : pystr) : option pystr :=
  match name, s with
  | [], _ => Some s
  | n :: name', c :: s' =>
      if char_eqb (lower_char c) n then prefix_ci name' s' else None
  | _ :: _, [] => None
  end.

(** An alternation of names, tried in order, each with its month. *)
Definition match_names (names : list (pystr * N)) (s : pystr) : list (N * pystr) :=
  flat_map (fun '(name, m) =>
              match prefix_ci name s with
              | Some r => [(m, r)]
              | None => []
              end) names.

(** [%b]: the abbreviated names of [calendar.month_abbr], lower case. *)
Definition a_month : list (pystr * N) :=
  [(str "jan", 1); (str "feb", 2); (str "mar", 3); (str "apr", 4);
   (str "may", 5); (str "jun", 6); (str "jul", 7); (str "aug", 8);
   (str "sep", 9); (str "oct", 10); (str "nov", 11); (str "dec", 12)].

(** [%B]: the full names, in the order [__seqToRE] puts them (longest
    first, the sort is stable). *)
Definition f_month : list (pystr * N) :=
  [(str "september", 9); (str "february", 2); (str "november", 11);
   (str "december", 12); (str "january", 1); (str "october", 10);
   (str "august", 8); (str "march", 3); (str "april", 4);
   (str "june", 6); (str "july", 7); (str "may", 5)].

(** [%d] is [3[0-1]|[1-2]\d|0[1-9]|[1-9]| [1-9]]: each alternative that
    matches at the head of [s], in that order, with the day it reads. *)
Definition match_d (s : pystr) : list (N * pystr) :=
  (match s with
   | a :: b :: r =>
       if char_eqb a "3"%char && in_range 48 49 b
       then [(30 + digit_of b, r)] else []
   | _ => []
   end) ++
  (match s with
   | a :: b :: r =>
       if in_range 49 50 a && is_digit b
       then [(10 * digit_of a + digit_of b, r)] else []
   | _ => []
   end) ++
  (match s with
   | a :: b :: r =>
       if char_eqb a "0"%char && in_range 49 57 b
       then [(digit_of b, r)] else []
   | _ => []
   end) ++
  (match s with
   | a :: r => if in_range 49 57 a then [(digit_of a, r)] else []
   | _ => []
   end) ++
  (match s with
   | a :: b :: r =>
       if char_eqb a " "%char && in_range 49 57 b
       then [(digit_of b, r)] else []
   | _ => []
   end).

(** [%m] is [1[0-2]|0[1-9]|[1-9]]. *)
Definition match_m (s : pystr) : list (N * pystr) :=
  (match s with
   | a :: b :: r =>
       if char_eqb a "1"%char && in_range 48 50 b
       then [(10 + digit_of b, r)] else []
   | _ => []
   end) ++
  (match s with
   | a :: b :: r =>
       if char_eqb a "0"%char && in_range 49 57 b
       then [(digit_of b, r)] else []
   | _ => []
   end) ++
  (match s with
   | a :: r => if in_range 49 57 a then [(digit_of a, r)] else []
   | _ => []
   end).

(** [%Y] is [\d\d\d\d]. *)
Definition match_Y (s : pystr) : list (N * pystr) :=
  match s with
  | a :: b :: c :: d :: r =>
      if is_digit a && is_digit b && is_digit c && is_digit d
      then [(1000 * digit_of a + 100 * digit_of b
             + 10 * digit_of c + digit_of d, r)]
      else []
  | _ => []
  end.

(** All the non-empty suffix positions of the leading white space of
    [s], the longest run first: the ways a greedy [\s+] can match. *)
Fixpoint match_spaces (s : pystr) : list pystr :=
  match s with
  | c :: s' => if is_space c then match_spaces s' ++ [s'] else []
  | [] => []
  end.

(** One piece of the pattern at the head of [s]: every way it matches,
    in the order the backtracking matcher tries them. *)
Definition match_item (it : item) (acc : date) (s : pystr) : list (date * pystr) :=
  match it with
  | Lit c =>
      match s with
      | x :: r => if char_eqb (lower_char x) (lower_char c) then [(acc, r)] else []
      | [] => []
      end
  | Spaces => map (fun r => (acc, r)) (match_spaces s)
  | Dir_b => map (fun '(m, r) => (set_month acc m, r)) (match_names a_month s)
  | Dir_B => map (fun '(m, r) => (set_month acc m, r)) (match_names f_month s)
  | Dir_d => map (fun '(n, r) => (set_day acc n, r)) (match_d s)
  | Dir_m => map (fun '(m, r) => (set_month acc m, r)) (match_m s)
  | Dir_Y => map (fun '(y, r) => (set_year acc y, r)) (match_Y s)
  end.

(** The whole pattern: the matches in the matcher's order, so the head
    is what [format_regex.match] returns. *)
Fixpoint match_items (its : list item) (acc : date) (s : pystr) : list (date * pystr) :=
  match its with
  | [] => [(acc, s)]
  | it :: its' =>
      flat_map (fun '(acc', r) => match_items its' acc' r) (match_item it acc s)
  end.

Definition is_leap (y : N) : bool :=
  (y mod 4 =? 0) && (negb (y mod 100 =? 0) || (y mod 400 =? 0)).

Definition days_in_month (y m : N) : N :=
  match m with
  | 2 => if is_leap y then 29 else 28
  | 4 | 6 | 9 | 11 => 30
  | _ => 31
  end.

(** What the [datetime.date] constructor accepts. *)
Definition valid_date (d : date) : bool :=
  (1 <=? year d) && (year d <=? 9999)
  && (1 <=? month d) && (month d <=? 12)
  && (1 <=? day d) && (day d <=? days_in_month (year d) (month d)).

(** [datetime.strptime(s, fmt)]: [None] is [ValueError] (no match, data
    left after the match, or not a date of the calendar). *)
Definition strptime (s fmt : pystr) : option date :=
  match compile fmt with
  | None => None
  | Some its =>
      match match_items its default_date s with
      | (d, []) :: _ => if valid_date d then Some d else None
      | _ => None
      end
  end.

(** Decimal digits of a number, the most significant first; [fuel]
    bounds the number of digits. *)
Fixpoint dec_from (fuel : nat) (n : N) (acc : pystr) : pystr :=
  match fuel with
  | O => acc
  | S f =>
      let acc' := ascii_of_N (48 + n mod 10) :: acc in
      if (n / 10 =? 0)%N then acc' else dec_from f (n / 10)%N acc'
  end.

(** [str(n)] for a natural number; it has no more decimal digits than
    binary ones. *)
Definition dec (n : N) : pystr := dec_from (S (N.size_nat n)) n [].

(** Zero-filled to a width. *)
Definition zfill (w : nat) (s : pystr) : pystr :=
  repeat "0"%char (w - length s)%nat ++ s.

(** [d.strftime('%Y-%m-%d')].  [datetime] hands [%Y] to the C library,
    and the platforms differ on a year below 1000: with glibc it is
    written without padding (["999-05-05"]), elsewhere, and where the
    interpreter pads the year itself, with four digits
    (["0999-05-05"]).  [pads] says which platform the code runs on;
    the other fields are the same on all. *)
Definition strftime_iso (pads : bool) (d : date) : pystr :=
  (if pads then zfill 4 (dec (year d)) else dec (year d))
  ++ str "-" ++ zfill 2 (dec (month d)) ++ str "-" ++ zfill 2 (dec (day d)).

Local Close Scope N_scope.

Definition date_formats : list pystr :=
  [str "%b %d, %Y"; str "%B %d, %Y"; str "%d %b, %Y"; str "%d %B, %Y";
   str "%d %b %Y"; str "%d %B %Y"; str "%b %d %Y"; str "%B %d %Y";
   str "%Y-%m-%d"; str "%m/%d/%Y"; str "%d/%m/%Y"; str "%Y"].

(** The loop over the formats: the first that parses wins. *)
Fixpoint try_formats (pads : bool) (fmts : list pystr) (date_str : pystr)
  : option pystr :=
  match fmts with
  | [] => None
  | fmt :: rest =>
      match strptime date_str fmt with
      | Some d =>
          if str_eqb fmt (str "%Y") then Some (dec (year d) ++ str "-01-01")
          else Some (strftime_iso pads d)
      | None => try_formats pads rest date_str
      end
  end.

(** [(19|20)\d{2}\b] at the head of [s]. *)
Definition year_here (s : pystr) : option pystr :=
  match s with
  | a :: b :: c :: d :: r =>
      if ((char_eqb a "1"%char && char_eqb b "9"%char)
          || (char_eqb a "2"%char && char_eqb b "0"%char))
         && is_digit c && is_digit d
         && match r with [] => true | x :: _ => negb (is_word x) end
      then Some [a; b; c; d] else None
  | _ => None
  end.

(** [re.search(r'\b(19|20)\d{2}\b', s)]; [prev_word] says the character
    before the head of [s] is a word character. *)
Fixpoint search_year_from (prev_word : bool) (s : pystr) : option pystr :=
  match s with
  | [] => None
  | c :: s' =>
      match (if prev_word then None else year_here s) with
      | Some y => Some y
      | None => search_year_from (is_word c) s'
      end
  end.

Definition search_year (s : pystr) : option pystr := search_year_from false s.

Definition date_placeholders : list pystr := [str "N/A"; str "TBA"; str ""].

Definition _standardize_date (pads : bool) (date_str : option pystr)
  : option pystr :=
  match date_str with
  | None => None
  | Some s =>
      if str_in s date_placeholders then None
      else
        let s := strip (sub_parens s) in
        match try_formats pads date_formats s with
        | Some r => Some r
        | None =>
            match search_year s with
            | Some y => Some (y ++ str "-01-01")
            | None => None
            end
        end
  end.

(** ** [difflib.SequenceMatcher(None, a, b).ratio()]

    [string_similarity] rests on the standard library's matcher, embedded
    here as CPython's [difflib] computes it with [isjunk=None] and the
    default [autojunk=True]. *)

Definition count_char (c : ascii) (b : pystr) : nat :=
  length (filter (char_eqb c) b).

(** [__chain_b]: in a sequence of 200 elements or more, an element that
    makes up more than 1% of it (plus one) is "popular" and is dropped
    from the index [b2j]. *)
Definition popular (b : pystr) (c : ascii) : bool :=
  (200 <=? length b) && (length b / 100 + 1 <? count_char c b).

(** The positions of [c] in [b], ascending, the head of [b] being
    position [j]. *)
Fixpoint indices_from (c : ascii) (b : pystr) (j : nat) : list nat :=
  match b with
  | [] => []
  | x :: b' =>
      if char_eqb x c then j :: indices_from c b' (S j)
      else indices_from c b' (S j)
  end.

(** [b2j.get(c, [])] *)
Definition b2j (b : pystr) (c : ascii) : list nat :=
  if popular b c then [] else indices_from c b 0.

(** The dictionary [j2len] as an association list, the latest entry
    first; [j2len.get(j, 0)]. *)
Definition lenmap := list (nat * nat).

Fixpoint j2len_get (m : lenmap) (j : nat) : nat :=
  match m with
  | [] => 0
  | (j', k) :: m' => if j' =? j then k else j2len_get m' j
  end.

(** [j2len.get(j-1, 0)]: no key is negative. *)
Definition prev_len (m : lenmap) (j : nat) : nat :=
  match j with
  | 0 => 0
  | S j' => j2len_get m j'
  end.

(** A block [(i, j, size)]: [a[i:i+size] == b[j:j+size]]. *)
Definition block := (nat * nat * nat)%type.

(** The inner loop of [find_longest_match] for the row [i], over the
    positions [js] of [a[i]] in [b]: [continue] below [blo], [break] at
    [bhi]. *)
Fixpoint scan_row (blo bhi i : nat) (j2len : lenmap) (js : list nat)
         (newj2len : lenmap) (best : block) : lenmap * block :=
  match js with
  | [] => (newj2len, best)
  | j :: js' =>
      if j <? blo then scan_row blo bhi i j2len js' newj2len best
      else if bhi <=? j then (newj2len, best)
      else
        let k := prev_len j2len j + 1 in
        let best' :=
          let '(_, _, bestsize) := best in
          if bestsize <? k then (i + 1 - k, j + 1 - k, k) else best in
        scan_row blo bhi i j2len js' ((j, k) :: newj2len) best'
  end.

(** The outer loop, [for i in range(alo, ahi)]. *)
Fixpoint scan_rows (a b : pystr) (blo bhi : nat) (rows : list nat)
         (j2len : lenmap) (best : block) : block :=
  match rows with
  | [] => best
  | i :: rows' =>
      let '(newj2len, best') :=
        scan_row blo bhi i j2len (b2j b (nth i a Ascii.zero)) [] best in
      scan_rows a b blo bhi rows' newj2len best'
  end.

(** The first [while]: grow the block to the left while the characters
    before it agree (no element is junk). *)
Fixpoint extend_back (a b : pystr) (alo blo besti bestj bestsize : nat) : block :=
  match besti, bestj with
  | S i', S j' =>
      if (alo <=? i') && (blo <=? j') && char_eqb (nth i' a Ascii.zero) (nth j' b Ascii.zero)
      then extend_back a b alo blo i' j' (S bestsize)
      else (besti, bestj, bestsize)
  | _, _ => (besti, bestj, bestsize)
  end.

(** The second [while]: grow it to the right; [fuel] is the room left
    in [a]. *)
Fixpoint extend_fwd (a b : pystr) (bhi besti bestj : nat) (fuel bestsize : nat) : nat :=
  match fuel with
  | 0 => bestsize
  | S f =>
      if (bestj + bestsize <? bhi)
         && char_eqb (nth (besti + bestsize) a Ascii.zero) (nth (bestj + bestsize) b Ascii.zero)
      then extend_fwd a b bhi besti bestj f (S bestsize)
      else bestsize
  end.

(** [find_longest_match(alo, ahi, blo, bhi)]; the two loops over junk
    never run when there is no junk. *)
Definition find_longest_match (a b : pystr) (alo ahi blo bhi : nat) : block :=
  let '(i0, j0, k0) :=
    scan_rows a b blo bhi (seq alo (ahi - alo)) [] (alo, blo, 0) in
  let '(i1, j1, k1) := extend_back a b alo blo i0 j0 k0 in
  (i1, j1, extend_fwd a b bhi i1 j1 (ahi - (i1 + k1)) k1).

(** The work list of [get_matching_blocks], the entry to pop at the
    head; every turn of its loop pops one entry, and [fuel] bounds the
    turns. *)
Fixpoint matching_blocks (fuel : nat) (a b : pystr)
         (queue : list (nat * nat * nat * nat)) (found : list block) : list block :=
  match fuel with
  | 0 => found
  | S f =>
      match queue with
      | [] => found
      | (alo, ahi, blo, bhi) :: q =>
          let '(i, j, k) := find_longest_match a b alo ahi blo bhi in
          if k =? 0 then matching_blocks f a b q found
          else
            let q1 := if (alo <? i) && (blo <? j) then (alo, i, blo, j) :: q else q in
            let q2 := if (i + k <? ahi) && (j + k <? bhi)
                      then (i + k, ahi, j + k, bhi) :: q1 else q1 in
            matching_blocks f a b q2 (found ++ [(i, j, k)])
      end
  end.

(** [get_matching_blocks()], before the sort and the merge of adjacent
    blocks, which leave the sum of the sizes as it is.  A block found
    has a size of 1 at least and at most two entries are pushed for it,
    so the loop turns at most [2 * min(la, lb) + 1] times. *)
Definition get_matching_blocks (a b : pystr) : list block :=
  matching_blocks (S (length a + length b)) a b
    [(0, length a, 0, length b)] [].

(** [int] to [float], exact below [2^53] and rounded to nearest above;
    the primitive conversion reads 63 bits. *)
Definition float_of_nat (n : nat) : float :=
  of_uint63 (Uint63.of_Z (Z.of_nat n)).

(** [_calculate_ratio(matches, length)] *)
Definition calculate_ratio (matches len : nat) : float :=
  if len =? 0 then 1%float
  else (2 * float_of_nat matches / float_of_nat len)%float.

(** [ratio()] *)
Definition ratio (a b : pystr) : float :=
  let matches := fold_right (fun '(_, _, k) s => k + s) 0 (get_matching_blocks a b) in
  calculate_ratio matches (length a + length b).

(** ** [DataMerger.string_similarity] *)

Definition string_similarity (a b : option pystr) : float :=
  match a, b with
  | Some a, Some b => ratio (lower a) (lower b)
  | _, _ => 0%float
  end.

(** ** The review-summary table of [DataCleaner.clean_steam_data] *)

Definition review_map : list (pystr * float) :=
  [(str "Overwhelmingly Positive", 95); (str "Very Positive", 85);
   (str "Positive", 75); (str "Mostly Positive", 65); (str "Mixed", 50);
   (str "Mostly Negative", 35); (str "Negative", 25);
   (str "Very Negative", 15); (str "Overwhelmingly Negative", 5)]%float.

Fixpoint map_get (m : list (pystr * float)) (k : pystr) : option float :=
  match m with
  | [] => None
  | (k', v) :: m' => if str_eqb k' k then Some v else map_get m' k
  end.

(** [review_map.get(str(x).strip(), None)] on a [str] cell. *)
Definition review_score_approx (x : pystr) : option float :=
  map_get review_map (strip x).

(** ** The two input frames

    A row of the cleaned Metacritic frame and one of the cleaned Steam
    frame, with the columns [merge_datasets] reads.  A text cell is a
    [str] or missing; [metascore] is numeric after cleaning. *)

Module Metacritic.
Record row := mk {
  title : option pystr;
  url : option pystr;
  metascore : option float;
  platform : option pystr;
  release_date : option pystr;
  developer : option pystr;
  publisher : option pystr;
  genres : option pystr }.

Definition with_title (r : row) (t : option pystr) : row :=
  mk t (url r) (metascore r) (platform r) (release_date r) (developer r)
     (publisher r) (genres r).
End Metacritic.

Module Steam.
Record row := mk {
  title : option pystr;
  app_url : option pystr;
  price : option pystr;
  discount : option pystr;
  review_summary : option pystr;
  review_count : option pystr;
  release_date : option pystr;
  developer : option pystr;
  publisher : option pystr;
  tags : option pystr }.

Definition with_title (r : row) (t : option pystr) : row :=
  mk t (app_url r) (price r) (discount r) (review_summary r) (review_count r)
     (release_date r) (developer r) (publisher r) (tags r).
End Steam.

(** ** The merged frame *)

(** A row of [merged_df].  [combined_score] is [None] where the cell
    holds [None]; [steam_review_score] is [nan] where the cell is empty
    (and in a frame that has no such column). *)
Record merged_row := mkrow {
  game_title : option pystr;
  metacritic_url : option pystr;
  metascore : option float;
  platform : option pystr;
  release_date : option pystr;
  developer : option pystr;
  publisher : option pystr;
  genres : option pystr;
  steam_url : option pystr;
  price : option pystr;
  discount : option pystr;
  steam_review_summary : option pystr;
  steam_review_count : option pystr;
  steam_release_date : option pystr;
  steam_developer : option pystr;
  steam_publisher : option pystr;
  steam_tags : option pystr;
  match_confidence : float;
  is_matched : bool;
  combined_score : option float;
  steam_review_score : float }.

Record frame := mkframe { columns : list string; rows : list merged_row }.

Inductive exn : Type := KeyError (key : string).

Inductive outcome (A : Type) : Type :=
  | Returned (a : A)
  | Raised (e : exn).
Arguments Returned {A} a.
Arguments Raised {A} e.

(** The keys of the dictionaries [merged_row] and [unmatched_row]. *)
Definition base_columns : list string :=
  ["game_title"; "metacritic_url"; "metascore"; "platform"; "release_date";
   "developer"; "publisher"; "genres"; "steam_url"; "price"; "discount";
   "steam_review_summary"; "steam_review_count"; "steam_release_date";
   "steam_developer"; "steam_publisher"; "steam_tags"; "match_confidence";
   "is_matched"]%string.

(** ** [DataMerger.merge_datasets] *)

(** [df['title'].notna() & (df['title'] != '')] *)
Definition has_title (t : option pystr) : bool :=
  match t with
  | Some (_ :: _) => true
  | _ => false
  end.

(** The score of a pair, the body of the inner loop. *)
Definition match_score (mc_game : Metacritic.row) (steam_game : Steam.row) : float :=
  let title_sim :=
    string_similarity (Metacritic.title mc_game) (Steam.title steam_game) in
  match Metacritic.developer mc_game, Steam.developer steam_game with
  | Some mc_developer, Some steam_developer =>
      if negb (str_eqb mc_developer (str "N/A"))
         && negb (str_eqb steam_developer (str "N/A"))
      then
        let dev_sim := string_similarity (Some mc_developer) (Some steam_developer) in
        (title_sim * 0.7 + dev_sim * 0.3)%float
      else title_sim
  | _, _ => title_sim
  end.

(** The inner loop over the Steam rows, for any scoring of them: a row
    replaces the best so far when its score is greater than the best
    score and greater than 0.7. *)
Fixpoint best_from {A : Type} (score : A -> float) (steam : list A)
         (best_match : option A) (best_score : float) : option A * float :=
  match steam with
  | [] => (best_match, best_score)
  | steam_game :: rest =>
      let s := score steam_game in
      if ((best_score <? s) && (0.7 <? s))%float
      then best_from score rest (Some steam_game) s
      else best_from score rest best_match best_score
  end.

Definition find_best (mc_game : Metacritic.row) (steam : list Steam.row)
  : option Steam.row * float :=
  best_from (match_score mc_game) steam None 0%float.

Definition matched_row (mc_game : Metacritic.row) (best_match : Steam.row)
           (best_score : float) : merged_row :=
  {| game_title := Metacritic.title mc_game;
     metacritic_url := Metacritic.url mc_game;
     metascore := Metacritic.metascore mc_game;
     platform := Metacritic.platform mc_game;
     release_date := Metacritic.release_date mc_game;
     developer := Metacritic.developer mc_game;
     publisher := Metacritic.publisher mc_game;
     genres := Metacritic.genres mc_game;
     steam_url := Steam.app_url best_match;
     price := Steam.price best_match;
     discount := Steam.discount best_match;
     steam_review_summary := Steam.review_summary best_match;
     steam_review_count := Steam.review_count best_match;
     steam_release_date := Steam.release_date best_match;
     steam_developer := Steam.developer best_match;
     steam_publisher := Steam.publisher best_match;
     steam_tags := Steam.tags best_match;
     match_confidence := best_score;
     is_matched := true;
     combined_score := None;
     steam_review_score := nan |}.

Definition unmatched_mc_row (mc_game : Metacritic.row) : merged_row :=
  {| game_title := Metacritic.title mc_game;
     metacritic_url := Metacritic.url mc_game;
     metascore := Metacritic.metascore mc_game;
     platform := Metacritic.platform mc_game;
     release_date := Metacritic.release_date mc_game;
     developer := Metacritic.developer mc_game;
     publisher := Metacritic.publisher mc_game;
     genres := Metacritic.genres mc_game;
     steam_url := None; price := None; discount := None;
     steam_review_summary := None; steam_review_count := None;
     steam_release_date := None; steam_developer := None;
     steam_publisher := None; steam_tags := None;
     match_confidence := 0;
     is_matched := false;
     combined_score := None;
     steam_review_score := nan |}.

Definition unmatched_steam_row (steam_game : Steam.row) : merged_row :=
  {| game_title := Steam.title steam_game;
     metacritic_url := None; metascore := None; platform := None;
     release_date := None; developer := None; publisher := None;
     genres := None;
     steam_url := Steam.app_url steam_game;
     price := Steam.price steam_game;
     discount := Steam.discount steam_game;
     steam_review_summary := Steam.review_summary steam_game;
     steam_review_count := Steam.review_count steam_game;
     steam_release_date := Steam.release_date steam_game;
     steam_developer := Steam.developer steam_game;
     steam_publisher := Steam.publisher steam_game;
     steam_tags := Steam.tags steam_game;
     match_confidence := 0;
     is_matched := false;
     combined_score := None;
     steam_review_score := nan |}.

(** The first loop: a row for every Metacritic game with a best match. *)
Definition matched_rows (metacritic : list Metacritic.row) (steam : list Steam.row)
  : list merged_row :=
  flat_map (fun mc_game =>
              match find_best mc_game steam with
              | (Some best_match, best_score) => [matched_row mc_game best_match best_score]
              | (None, _) => []
              end) metacritic.

(** [x in set(merged_df['game_title'])], as [isin] tests it. *)
Definition opt_str_eqb (x y : option pystr) : bool :=
  match x, y with
  | Some a, Some b => str_eqb a b
  | None, None => true
  | _, _ => false
  end.

Definition isin (t : option pystr) (titles : list (option pystr)) : bool :=
  existsb (opt_str_eqb t) titles.

(** [merged_df.loc[mask, 'steam_review_summary'].str.extract(r'(\d+)')[0]]:
    the first run of digits of the summary. *)
Fixpoint first_digits (s : pystr) : option pystr :=
  match s with
  | [] => None
  | c :: s' => if is_digit c then Some (fst (span is_digit s)) else first_digits s'
  end.

(** [pd.to_numeric] of that cell. *)
Definition review_score (summary : pystr) : float :=
  match first_digits summary with
  | Some ds => float_of_decimal (digits_val ds) 0
  | None => nan
  end.

Definition mask (r : merged_row) : bool :=
  is_matched r
  && match metascore r with Some _ => true | None => false end
  && match steam_review_summary r with Some _ => true | None => false end.

(** The three assignments under [if mask.any()], on one row. *)
Definition add_scores (r : merged_row) : merged_row :=
  match is_matched r, metascore r, steam_review_summary r with
  | true, Some m, Some summary =>
      let s := review_score summary in
      mkrow (game_title r) (metacritic_url r) (metascore r) (platform r)
        (release_date r) (developer r) (publisher r) (genres r) (steam_url r)
        (price r) (discount r) (steam_review_summary r) (steam_review_count r)
        (steam_release_date r) (steam_developer r) (steam_publisher r)
        (steam_tags r) (match_confidence r) (is_matched r)
        (Some (m * 0.6 + s * 0.4)%float) s
  | _, _, _ => r
  end.

(** The copy of the Metacritic frame with its titles cleaned and the
    rows without a title dropped. *)
Definition prepare_metacritic (metacritic_df : list Metacritic.row)
  : list Metacritic.row :=
  filter (fun r => has_title (Metacritic.title r))
    (map (fun r => Metacritic.with_title r (clean_game_title (Metacritic.title r)))
       metacritic_df).

(** The same for the Steam frame. *)
Definition prepare_steam (steam_df : list Steam.row) : list Steam.row :=
  filter (fun r => has_title (Steam.title r))
    (map (fun r => Steam.with_title r (clean_game_title (Steam.title r)))
       steam_df).

(** [metacritic[~metacritic['game_title'].isin(set(merged_df['game_title']))]] *)
Definition unmatched_mc_of (metacritic : list Metacritic.row)
           (merged_df : list merged_row) : list Metacritic.row :=
  let matched_mc_titles := map game_title merged_df in
  filter (fun r => negb (isin (Metacritic.title r) matched_mc_titles)) metacritic.

(** [steam[~steam['game_title'].isin(set(merged_df['game_title']))]] *)
Definition unmatched_steam_of (steam : list Steam.row)
           (merged_df : list merged_row) : list Steam.row :=
  let matched_steam_titles := map game_title merged_df in
  filter (fun r => negb (isin (Steam.title r) matched_steam_titles)) steam.

Definition merge_datasets (metacritic_df : list Metacritic.row)
           (steam_df : list Steam.row) : outcome frame :=
  let metacritic := prepare_metacritic metacritic_df in
  let steam := prepare_steam steam_df in
  (* for each Metacritic game, the best matching Steam game *)
  let merged_df := matched_rows metacritic steam in
  (* [merged_df] is still [pd.DataFrame()] when nothing matched, and has
     no column to index *)
  match merged_df with
  | [] => Raised (KeyError "game_title")
  | _ :: _ =>
      let unmatched_mc := unmatched_mc_of metacritic merged_df in
      let merged_df := merged_df ++ map unmatched_mc_row unmatched_mc in
      let unmatched_steam := unmatched_steam_of steam merged_df in
      let merged_df := merged_df ++ map unmatched_steam_row unmatched_steam in
      let merged_df := filter (fun r => has_title (game_title r)) merged_df in
      if existsb mask merged_df
      then Returned (mkframe (base_columns ++ ["combined_score"; "steam_review_score"]%string)
                       (map add_scores merged_df))
      else Returned (mkframe (base_columns ++ ["combined_score"]%string) merged_df)
  end.

(** ** [validate_data] of the pipeline *)

Record config := { min_rows : Z; min_matched : Z }.

Definition default_config : config := {| min_rows := 5; min_matched := 3 |}.

Definition required_columns : list string :=
  ["mc_title"; "mc_metascore"; "mc_genres"; "mc_developer";
   "steam_title"; "steam_price_numeric"; "steam_tags"]%string.

Definition has_column (df : frame) (col : string) : bool :=
  existsb (String.eqb col) (columns df).

Definition missing_columns (df : frame) : list string :=
  filter (fun col => negb (has_column df col)) required_columns.

(** [validate_data] on the frame read back from the file the merger
    wrote: the same columns, the same rows. *)
Definition validate_data (cfg : config) (df : frame) : bool :=
  if (Z.of_nat (length (rows df)) <? min_rows cfg)%Z then false
  else if (Z.of_nat (length (filter is_matched (rows df))) <? min_matched cfg)%Z then false
  else match missing_columns df with
       | _ :: _ => false
       | [] => true
       end.

(** ** Predicates of the properties *)

(** Does the title start with a numbering, [\d+\.]? *)
Definition has_numbering (title : pystr) : bool :=
  match span is_digit title with
  | (_ :: _, c :: _) => char_eqb c "."%char
  | _ => false
  end.

(** The number four digits denote, as [match_Y] reads it. *)
Definition val4 (a b c d : ascii) : N :=
  (1000 * digit_of a + 100 * digit_of b + 10 * digit_of c + digit_of d)%N.

(** The year of a date is written with four digits that read back as
    the year. *)
Definition year_text_ok (y : N) : bool :=
  match zfill 4 (dec y) with
  | [a; b; c; d] =>
      is_digit a && is_digit b && is_digit c && is_digit d && (val4 a b c d =? y)%N
  | _ => false
  end.

(** [len] numbers from [start] on. *)
Fixpoint N_seq (start : N) (len : nat) : list N :=
  match len with
  | 0 => []
  | S len' => start :: N_seq (N.succ start) len'
  end.



Definition no_paren (s : pystr) : bool :=
  forallb (fun c => negb (char_eqb c "("%char)) s.

(** A numeric substring without its thousands separators. *)
Definition remove_commas (m : pystr) : pystr :=
  filter (fun c => negb (char_eqb c ","%char)) m.

(** [m] is the first maximal run of price characters of [s], between
    [pre] and [post]. *)
Definition first_price_run (s pre m post : pystr) : Prop :=
  s = pre ++ m ++ post
  /\ forallb (fun c => negb (is_price_char c)) pre = true
  /\ m <> []
  /\ forallb is_price_char m = true
  /\ match post with
     | [] => True
     | c :: _ => is_price_char c = false
     end.

(** ** Sample rows of the examples *)

(** A text cell. *)
Definition text (s : string) : option pystr := Some (str s).

Definition mc_sample (t : string) (dev : option pystr) (score : option float)
  : Metacritic.row :=
  Metacritic.mk (text t) None score None None dev None None.

Definition steam_sample (t : string) (dev summary : option pystr) : Steam.row :=
  Steam.mk (text t) None None None summary None None dev None None.

Arguments mc_sample t%_string dev score%_float.
(** What the best-match loop holds in [best_match] and [best_score]
    after any number of turns over rows of [all]. *)
Definition best_inv {A : Type} (score : A -> float) (all : list A)
           (best_match : option A) (best_score : float) : Prop :=
  match best_match with
  | Some st => In st all /\ best_score = score st /\ (0.7 <? best_score)%float = true
  | None => best_score = 0%float
  end.

(** The double of a finite binary64 number, as a specification float: the
    exponent raised by one, infinite past the largest exponent. *)
Definition bump (v : spec_float) : spec_float :=
  match v with
  | S754_finite s m e =>
      if (e + 1 <=? emax - prec)%Z then S754_finite s m (e + 1)%Z else S754_infinity s
  | _ => v
  end.

(** The length of the run of characters that are not popular ending at
    position [i] of [x]: what the diagonal of [j2len] holds when [x] is
    matched against itself. *)
Fixpoint run_len (x : pystr) (i : nat) : nat :=
  match i with
  | 0 => if popular x (nth 0 x Ascii.zero) then 0 else 1
  | S i' => if popular x (nth (S i') x Ascii.zero) then 0 else S (run_len x i')
  end.

(** The run ending just before position [i]. *)
Definition run_before (x : pystr) (i : nat) : nat :=
  match i with
  | 0 => 0
  | S i' => run_len x i'
  end.

(** [j2len] on entering row [i]. *)
Definition prev_row (x : pystr) (i : nat) (m : lenmap) : Prop :=
  (forall j, prev_len m j <= run_before x j)
  /\ (forall j, prev_len m j <= run_before x i)
  /\ prev_len m i = run_before x i.

(** [newj2len] while row [i] is scanned. *)
Definition new_row (x : pystr) (i : nat) (m : lenmap) : Prop :=
  (forall j, j2len_get m j <= run_len x j)
  /\ (forall j, j2len_get m j <= run_len x i).

(** Does the best-match loop find a Steam row for this game? *)
Definition has_match (steam : list Steam.row) (mc_game : Metacritic.row) : bool :=
  match find_best mc_game steam with
  | (Some _, _) => true
  | (None, _) => false
  end.

(** The columns [validate_data] requires and no merged frame has. *)
Definition absent_columns : list string :=
  ["mc_title"; "mc_metascore"; "mc_genres"; "mc_developer";
   "steam_title"; "steam_price_numeric"]%string.

(** A block within the window [alo, ahi) x [blo, bhi). *)
Definition in_window (alo ahi blo bhi : nat) (blk : block) : Prop :=
  let '(i, j, k) := blk in
  alo <= i /\ i + k <= ahi /\ blo <= j /\ j + k <= bhi.

(** The lengths of [j2len] on entering row [i] of such a window: no
    longer than the rows and the columns before them. *)
Definition row_bounded (alo blo i : nat) (m : lenmap) : Prop :=
  forall j, j2len_get m j <= i - alo /\ j2len_get m j <= j + 1 - blo.

(** The room left in the windows of the work list, which every turn of
    the loop of [get_matching_blocks] lowers. *)
Fixpoint queue_weight (queue : list (nat * nat * nat * nat)) : nat :=
  match queue with
  | [] => 0
  | (alo, ahi, blo, bhi) :: q => (ahi - alo) + (bhi - blo) + 1 + queue_weight q
  end.

Definition queue_ok (queue : list (nat * nat * nat * nat)) : Prop :=
  Forall (fun '(alo, ahi, blo, bhi) => alo <= ahi /\ blo <= bhi) queue.

(** ** The release year of [clean_metacritic_data] and [clean_steam_data] *)

(** What a cell of a derived column holds, or the [ValueError] its
    [lambda] raises. *)
Inductive parsed (A : Type) : Type :=
  | Parsed (a : A)
  | Missing
  | ValueError.
Arguments Parsed {A} a.
Arguments Missing {A}.
Arguments ValueError {A}.

(** The digits of an [int] literal given as text: decimal digits, with
    single underscores between them; [acc] is the number read so far and
    [after_digit] says the previous character was a digit. *)
Fixpoint int_digits (s : pystr) (acc : Z) (after_digit : bool) : option Z :=
  match s with
  | [] => if after_digit then Some acc else None
  | c :: s' =>
      if is_digit c then int_digits s' (10 * acc + digit_val c) true
      else if char_eqb c "_"%char && after_digit then int_digits s' acc false
      else None
  end.

(** [int(s)] on a [str]: white space around, a sign, the digits;
    [None] is [ValueError]. *)
Definition py_int (s : pystr) : option Z :=
  match strip s with
  | c :: r =>
      if char_eqb c "-"%char then option_map Z.opp (int_digits r 0 false)
      else if char_eqb c "+"%char then int_digits r 0 false
      else int_digits (c :: r) 0 false
  | [] => None
  end.

(** [x.split('-')[0]]: the text before the first hyphen. *)
Fixpoint before_hyphen (x : pystr) : pystr :=
  match x with
  | [] => []
  | c :: x' => if char_eqb c "-"%char then [] else c :: before_hyphen x'
  end.

(** ['-' in x] *)
Definition has_hyphen (x : pystr) : bool := existsb (char_eqb "-"%char) x.

(** [lambda x: int(x.split('-')[0]) if isinstance(x, str) and '-' in x
    else None], applied to the standardized [release_date]. *)
Definition release_year (x : option pystr) : parsed Z :=
  match x with
  | Some x =>
      if has_hyphen x then
        match py_int (before_hyphen x) with
        | Some n => Parsed n
        | None => ValueError
        end
      else Missing
  | None => Missing
  end.
(** A date with slashes, both fields written with two digits. *)
Definition slash_text (p q : N) (tail : pystr) : pystr :=
  zfill 2 (dec p) ++ str "/" ++ zfill 2 (dec q) ++ str "/" ++ tail.

Definition slash_date (p q y : N) : pystr := slash_text p q (zfill 4 (dec y)).

(** A parenthesized note: no [)] and no line break inside. *)
Definition is_note (note : pystr) : bool :=
  forallb (fun c => negb (char_eqb c ")"%char) && negb (code c =? 10)%N) note.

(** The year is written with four digits that read back as the year,
    the text being that of [str] from 1000 on, and the first two are 19
    or 20 exactly for the years the scan looks for. *)
Definition year_digits_ok (y : N) : bool :=
  match zfill 4 (dec y) with
  | [a; b; c; d] =>
      Bool.eqb ((char_eqb a "1"%char && char_eqb b "9"%char)
                || (char_eqb a "2"%char && char_eqb b "0"%char))
               ((1900 <=? y) && (y <=? 2099))%N
      && (if (1000 <=? y)%N then str_eqb (dec y) [a; b; c; d] else true)
      && match py_int (zfill 4 (dec y)), py_int (dec y) with
         | Some n, Some n' => (n =? Z.of_N y)%Z && (n' =? Z.of_N y)%Z
         | _, _ => false
         end
      && negb (has_hyphen (dec y)) && negb (has_hyphen [a; b; c; d])
  | _ => false
  end.

(** A block is a common run of the two sequences:
    [a[i:i+k] == b[j:j+k]]. *)
Definition common (a b : pystr) (blk : block) : Prop :=
  let '(i, j, k) := blk in
  forall t, t < k -> nth (i + t) a Ascii.zero = nth (j + t) b Ascii.zero.

(** The lengths of [j2len] on entering row [i] are those of common runs
    that end in row [i - 1]. *)
Definition runs_end (a b : pystr) (i : nat) (m : lenmap) : Prop :=
  forall j t, t < j2len_get m j ->
              nth (i - 1 - t) a Ascii.zero = nth (j - t) b Ascii.zero.

(** [sum(triple[-1] for triple in get_matching_blocks())] *)
Definition matches_of (blocks : list block) : nat :=
  fold_right (fun '(_, _, k) s => k + s) 0 blocks.

(** The most the windows of the work list can still match. *)
Fixpoint queue_room (queue : list (nat * nat * nat * nat)) : nat :=
  match queue with
  | [] => 0
  | (alo, ahi, blo, bhi) :: q => Nat.min (ahi - alo) (bhi - blo) + queue_room q
  end.

(** The windows of the work list lie within the two sequences. *)
Definition queue_within (la lb : nat) (queue : list (nat * nat * nat * nat)) : Prop :=
  Forall (fun '(alo, ahi, blo, bhi) => alo <= ahi <= la /\ blo <= bhi <= lb) queue.

(** A block of the result: not empty, within the sequences, common. *)
Definition sound_block (a b : pystr) (blk : block) : Prop :=
  let '(i, j, k) := blk in
  0 < k /\ i + k <= length a /\ j + k <= length b
  /\ forall t, t < k -> nth (i + t) a Ascii.zero = nth (j + t) b Ascii.zero.

(** ** [extract_game_titles] of the pipeline

    The op [extract_game_titles] and the asset [raw_steam_data] take the
    titles to search on Steam from the column [title] of the Metacritic
    file, a cell being a [str] or missing. *)

(** [Series.unique()]: the values in the order they first appear, a
    missing value counting as one value. *)
Fixpoint unique_from (seen col : list (option pystr)) : list (option pystr) :=
  match col with
  | [] => []
  | x :: col' =>
      if isin x seen then unique_from seen col'
      else x :: unique_from (x :: seen) col'
  end.

Definition unique (col : list (option pystr)) : list (option pystr) :=
  unique_from [] col.

(** [l[:stop]]: a negative [stop] counts from the end. *)
Definition slice_to {A : Type} (l : list A) (stop : Z) : list A :=
  if (0 <=? stop)%Z then firstn (Z.to_nat stop) l
  else firstn (length l - Z.to_nat (- stop)) l.

(** [titles[:min(len(titles), max_titles)]] on the unique titles. *)
Definition extract_game_titles (max_titles : Z) (title : list (option pystr))
  : list (option pystr) :=
  let titles := unique title in
  slice_to titles (Z.min (Z.of_nat (length titles)) max_titles).

(** The defaults of [max_titles]: 20 for the op, 240 for the asset. *)
Definition op_max_titles : Z := 20.
Definition asset_max_titles : Z := 240.

(** ** The validation of the asset [video_games_dataset]

    The asset checks the file the merger wrote as [validate_data] does,
    except for the required columns, and raises where the op returns
    [False]. *)
Inductive verdict : Type :=
  | Accepted                  (* the asset returns the path of the file *)
  | Rejected                  (* [ValueError("Final dataset validation failed")] *)
  | NoMatchedColumn.          (* [KeyError: False], of [df[False]] *)

Definition video_games_dataset_check (cfg : config) (df : frame) : verdict :=
  if (Z.of_nat (length (rows df)) <? min_rows cfg)%Z then Rejected
  else if negb (has_column df "is_matched") then NoMatchedColumn
  else if (Z.of_nat (length (filter is_matched (rows df))) <? min_matched cfg)%Z
       then Rejected
       else Accepted.

(** ** Dates written with the name of the month *)

(** [calendar.month_abbr] and [calendar.month_name], from January on. *)
Definition month_abbr : list pystr :=
  [str "Jan"; str "Feb"; str "Mar"; str "Apr"; str "May"; str "Jun";
   str "Jul"; str "Aug"; str "Sep"; str "Oct"; str "Nov"; str "Dec"].

Definition month_name : list pystr :=
  [str "January"; str "February"; str "March"; str "April"; str "May";
   str "June"; str "July"; str "August"; str "September"; str "October";
   str "November"; str "December"].

Definition name_of (names : list pystr) (m : N) : pystr :=
  nth (N.to_nat m - 1) names [].

(** The day, with or without a leading zero. *)
Definition day_text (padded : bool) (d : N) : pystr :=
  if padded then zfill 2 (dec d) else dec d.

(** A date written as the [k]-th format of the table writes it, up to
    the white space before the year: ["Jan 05,"], ["January 05,"],
    ["05 Jan,"], ["05 January,"], ["05 Jan"], ["05 January"], ["Jan 05"],
    ["January 05"]. *)
Definition named_prefix (k : nat) (padded : bool) (m d : N) : pystr :=
  let abbr := name_of month_abbr m in
  let full := name_of month_name m in
  let dd := day_text padded d in
  match k with
  | 0 => abbr ++ str " " ++ dd ++ str ","
  | 1 => full ++ str " " ++ dd ++ str ","
  | 2 => dd ++ str " " ++ abbr ++ str ","
  | 3 => dd ++ str " " ++ full ++ str ","
  | 4 => dd ++ str " " ++ abbr
  | 5 => dd ++ str " " ++ full
  | 6 => abbr ++ str " " ++ dd
  | _ => full ++ str " " ++ dd
  end.

Definition named_date (k : nat) (padded : bool) (dt : date) : pystr :=
  named_prefix k padded (month dt) (day dt) ++ str " " ++ zfill 4 (dec (year dt)).

(** The eight formats of the table with the name of a month. *)
Definition named_formats : list pystr := firstn 8 date_formats.

(** The pattern of such a format without its last two pieces, the white
    space and the year. *)
Definition format_prefix (fmt : pystr) : list item :=
  match compile fmt with
  | Some its => removelast (removelast its)
  | None => []
  end.

(** The first of the partial matches after which white space follows,
    the only ones the rest of the pattern can extend. *)
Fixpoint first_live (results : list (date * pystr)) : option (date * pystr) :=
  match results with
  | [] => None
  | (d, r) :: rest =>
      match r with
      | x :: _ => if is_space x then Some (d, r) else first_live rest
      | [] => first_live rest
      end
  end.

(** The formats are tried in order on [p] followed by a space and
    [tail]: does the first that matches up to the year read the month
    [m] and the day [d], with exactly the space and [tail] left? *)
Fixpoint chain_ok (fmts : list pystr) (p tail : pystr) (m d : N) : bool :=
  match fmts with
  | [] => false
  | fmt :: rest =>
      match first_live (match_items (format_prefix fmt) default_date
                          (p ++ " "%char :: tail)) with
      | Some (dt, r) =>
          (month dt =? m)%N && (day dt =? d)%N && (year dt =? 1900)%N
          && (length r =? S (length tail))
      | None => chain_ok rest p tail m d
      end
  end.

Definition named_cases : list (nat * bool * N * N) :=
  flat_map (fun k =>
    flat_map (fun padded =>
      flat_map (fun m => map (fun d => (k, padded, m, d)) (N_seq 1 31))
        (N_seq 1 12))
      [true; false])
    (seq 0 8).

Definition named_case_ok (tail : pystr) (c : nat * bool * N * N) : bool :=
  let '(k, padded, m, d) := c in
  let p := named_prefix k padded m d in
  chain_ok named_formats p tail m d
  && negb (str_in (p ++ " "%char :: tail) date_placeholders)
  && no_paren p
  && match p with x :: _ => negb (is_space x) | [] => false end.

(** ** The scrapers: records and the files they write

    A scraped record is a [dict] from field names to texts (or the flag
    [found]); the order of its keys is that of their insertion. *)
Inductive value : Type :=
  | VStr (s : pystr)
  | VBool (b : bool)
  | VNaN.                       (* a missing title handed on as a search term *)

Definition record := list (string * value).

Definition keys (d : record) : list string := map fst d.

(** [d.get(k)] *)
Fixpoint dict_get (d : record) (k : string) : option value :=
  match d with
  | [] => None
  | (k', v) :: d' => if String.eqb k' k then Some v else dict_get d' k
  end.

(** [d[k] = v]: a key already there keeps its place. *)
Fixpoint dict_set (d : record) (k : string) (v : value) : record :=
  match d with
  | [] => [(k, v)]
  | (k', v') :: d' =>
      if String.eqb k' k then (k, v) :: d' else (k', v') :: dict_set d' k v
  end.

(** [{**d, **e}] *)
Definition dict_update (d e : record) : record :=
  fold_left (fun acc '(k, v) => dict_set acc k v) e d.

Definition has_key (fieldnames : list string) (k : string) : bool :=
  existsb (String.eqb k) fieldnames.

(** [csv.DictWriter._dict_to_list]: the cells of a row in the order of
    the field names, a missing one being [restval] (the empty string);
    [None] is the [ValueError] for a key that is no field name. *)
Definition dict_to_list (fieldnames : list string) (row : record)
  : option (list value) :=
  match filter (fun k => negb (has_key fieldnames k)) (keys row) with
  | [] =>
      Some (map (fun k => match dict_get row k with
                          | Some v => v
                          | None => VStr []
                          end) fieldnames)
  | _ :: _ => None
  end.

(** A file written by [DictWriter]: the header, the lines written, and
    whether [writerows] raised [ValueError] (after the lines before the
    offending row). *)
Record csv_file := mkcsv {
  header : list string;
  lines : list (list value);
  raised : bool }.

Fixpoint writerows (fieldnames : list string) (rows : list record)
  : list (list value) * bool :=
  match rows with
  | [] => ([], false)
  | row :: rest =>
      match dict_to_list fieldnames row with
      | None => ([], true)
      | Some cells =>
          let (written, r) := writerows fieldnames rest in (cells :: written, r)
      end
  end.

Definition write_csv (fieldnames : list string) (rows : list record) : csv_file :=
  let (written, r) := writerows fieldnames rows in mkcsv fieldnames written r.

(** The cell of a line under a field name. *)
Definition cell (fieldnames : list string) (line : list value) (k : string)
  : option value :=
  dict_get (combine fieldnames line) k.

(** *** [MetacriticScraper] *)

(** The keys of a record of [get_game_list], and those
    [get_game_details] adds. *)
Definition basic_keys : list string :=
  ["title"; "url"; "metascore"; "platform"; "release_date"]%string.

Definition detail_keys : list string :=
  ["user_score"; "critic_count"; "user_count"; "developer"; "publisher";
   "genres"]%string.

(** [MetacriticScraper.save_to_csv]: the field names are the keys of the
    first record that has more keys than all those before it. *)
Fixpoint longest_keys (games : list record) (fieldnames : list string) : list string :=
  match games with
  | [] => fieldnames
  | game :: rest =>
      if length fieldnames <? length (keys game)
      then longest_keys rest (keys game)
      else longest_keys rest fieldnames
  end.

Definition metacritic_save_to_csv (games : list record) : csv_file :=
  write_csv (longest_keys games []) games.

Section MetacriticScraper.
(** The network and the site: fetching the page of a game changes the
    state of the world and yields, when the request returns 200 and
    nothing raises, the six texts the function reads off the page. *)
Variable world : Type.
Variable fetch_details :
  world -> record -> world * option (pystr * pystr * pystr * pystr * pystr * pystr).

(** [MetacriticScraper.get_game_details]: a record that could not be
    fetched is kept as it is. *)
Fixpoint metacritic_get_game_details (games_list : list record) (w : world)
  : world * list record :=
  match games_list with
  | [] => (w, [])
  | game :: rest =>
      let (w1, page) := fetch_details w game in
      let detailed_game :=
        match page with
        | Some (user_score, critic_count, user_count, developer, publisher, genres) =>
            dict_update game
              [("user_score"%string, VStr user_score);
               ("critic_count"%string, VStr critic_count);
               ("user_count"%string, VStr user_count);
               ("developer"%string, VStr developer);
               ("publisher"%string, VStr publisher);
               ("genres"%string, VStr genres)]
        | None => game
        end in
      let (w2, detailed_games) := metacritic_get_game_details rest w1 in
      (w2, detailed_game :: detailed_games)
  end.
End MetacriticScraper.

(** *** [SteamScraper] *)

Definition steam_app_url : pystr := str "https://store.steampowered.com/app/".

(** A title of the list, as the value of [search_term]. *)
Definition title_value (title : option pystr) : value :=
  match title with
  | Some t => VStr t
  | None => VNaN
  end.

(** The keys of the dictionary [get_game_details] returns for a page it
    could read. *)
Definition steam_detail_keys : list string :=
  ["title"; "app_url"; "price"; "discount"; "review_summary"; "review_count";
   "release_date"; "developer"; "publisher"; "tags"; "system_requirements"]%string.

(** [sorted(list(fieldnames))], the field names being a set of strings:
    by insertion, in the order of the code points. *)
Fixpoint insert_key (k : string) (l : list string) : list string :=
  match l with
  | [] => [k]
  | x :: l' => if String.leb k x then k :: l else x :: insert_key k l'
  end.

Definition sorted (l : list string) : list string := fold_right insert_key [] l.

(** [SteamScraper.save_to_csv]: the field names are the keys of all the
    records, sorted. *)
Definition steam_save_to_csv (games : list record) : csv_file :=
  write_csv (sorted (nodup string_dec (flat_map keys games))) games.

Section SteamScraper.
(** Searching a title yields the identifier of the first result, unless
    the request fails, finds nothing or raises; [get_game_details] yields
    the dictionary of a page, empty when it could not be read. *)
Variable world : Type.
Variable search_first_result : world -> option pystr -> world * option pystr.
Variable get_game_details : world -> pystr -> world * record.

(** [SteamScraper.search_game] *)
Definition search_game (game_title : option pystr) (w : world)
  : world * option record :=
  let (w', first_result) := search_first_result w game_title in
  match first_result with
  | Some app_id =>
      (w', Some [("search_term"%string, title_value game_title);
                 ("app_id"%string, VStr app_id);
                 ("app_url"%string, VStr (steam_app_url ++ app_id))])
  | None => (w', None)
  end.

(** [SteamScraper.process_game_list] *)
Fixpoint process_game_list (game_titles : list (option pystr)) (w : world)
  : world * list record :=
  match game_titles with
  | [] => (w, [])
  | title :: rest =>
      let (w1, search_result) := search_game title w in
      match search_result with
      | None =>
          let (w2, steam_games) := process_game_list rest w1 in
          (w2, [("search_term"%string, title_value title);
                ("found"%string, VBool false)] :: steam_games)
      | Some search_result =>
          let app_url :=
            match dict_get search_result "app_url" with
            | Some (VStr app_url) => app_url
            | _ => []
            end in
          let (w2, game_details) := get_game_details w1 app_url in
          let game_data :=
            dict_set (dict_update search_result game_details) "found" (VBool true) in
          let (w3, steam_games) := process_game_list rest w2 in
          (w3, game_data :: steam_games)
      end
  end.
End SteamScraper.

(** *** The publisher on a page of the Steam store *)

(** Is [sub] at the head of [s]? *)
Fixpoint starts_with (sub s : pystr) : bool :=
  match sub, s with
  | [], _ => true
  | x :: sub', y :: s' => char_eqb x y && starts_with sub' s'
  | _ :: _, [] => false
  end.

(** [s.find(sub)], counted from [i]: the least index at which [sub]
    occurs, [-1] when it occurs nowhere. *)
Fixpoint find_from (sub s : pystr) (i : Z) : Z :=
  match s with
  | [] => if starts_with sub [] then i else (-1)%Z
  | _ :: s' => if starts_with sub s then i else find_from sub s' (i + 1)%Z
  end.

Definition find (sub s : pystr) : Z := find_from sub s 0%Z.

(** A [.details_block] of the page: its text and the texts of its
    links, in the order of the document. *)
Record details_block := mkblock {
  block_text : pystr;
  block_links : list pystr }.

(** The inner loop: the first link whose text is found in the text of
    the block after ["Publisher:"]. *)
Definition publisher_link (block : details_block) : option pystr :=
  List.find (fun link =>
               (find (str "Publisher:") (block_text block)
                <? find link (block_text block))%Z)
    (block_links block).

(** The loop over the blocks of [get_game_details]: a later block that
    names a publisher replaces what an earlier one gave. *)
Definition publisher_of (blocks : list details_block) : pystr :=
  fold_left (fun publisher block =>
               if (0 <=? find (str "Publisher:") (block_text block))%Z
               then match publisher_link block with
                    | Some link => strip link
                    | None => publisher
                    end
               else publisher)
    blocks (str "N/A").

(** A binary64 number that is positive and at most 1.0: below the
    binade of 1.0, or 1.0 itself. *)
Definition at_most_one (v : spec_float) : Prop :=
  exists m e,
    v = S754_finite false m e
    /\ (e < -52 \/ (e = -52 /\ m = 4503599627370496%positive))%Z.

(** A binary64 number that is not below zero: a zero, a positive number
    or the positive infinity; never NaN. *)
Definition not_below_zero (v : spec_float) : Prop :=
  match v with
  | S754_zero _ => True
  | S754_infinity s | S754_finite s _ _ => s = false
  | S754_nan => False
  end.

(** ** The rows of the merged frame, record by record *)

(** [r] is the row the first loop builds for the Metacritic record [g]:
    the row of [g] and of the Steam record the inner loop selected for
    it, with the score of that pair, above the threshold, as its
    confidence; [add_scores] has passed over it when the frame got its
    scores. *)
Definition row_of_pair (steam : list Steam.row) (g : Metacritic.row)
           (r : merged_row) : Prop :=
  exists s,
    In s steam
    /\ find_best g steam = (Some s, match_score g s)
    /\ (0.7 <? match_score g s)%float = true
    /\ (r = matched_row g s (match_score g s)
        \/ r = add_scores (matched_row g s (match_score g s))).

(** The titles of the Metacritic records that have a match. *)
Definition matched_titles (steam : list Steam.row)
           (metacritic : list Metacritic.row) : list (option pystr) :=
  map Metacritic.title (filter (has_match steam) metacritic).

(** The Metacritic records that are emitted as unmatched: those whose
    title is not the title of a record with a match. *)
Definition lone_left (steam : list Steam.row) (metacritic : list Metacritic.row)
  : list Metacritic.row :=
  filter (fun g => negb (isin (Metacritic.title g) (matched_titles steam metacritic)))
    metacritic.


(** The Steam records that are emitted as unmatched: those whose title
    is the title of no Metacritic record. *)
Definition lone_right (steam : list Steam.row) (metacritic : list Metacritic.row)
  : list Steam.row :=
  filter (fun s => negb (isin (Steam.title s) (map Metacritic.title metacritic)))
    steam.

(** * Properties *)

(** ** The examples of the specification *)

Example price_free : _extract_price (Some (str "Free")) = Some 0%float.
Proof. reflexivity. Qed.

Example price_1999 : _extract_price (Some (str "$19.99")) = Some 19.99%float.
Proof. vm_compute. reflexivity. Qed.

Example price_thousands : _extract_price (Some (str "USD 1,299.50 ")) = Some 1299.5%float.
Proof. vm_compute. reflexivity. Qed.

Example price_none : _extract_price (Some (str "1.2.3")) = None.
Proof. vm_compute. reflexivity. Qed.

Example date_short_month (pads : bool) :
  _standardize_date pads (Some (str "Jan 1, 2020")) = Some (str "2020-01-01").
Proof. destruct pads; vm_compute; reflexivity. Qed.

Example date_slash (pads : bool) :
  _standardize_date pads (Some (str "01/01/2020")) = Some (str "2020-01-01").
Proof. destruct pads; vm_compute; reflexivity. Qed.

Example date_year (pads : bool) :
  _standardize_date pads (Some (str "2020")) = Some (str "2020-01-01").
Proof. destruct pads; vm_compute; reflexivity. Qed.

(** ** Strings *)

Lemma char_eqb_eq (a b : ascii) : char_eqb a b = true <-> a = b.
Proof. apply Ascii.eqb_eq. Qed.

Lemma char_eqb_refl (a : ascii) : char_eqb a a = true.
Proof. apply Ascii.eqb_refl. Qed.

Lemma str_eqb_eq (a b : pystr) : str_eqb a b = true <-> a = b.
Proof.
  revert b; induction a as [|x a IH]; intros [|y b]; simpl; split;
    try congruence; try reflexivity.
  - intros H. apply andb_true_iff in H as [Hx Hab].
    apply char_eqb_eq in Hx. apply IH in Hab. congruence.
  - intros H. injection H as -> ->. rewrite char_eqb_refl. simpl. now apply IH.
Qed.

Lemma str_eqb_refl (a : pystr) : str_eqb a a = true.
Proof. now apply str_eqb_eq. Qed.

Lemma lstrip_length (s : pystr) : length (lstrip s) <= length s.
Proof.
  induction s as [|c s IH]; simpl; [lia|].
  destruct (is_space c); simpl; lia.
Qed.

Lemma lstrip_idem (s : pystr) : lstrip (lstrip s) = lstrip s.
Proof.
  induction s as [|c s IH]; simpl; [reflexivity|].
  destruct (is_space c) eqn:Hc; [exact IH|]. simpl. now rewrite Hc.
Qed.

Lemma lstrip_head (c : ascii) (s : pystr) :
  is_space c = false -> lstrip (c :: s) = c :: s.
Proof. intros H. simpl. now rewrite H. Qed.

(** A string [lstrip] leaves alone starts with no white space. *)
Lemma lstrip_fixed (c : ascii) (s : pystr) :
  lstrip (c :: s) = c :: s -> is_space c = false.
Proof.
  simpl. destruct (is_space c); [|reflexivity].
  intros H. pose proof (lstrip_length s) as Hl. rewrite H in Hl. simpl in Hl. lia.
Qed.

Lemma lstrip_snoc (s : pystr) (c : ascii) :
  is_space c = false -> lstrip (s ++ [c]) = lstrip s ++ [c].
Proof.
  intros Hc. induction s as [|x s IH]; simpl.
  - now rewrite Hc.
  - destruct (is_space x); [exact IH|reflexivity].
Qed.

Lemma rstrip_cons (c : ascii) (s : pystr) :
  is_space c = false -> rstrip (c :: s) = c :: rstrip s.
Proof.
  intros Hc. unfold rstrip. simpl. rewrite lstrip_snoc by exact Hc.
  rewrite rev_app_distr. reflexivity.
Qed.

Lemma rstrip_length (s : pystr) : length (rstrip s) <= length s.
Proof.
  unfold rstrip. rewrite length_rev.
  pose proof (lstrip_length (rev s)) as H. now rewrite length_rev in H.
Qed.

Lemma rstrip_idem (s : pystr) : rstrip (rstrip s) = rstrip s.
Proof. unfold rstrip. now rewrite rev_involutive, lstrip_idem. Qed.

Lemma strip_length (s : pystr) : length (strip s) <= length s.
Proof.
  unfold strip. pose proof (rstrip_length (lstrip s)). pose proof (lstrip_length s). lia.
Qed.

(** [strip] of a string that starts with no white space only works at
    its end. *)
Lemma lstrip_rstrip (s : pystr) : lstrip s = s -> lstrip (rstrip s) = rstrip s.
Proof.
  destruct s as [|c s]; [reflexivity|].
  intros H. apply lstrip_fixed in H.
  rewrite rstrip_cons by exact H. now apply lstrip_head.
Qed.

Lemma strip_idem (s : pystr) : strip (strip s) = strip s.
Proof.
  unfold strip. rewrite lstrip_rstrip by apply lstrip_idem.
  apply rstrip_idem.
Qed.

Lemma span_app (p : ascii -> bool) (s : pystr) :
  fst (span p s) ++ snd (span p s) = s.
Proof.
  induction s as [|c s IH]; simpl; [reflexivity|].
  destruct (p c); [|reflexivity].
  destruct (span p s) as [a b]. simpl in *. now rewrite IH.
Qed.

Lemma span_length (p : ascii -> bool) (s : pystr) :
  length (fst (span p s)) + length (snd (span p s)) = length s.
Proof. rewrite <- length_app, span_app. reflexivity. Qed.

(** ** Title clean-up *)

Lemma sub_numbering_none (t : pystr) :
  has_numbering t = false -> sub_numbering t = t.
Proof.
  unfold has_numbering, sub_numbering.
  destruct (span is_digit t) as [[|d ds] [|c r]]; try reflexivity.
  now intros ->.
Qed.

Lemma sub_numbering_shorter (t : pystr) :
  has_numbering t = true -> length (sub_numbering t) < length t.
Proof.
  unfold has_numbering, sub_numbering.
  pose proof (span_length is_digit t) as Hl.
  destruct (span is_digit t) as [[|d ds] [|c r]]; try discriminate.
  intros ->. simpl in Hl. pose proof (lstrip_length r). lia.
Qed.


Example clean_title_numbered :
  clean_title (str "235. Great Game") = str "Great Game".
Proof. reflexivity. Qed.

Example clean_title_spaced :
  clean_title (str "  Spaced  ") = str "Spaced".
Proof. reflexivity. Qed.

(** ** Dates: the loop over the formats *)

Lemma try_formats_none (pads : bool) (fmts : list pystr) (t : pystr) :
  (forall fmt, In fmt fmts -> strptime t fmt = None) ->
  try_formats pads fmts t = None.
Proof.
  induction fmts as [|fmt fmts IH]; intros H; simpl; [reflexivity|].
  rewrite (H fmt (or_introl eq_refl)).
  apply IH. intros f Hf. apply H. now right.
Qed.

Lemma try_formats_skip (pads : bool) (fmt : pystr) (fmts : list pystr) (t : pystr) :
  strptime t fmt = None -> try_formats pads (fmt :: fmts) t = try_formats pads fmts t.
Proof. intros H. simpl. now rewrite H. Qed.

Lemma strptime_valid (t fmt : pystr) (d : date) :
  strptime t fmt = Some d -> valid_date d = true.
Proof.
  unfold strptime. destruct (compile fmt) as [its|]; [|discriminate].
  destruct (match_items its default_date t) as [|[d' [|x r]] l]; try discriminate.
  destruct (valid_date d') eqn:Hv; [|discriminate].
  intros H. injection H as <-. exact Hv.
Qed.

(** What the loop returns is the text of a date of the calendar. *)
Lemma try_formats_some (pads : bool) (fmts : list pystr) (t r : pystr) :
  try_formats pads fmts t = Some r ->
  exists d, valid_date d = true
            /\ (r = strftime_iso pads d \/ r = dec (year d) ++ str "-01-01").
Proof.
  induction fmts as [|fmt fmts IH]; cbn [try_formats]; [discriminate|].
  destruct (strptime t fmt) as [d|] eqn:Hp; [|exact IH].
  apply strptime_valid in Hp.
  destruct (str_eqb fmt (str "%Y")); intros H; injection H as <-;
    exists d; auto.
Qed.

Lemma str_in_inv (x : pystr) (l : list pystr) : str_in x l = true -> In x l.
Proof.
  unfold str_in. intros H. apply existsb_exists in H as [y [Hy Hxy]].
  apply str_eqb_eq in Hxy. now subst.
Qed.

(** A placeholder holds no year. *)
Lemma placeholder_no_year (s : pystr) :
  str_in s date_placeholders = true -> search_year (strip (sub_parens s)) = None.
Proof.
  intros H. apply str_in_inv in H. simpl in H.
  destruct H as [<-|[<-|[<-|[]]]]; reflexivity.
Qed.

(** When no format parses the text, the result is the one of the scan
    for a year. *)
Lemma standardize_date_fallback (pads : bool) (s : pystr) :
  (forall fmt, In fmt date_formats ->
               strptime (strip (sub_parens s)) fmt = None) ->
  _standardize_date pads (Some s)
  = option_map (fun y => y ++ str "-01-01")
      (search_year (strip (sub_parens s))).
Proof.
  intros H. unfold _standardize_date.
  destruct (str_in s date_placeholders) eqn:Hp.
  - now rewrite placeholder_no_year by exact Hp.
  - rewrite try_formats_none by exact H.
    now destruct (search_year (strip (sub_parens s))).
Qed.

(** ** Dates: reading back a date written as [YYYY-MM-DD] *)

Lemma is_digit_cases (c : ascii) :
  is_digit c = true -> In c (str "0123456789").
Proof.
  destruct c as [[] [] [] [] [] [] [] []]; intros H;
    try discriminate H; vm_compute; tauto.
Qed.

(** Case analysis on a digit, each case with the digit in place. *)
Ltac digit_cases H :=
  apply is_digit_cases in H; simpl in H;
  destruct H as [<-|[<-|[<-|[<-|[<-|[<-|[<-|[<-|[<-|[<-|[]]]]]]]]]]].

Lemma digit_not_space (c : ascii) : is_digit c = true -> is_space c = false.
Proof. intros H. digit_cases H; reflexivity. Qed.

Lemma digit_not_paren (c : ascii) : is_digit c = true -> char_eqb c "("%char = false.
Proof. intros H. digit_cases H; reflexivity. Qed.

(** A format that starts with a month name reads no text that starts
    with a digit. *)
Lemma strptime_month_first (fmt : pystr) (it : item) (its : list item)
      (c : ascii) (r : pystr) :
  compile fmt = Some (it :: its) -> it = Dir_b \/ it = Dir_B ->
  is_digit c = true -> strptime (c :: r) fmt = None.
Proof.
  intros Hc Hit Hd. unfold strptime. rewrite Hc.
  assert (Hm : match_item it default_date (c :: r) = []).
  { destruct Hit as [-> | ->]; digit_cases Hd; reflexivity. }
  cbn [match_items]. rewrite Hm. reflexivity.
Qed.


Lemma in_N_seq (len : nat) (start y : N) :
  (start <= y < start + N.of_nat len)%N -> In y (N_seq start len).
Proof.
  revert start. induction len as [|len IH]; intros start H; [lia|].
  cbn [N_seq]. destruct (N.eq_dec start y) as [->|Hne]; [now left|].
  right. apply IH. lia.
Qed.

Lemma year_text_all : forallb year_text_ok (N_seq 0 (N.to_nat 10000)) = true.
Proof. vm_compute. reflexivity. Qed.

Lemma year_text (y : N) :
  (y <= 9999)%N ->
  exists a b c d,
    zfill 4 (dec y) = [a; b; c; d]
    /\ is_digit a = true /\ is_digit b = true /\ is_digit c = true
    /\ is_digit d = true /\ val4 a b c d = y.
Proof.
  intros Hy.
  assert (Hin : In y (N_seq 0 (N.to_nat 10000))) by (apply in_N_seq; lia).
  pose proof (proj1 (forallb_forall _ _) year_text_all y Hin) as H.
  unfold year_text_ok in H.
  destruct (zfill 4 (dec y)) as [|a [|b [|c [|d [|x l]]]]]; try discriminate H.
  apply andb_true_iff in H as [H Hv]. apply andb_true_iff in H as [H Hd].
  apply andb_true_iff in H as [H Hc]. apply andb_true_iff in H as [Ha Hb].
  exists a, b, c, d. repeat split; try assumption. now apply N.eqb_eq.
Qed.

Lemma days_in_month_le (y m : N) : (days_in_month y m <= 31)%N.
Proof.
  unfold days_in_month.
  repeat match goal with
         | |- context [match ?x with _ => _ end] => destruct x
         end; lia.
Qed.

Lemma valid_date_bounds (d : date) :
  valid_date d = true ->
  (1 <= year d <= 9999)%N /\ (1 <= month d <= 12)%N /\ (1 <= day d <= 31)%N.
Proof.
  unfold valid_date. intros H.
  repeat (apply andb_true_iff in H as [H ?]).
  repeat match goal with
         | H : (_ <=? _)%N = true |- _ => apply N.leb_le in H
         end.
  pose proof (days_in_month_le (year d) (month d)). lia.
Qed.



Lemma sub_parens_id (s : pystr) : no_paren s = true -> sub_parens s = s.
Proof.
  unfold sub_parens. induction s as [|c s IH]; simpl; [reflexivity|].
  intros H. apply andb_true_iff in H as [Hc Hs].
  apply negb_true_iff in Hc. rewrite Hc. simpl. now rewrite IH.
Qed.



(** ** Dates: what [_standardize_date] returns *)

Lemma year_here_shape (s y : pystr) :
  year_here s = Some y ->
  exists a b c e,
    y = [a; b; c; e]
    /\ ((a = "1"%char /\ b = "9"%char) \/ (a = "2"%char /\ b = "0"%char))
    /\ is_digit c = true /\ is_digit e = true.
Proof.
  unfold year_here.
  destruct s as [|a [|b [|c [|e r]]]]; try discriminate.
  destruct (_ && _) eqn:H; [|discriminate].
  intros Hy. injection Hy as <-.
  apply andb_true_iff in H as [H _]. apply andb_true_iff in H as [H He].
  apply andb_true_iff in H as [H Hc].
  exists a, b, c, e. repeat split; try assumption.
  apply orb_true_iff in H as [H|H]; apply andb_true_iff in H as [H1 H2];
    apply char_eqb_eq in H1, H2; auto.
Qed.

Lemma search_year_shape (p : bool) (t y : pystr) :
  search_year_from p t = Some y ->
  exists a b c e,
    y = [a; b; c; e]
    /\ ((a = "1"%char /\ b = "9"%char) \/ (a = "2"%char /\ b = "0"%char))
    /\ is_digit c = true /\ is_digit e = true.
Proof.
  revert p. induction t as [|x t IH]; intros p; cbn [search_year_from];
    [discriminate|].
  destruct (if p then None else year_here (x :: t)) as [y'|] eqn:Hy.
  - intros H. injection H as <-. destruct p; [discriminate|].
    now apply year_here_shape in Hy.
  - apply IH.
Qed.

(** The year found by the scan, with [-01-01], is the text of a date. *)
Lemma scanned_year_text (pads : bool) (p : bool) (t y : pystr) :
  search_year_from p t = Some y ->
  exists d, valid_date d = true /\ y ++ str "-01-01" = strftime_iso pads d.
Proof.
  intros H. apply search_year_shape in H.
  destruct H as (a & b & c & e & -> & Hab & Hc & He).
  exists (mkdate (val4 a b c e) 1 1).
  destruct pads, Hab as [[-> ->]|[-> ->]]; digit_cases Hc; digit_cases He;
    split; reflexivity.
Qed.



(** C7. [_standardize_date] maps "Jan 1, 2020", "01/01/2020" and "2020" to
    "2020-01-01".  For a string that none of the formats of the table
    parses (after the parenthesized parts and the surrounding white space
    are removed) it returns the first year 19xx or 20xx found by the scan,
    followed by "-01-01", and null when the scan finds none. *)
Theorem standardize_date_examples_and_fallback (pads : bool) :
  _standardize_date pads (Some (str "Jan 1, 2020")) = Some (str "2020-01-01")
  /\ _standardize_date pads (Some (str "01/01/2020")) = Some (str "2020-01-01")
  /\ _standardize_date pads (Some (str "2020")) = Some (str "2020-01-01")
  /\ forall s : pystr,
      (forall fmt, In fmt date_formats ->
                   strptime (strip (sub_parens s)) fmt = None) ->
      _standardize_date pads (Some s)
      = match search_year (strip (sub_parens s)) with
        | Some y => Some (y ++ str "-01-01")
        | None => None
        end.
Proof.
  split; [destruct pads; vm_compute; reflexivity|].
  split; [destruct pads; vm_compute; reflexivity|].
  split; [destruct pads; vm_compute; reflexivity|].
  intros s H. rewrite standardize_date_fallback by exact H.
  now destruct (search_year (strip (sub_parens s))).
Qed.

Lemma standardize_date_fallback_witness :
  (forall fmt, In fmt date_formats ->
               strptime (strip (sub_parens (str "Coming 2024!"))) fmt = None)
  /\ _standardize_date false (Some (str "Coming 2024!")) = Some (str "2024-01-01")
  /\ _standardize_date false (Some (str "soon")) = None.
Proof.
  assert (H1 : forall fmt, In fmt date_formats ->
                 strptime (strip (sub_parens (str "Coming 2024!"))) fmt = None).
  { intros fmt H. cbn [date_formats In] in H.
    repeat (destruct H as [<-|H]; [vm_compute; reflexivity|]). destruct H. }
  assert (H2 : forall fmt, In fmt date_formats ->
                 strptime (strip (sub_parens (str "soon"))) fmt = None).
  { intros fmt H. cbn [date_formats In] in H.
    repeat (destruct H as [<-|H]; [vm_compute; reflexivity|]). destruct H. }
  destruct (standardize_date_examples_and_fallback false) as (_ & _ & _ & Hf).
  split; [exact H1|]. split.
  - rewrite (Hf _ H1). vm_compute. reflexivity.
  - rewrite (Hf _ H2). vm_compute. reflexivity.
Defined.




(** ** Prices *)

Lemma span_run (p : ascii -> bool) (m post : pystr) :
  forallb p m = true ->
  match post with [] => True | c :: _ => p c = false end ->
  span p (m ++ post) = (m, post).
Proof.
  intros Hm Hpost. induction m as [|c m IH]; cbn [app].
  - destruct post as [|c post]; cbn [span]; [reflexivity|]. now rewrite Hpost.
  - cbn [forallb] in Hm. apply andb_true_iff in Hm as [Hc Hm].
    cbn [span]. rewrite Hc, (IH Hm). reflexivity.
Qed.

Lemma search_price_first (s pre m post : pystr) :
  first_price_run s pre m post -> search_price s = Some m.
Proof.
  intros (-> & Hpre & Hne & Hm & Hpost).
  induction pre as [|c pre IH]; cbn [app].
  - destruct m as [|c m]; [contradiction|].
    cbn [forallb] in Hm. pose proof Hm as Hm'.
    apply andb_true_iff in Hm as [Hc _].
    change ((c :: m) ++ post) with (c :: (m ++ post)).
    cbn [search_price]. rewrite Hc.
    change (c :: (m ++ post)) with ((c :: m) ++ post).
    rewrite span_run by assumption. reflexivity.
  - cbn [forallb] in Hpre. apply andb_true_iff in Hpre as [Hc Hpre].
    apply negb_true_iff in Hc. cbn [search_price]. rewrite Hc. now apply IH.
Qed.

Lemma search_price_none (s : pystr) :
  forallb (fun c => negb (is_price_char c)) s = true -> search_price s = None.
Proof.
  induction s as [|c s IH]; cbn [forallb search_price]; [reflexivity|].
  intros H. apply andb_true_iff in H as [Hc Hs].
  apply negb_true_iff in Hc. rewrite Hc. now apply IH.
Qed.

Lemma price_char_kept (c : ascii) :
  is_price_char c = true ->
  is_digit c || char_eqb c "."%char = negb (char_eqb c ","%char).
Proof.
  destruct c as [[] [] [] [] [] [] [] []]; intros H;
    try discriminate H; reflexivity.
Qed.

Lemma keep_digits_dot_run (m : pystr) :
  forallb is_price_char m = true -> keep_digits_dot m = remove_commas m.
Proof.
  unfold keep_digits_dot, remove_commas.
  induction m as [|c m IH]; cbn [forallb filter]; [reflexivity|].
  intros H. apply andb_true_iff in H as [Hc Hm].
  rewrite (price_char_kept _ Hc), (IH Hm). reflexivity.
Qed.

(** No placeholder holds a price character. *)
Lemma placeholder_no_price_char (p : pystr) :
  str_in p price_placeholders = true ->
  forallb (fun c => negb (is_price_char c)) p = true.
Proof.
  intros H. apply str_in_inv in H. cbn [price_placeholders In] in H.
  destruct H as [<-|[<-|[<-|[<-|[]]]]]; reflexivity.
Qed.

Lemma first_price_run_not_placeholder (s pre m post : pystr) :
  first_price_run s pre m post -> str_in s price_placeholders = false.
Proof.
  intros (-> & _ & Hne & Hm & _).
  destruct (str_in _ price_placeholders) eqn:Hp; [|reflexivity].
  apply placeholder_no_price_char in Hp.
  rewrite !forallb_app in Hp.
  apply andb_true_iff in Hp as [_ Hp]. apply andb_true_iff in Hp as [Hp _].
  destruct m as [|c m]; [contradiction|].
  cbn [forallb] in Hm, Hp.
  apply andb_true_iff in Hm as [Hc _]. apply andb_true_iff in Hp as [Hc' _].
  rewrite Hc in Hc'. discriminate.
Qed.

(** C6, as the claim states it, fails: "N/A" is one of the tokens mapped
    to 0.0, not to null. *)
Lemma extract_price_na_is_zero :
  _extract_price (Some (str "N/A")) = Some 0%float
  /\ _extract_price (Some (str "N/A")) <> None.
Proof. split; [reflexivity|discriminate]. Qed.

(** C6, amended.  [_extract_price] maps "Free" to 0.0 and "$19.99" to
    19.99; a string that is, once stripped, one of the tokens "N/A",
    "Free", "Free to Play" or the empty string is mapped to 0.0; for any
    other string the first run of digits, commas and periods, without its
    commas, is parsed as a float, and the result is null when that parse
    fails or when the string holds no such run. *)
Theorem extract_price_amended :
  _extract_price (Some (str "Free")) = Some 0%float
  /\ _extract_price (Some (str "$19.99")) = Some 19.99%float
  /\ (forall s : pystr,
         In (strip s) price_placeholders -> _extract_price (Some s) = Some 0%float)
  /\ (forall s pre m post : pystr,
         first_price_run (strip s) pre m post ->
         _extract_price (Some s) = py_float (remove_commas m))
  /\ (forall s : pystr,
         ~ In (strip s) price_placeholders ->
         forallb (fun c => negb (is_price_char c)) (strip s) = true ->
         _extract_price (Some s) = None).
Proof.
  split; [reflexivity|]. split; [vm_compute; reflexivity|].
  split; [|split].
  - intros s H. unfold _extract_price.
    replace (str_in (strip s) price_placeholders) with true; [reflexivity|].
    symmetry. unfold str_in. apply existsb_exists.
    exists (strip s). split; [exact H|apply str_eqb_refl].
  - intros s pre m post H. unfold _extract_price.
    rewrite (first_price_run_not_placeholder H), (search_price_first H).
    destruct H as (_ & _ & _ & Hm & _). now rewrite keep_digits_dot_run.
  - intros s Hp Hn. unfold _extract_price.
    destruct (str_in (strip s) price_placeholders) eqn:Hin.
    + apply str_in_inv in Hin. contradiction.
    + now rewrite search_price_none.
Qed.

Lemma extract_price_witness :
  _extract_price (Some (str " Free to Play ")) = Some 0%float
  /\ _extract_price (Some (str "USD 1,299.50 each"))
     = py_float (str "1299.50")
  /\ _extract_price (Some (str "TBD")) = None.
Proof.
  destruct extract_price_amended as (_ & _ & H0 & Hrun & Hnone).
  split; [|split].
  - apply H0. vm_compute. tauto.
  - apply (Hrun (str "USD 1,299.50 each") (str "USD ") (str "1,299.50") (str " each")).
    unfold first_price_run. repeat split; try reflexivity. discriminate.
  - apply Hnone.
    + vm_compute. intros [H|[H|[H|[H|[]]]]]; discriminate H.
    + reflexivity.
Defined.

(** ** The threshold of the best-match loop *)

(** A score above the threshold is above the initial best score. *)
Lemma above_threshold_positive (s : float) :
  (0.7 <? s)%float = true -> (0 <? s)%float = true.
Proof.
  rewrite !ltb_spec.
  change (Prim2SF 0.7) with (S754_finite false 6305039478318694 (-53)).
  change (Prim2SF 0) with (S754_zero false).
  destruct (Prim2SF s) as [sg|sg| |sg m e]; try destruct sg;
    cbn; congruence.
Qed.

Lemma threshold_not_above_itself : (0.7 <? 0.7)%float = false.
Proof. reflexivity. Qed.

Section BestFrom.
Variable A : Type.
Variable score : A -> float.

Lemma best_from_inv (all steam : list A) (bm : option A) (bs : float) :
  incl steam all -> best_inv score all bm bs ->
  best_inv score all (fst (best_from score steam bm bs))
    (snd (best_from score steam bm bs)).
Proof.
  revert bm bs. induction steam as [|x steam IH]; intros bm bs Hin Hinv;
    cbn [best_from]; [exact Hinv|].
  assert (Hx : In x all) by (apply Hin; now left).
  assert (Hrest : incl steam all) by (intros y Hy; apply Hin; now right).
  destruct ((bs <? score x) && (0.7 <? score x))%float eqn:Hc.
  - apply IH; [exact Hrest|]. apply andb_true_iff in Hc as [_ Hc].
    cbn. auto.
  - now apply IH.
Qed.

(** Once a row is held, one is held to the end. *)
Lemma best_from_some (steam : list A) (x : A) (bs : float) :
  exists st s, best_from score steam (Some x) bs = (Some st, s).
Proof.
  revert x bs. induction steam as [|y steam IH]; intros x bs; cbn [best_from].
  - now exists x, bs.
  - destruct (_ && _); apply IH.
Qed.

Lemma best_from_finds (steam : list A) (x : A) :
  In x steam -> (0.7 <? score x)%float = true ->
  exists st s, best_from score steam None 0%float = (Some st, s).
Proof.
  induction steam as [|y steam IH]; intros Hin Hx; [destruct Hin|].
  cbn [best_from].
  destruct ((0 <? score y) && (0.7 <? score y))%float eqn:Hc.
  - apply best_from_some.
  - destruct Hin as [->|Hin]; [|now apply IH].
    rewrite Hx, (above_threshold_positive Hx) in Hc. discriminate.
Qed.

(** Rows that do not beat the held score leave it in place. *)
Lemma best_from_keeps (post : list A) (x : A) :
  (forall y, In y post -> (score x <? score y)%float = false) ->
  best_from score post (Some x) (score x) = (Some x, score x).
Proof.
  induction post as [|y post IH]; intros H; cbn [best_from]; [reflexivity|].
  rewrite (H y (or_introl eq_refl)). cbn [andb].
  apply IH. intros z Hz. apply H. now right.
Qed.

Lemma best_from_first_max (pre post : list A) (x : A) (bm : option A) (bs : float) :
  (0.7 <? score x)%float = true ->
  (bs <? score x)%float = true ->
  (forall y, In y pre -> (score y <? score x)%float = true) ->
  (forall y, In y post -> (score x <? score y)%float = false) ->
  best_from score (pre ++ x :: post) bm bs = (Some x, score x).
Proof.
  intros Hx. revert bm bs.
  induction pre as [|y pre IH]; intros bm bs Hbs Hpre Hpost; cbn [app best_from].
  - rewrite Hbs, Hx. cbn [andb]. now apply best_from_keeps.
  - destruct (_ && _).
    + apply IH; [apply Hpre; now left| |exact Hpost].
      intros z Hz. apply Hpre. now right.
    + apply IH; [exact Hbs| |exact Hpost].
      intros z Hz. apply Hpre. now right.
Qed.
End BestFrom.

(** ** Binary64: doubling an integer, and a number divided by itself *)

Local Open Scope Z_scope.

(** Away from the subnormal range the exponent of a rounding follows the
    number of digits. *)
Lemma fexp_linear (e : Z) : -1021 <= e -> fexp prec emax e = e - 53.
Proof. unfold fexp, emin, prec, emax. lia. Qed.

Lemma digits2_size (p : positive) : digits2_pos p = Pos.size p.
Proof. induction p as [p IH|p IH|]; cbn; now rewrite ?IH. Qed.

Lemma iter_pos_nat {A : Type} (f : A -> A) (n : positive) (x : A) :
  iter_pos f n x = Nat.iter (Pos.to_nat n) f x.
Proof.
  revert x. induction n as [n IH|n IH|]; intros x; cbn [iter_pos].
  - rewrite !IH, Pos2Nat.inj_xI.
    replace (S (2 * Pos.to_nat n))%nat with (Pos.to_nat n + S (Pos.to_nat n))%nat by lia.
    rewrite Nat.iter_add. f_equal. now rewrite Nat.iter_succ_r.
  - rewrite !IH, Pos2Nat.inj_xO.
    replace (2 * Pos.to_nat n)%nat with (Pos.to_nat n + Pos.to_nat n)%nat by lia.
    now rewrite Nat.iter_add.
  - reflexivity.
Qed.

Lemma iter_pos_succ {A : Type} (f : A -> A) (n : positive) (x : A) :
  iter_pos f (Pos.succ n) x = iter_pos f n (f x).
Proof. now rewrite !iter_pos_nat, Pos2Nat.inj_succ, Nat.iter_succ_r. Qed.

(** The exponent raised by one, with the overflow it can cause. *)

Lemma shr_shift (mrs : shr_record) (e n : Z) :
  shr mrs (e + 1) n = (fst (shr mrs e n), snd (shr mrs e n) + 1).
Proof. unfold shr. destruct n; cbn [fst snd]; f_equal; lia. Qed.

Lemma shr_exponent (mrs : shr_record) (e n : Z) : e <= snd (shr mrs e n).
Proof. unfold shr. destruct n; cbn [snd]; lia. Qed.

Lemma Zdigits2_nonneg (m : Z) : 0 <= Zdigits2 m.
Proof. destruct m; cbn; lia. Qed.

Lemma shr_fexp_shift (m e : Z) (l : location) :
  -1021 <= e ->
  shr_fexp prec emax m (e + 1) l
  = (fst (shr_fexp prec emax m e l), snd (shr_fexp prec emax m e l) + 1).
Proof.
  intros He. unfold shr_fexp. pose proof (Zdigits2_nonneg m).
  rewrite !fexp_linear by lia.
  replace (Zdigits2 m + (e + 1) - 53 - (e + 1)) with (Zdigits2 m + e - 53 - e) by lia.
  apply shr_shift.
Qed.

Lemma shr_fexp_exponent (m e : Z) (l : location) :
  e <= snd (shr_fexp prec emax m e l).
Proof. unfold shr_fexp. apply shr_exponent. Qed.

Lemma round_aux_shift (s : bool) (m e : Z) (l : location) :
  -1021 <= e ->
  binary_round_aux prec emax s m (e + 1) l = bump (binary_round_aux prec emax s m e l).
Proof.
  intros He. unfold binary_round_aux.
  rewrite shr_fexp_shift by exact He.
  pose proof (shr_fexp_exponent m e l) as He'.
  destruct (shr_fexp prec emax m e l) as [mrs' e']. cbn [fst snd] in *.
  rewrite shr_fexp_shift by lia.
  destruct (shr_fexp prec emax _ e' loc_Exact) as [mrs'' e'']. cbn [fst snd].
  destruct (shr_m mrs''); cbn [bump]; try reflexivity.
  destruct (e'' <=? emax - prec) eqn:H1; cbn [bump];
    destruct (e'' + 1 <=? emax - prec) eqn:H2; try reflexivity.
  apply Z.leb_le in H2. apply Z.leb_gt in H1. lia.
Qed.

Lemma round_aux_exponent (s s' : bool) (m e : Z) (l : location) (m' : positive) (e' : Z) :
  binary_round_aux prec emax s m e l = S754_finite s' m' e' -> e <= e'.
Proof.
  unfold binary_round_aux.
  pose proof (shr_fexp_exponent m e l) as H1.
  destruct (shr_fexp prec emax m e l) as [mrs1 e1]. cbn [snd] in H1.
  match goal with |- context [shr_fexp prec emax ?x e1 loc_Exact] =>
    pose proof (shr_fexp_exponent x e1 loc_Exact) as H2;
    destruct (shr_fexp prec emax x e1 loc_Exact) as [mrs2 e2] end.
  cbn [snd] in H2.
  destruct (shr_m mrs2); try discriminate.
  destruct (e2 <=? emax - prec); [|discriminate].
  intros H. injection H as _ _ <-. lia.
Qed.

(** Rounding twice a mantissa is rounding the mantissa one exponent
    higher. *)
Lemma round_aux_twice (s : bool) (p : positive) (e : Z) :
  0 < fexp prec emax (Z.pos (digits2_pos p) + (e + 1)) - e ->
  binary_round_aux prec emax s (Z.pos p~0) e loc_Exact
  = binary_round_aux prec emax s (Z.pos p) (e + 1) loc_Exact.
Proof.
  set (E := fexp prec emax (Z.pos (digits2_pos p) + (e + 1))). intros HE.
  unfold binary_round_aux. unfold shr_fexp at 1 3.
  cbn [Zdigits2 digits2_pos]. rewrite Pos2Z.inj_succ.
  replace (Z.succ (Z.pos (digits2_pos p)) + e)
    with (Z.pos (digits2_pos p) + (e + 1)) by lia.
  fold E.
  destruct (E - e) as [|k|k] eqn:Hk; try lia.
  replace (E - (e + 1)) with (Z.pos k - 1) by lia.
  assert (Hshr : shr (shr_record_of_loc (Z.pos p~0) loc_Exact) e (Z.pos k)
                 = shr (shr_record_of_loc (Z.pos p) loc_Exact) (e + 1) (Z.pos k - 1)).
  { unfold shr. destruct (Pos.eq_dec k 1) as [->|Hne].
    - cbn. f_equal.
    - replace (Z.pos k - 1) with (Z.pos (Pos.pred k)) by lia.
      replace k with (Pos.succ (Pos.pred k)) at 1 by (apply Pos.succ_pred; exact Hne).
      rewrite iter_pos_succ. cbn [shr_record_of_loc shr_1 orb].
      f_equal. lia. }
  rewrite Hshr. reflexivity.
Qed.

Lemma binary_round_twice (s : bool) (p : positive) (e : Z) :
  binary_round prec emax s (p~0) e = binary_round prec emax s p (e + 1).
Proof.
  unfold binary_round. cbn [digits2_pos].
  rewrite Pos2Z.inj_succ.
  replace (Z.succ (Z.pos (digits2_pos p)) + e)
    with (Z.pos (digits2_pos p) + (e + 1)) by lia.
  pose proof (@round_aux_twice s p e) as Haux.
  set (E := fexp prec emax (Z.pos (digits2_pos p) + (e + 1))) in *.
  unfold shl_align.
  destruct (E - e) as [|k|k] eqn:Hk.
  - assert (HE : E - (e + 1) = Z.neg 1) by lia.
    assert (HE' : E = e) by lia.
    rewrite HE, HE'. reflexivity.
  - rewrite Haux by lia.
    destruct (E - (e + 1)) eqn:HE; try reflexivity; lia.
  - replace (E - (e + 1)) with (Z.neg (Pos.succ k)) by lia.
    now rewrite Pos.iter_succ_r.
Qed.

Lemma binary_round_shift (s : bool) (p : positive) (e : Z) :
  0 <= e -> binary_round prec emax s p (e + 1) = bump (binary_round prec emax s p e).
Proof.
  intros He. unfold binary_round.
  rewrite !fexp_linear by lia.
  unfold shl_align.
  replace (Z.pos (digits2_pos p) + (e + 1) - 53 - (e + 1))
    with (Z.pos (digits2_pos p) + e - 53 - e) by lia.
  destruct (Z.pos (digits2_pos p) + e - 53 - e) eqn:Hd.
  - now apply round_aux_shift; lia.
  - now apply round_aux_shift; lia.
  - replace (Z.pos (digits2_pos p) + (e + 1) - 53)
      with (Z.pos (digits2_pos p) + e - 53 + 1) by lia.
    apply round_aux_shift. lia.
Qed.

(** The double of an integer, rounded. *)
Lemma binary_round_double (p : positive) :
  binary_round prec emax false (p~0) 0 = bump (binary_round prec emax false p 0).
Proof.
  rewrite binary_round_twice. now apply binary_round_shift.
Qed.

Lemma binary_round_exponent (s s' : bool) (p m : positive) (e : Z) :
  binary_round prec emax s p 0 = S754_finite s' m e -> -52 <= e.
Proof.
  unfold binary_round. rewrite fexp_linear by lia. unfold shl_align.
  destruct (Z.pos (digits2_pos p) + 0 - 53 - 0) eqn:Hd; intros H;
    apply round_aux_exponent in H; lia.
Qed.

(** A canonical mantissa above the subnormal range has 53 digits, and
    rounds to itself. *)
Lemma canonical_digits (s : bool) (m : positive) (e : Z) :
  valid_binary (S754_finite s m e) = true -> -52 <= e ->
  Z.pos (digits2_pos m) = 53 /\ e <= 971.
Proof.
  cbn [valid_binary]. unfold bounded, canonical_mantissa. intros H He.
  apply andb_true_iff in H as [Hc Hb].
  apply Z.eqb_eq in Hc. apply Z.leb_le in Hb.
  rewrite fexp_linear in Hc by lia. unfold emax, prec in Hb. lia.
Qed.

Lemma round_aux_canonical (s : bool) (m : positive) (e : Z) :
  Z.pos (digits2_pos m) = 53 -> -52 <= e -> e <= 971 ->
  binary_round_aux prec emax s (Z.pos m) e loc_Exact = S754_finite s m e.
Proof.
  intros Hd He Hb. unfold binary_round_aux, shr_fexp.
  cbn [Zdigits2]. rewrite Hd, fexp_linear by lia.
  replace (53 + e - 53 - e) with 0 by lia.
  cbn [shr shr_record_of_loc shr_m loc_of_shr_record round_nearest_even Zdigits2].
  rewrite Hd, fexp_linear by lia.
  replace (53 + e - 53 - e) with 0 by lia. cbn [shr shr_m].
  replace (e <=? emax - prec) with true; [reflexivity|].
  symmetry. apply Z.leb_le. unfold emax, prec. lia.
Qed.

(** Twice a normal number. *)
Lemma SFmul_two (s : bool) (m : positive) (e : Z) :
  valid_binary (S754_finite s m e) = true -> -52 <= e ->
  SFmul prec emax (Prim2SF 2) (S754_finite s m e) = bump (S754_finite s m e).
Proof.
  intros Hv He. destruct (@canonical_digits s m e Hv He) as [Hd Hb].
  change (Prim2SF 2) with (S754_finite false 4503599627370496 (-51)).
  cbn [SFmul xorb Pos.mul].
  assert (Hd' : digits2_pos m = 53%positive) by lia.
  do 52 (rewrite round_aux_twice
          by (cbn [digits2_pos]; rewrite Hd'; cbn [Pos.succ];
              rewrite fexp_linear by lia; lia)).
  replace (-51 + e + 1 + 1 + 1 + 1 + 1 + 1 + 1 + 1 + 1 + 1 + 1 + 1 + 1 + 1
           + 1 + 1 + 1 + 1 + 1 + 1 + 1 + 1 + 1 + 1 + 1 + 1 + 1 + 1 + 1 + 1
           + 1 + 1 + 1 + 1 + 1 + 1 + 1 + 1 + 1 + 1 + 1 + 1 + 1 + 1 + 1 + 1
           + 1 + 1 + 1 + 1 + 1 + 1) with (e + 1) by lia.
  rewrite round_aux_shift by lia.
  now rewrite round_aux_canonical.
Qed.

(** A finite number divided by itself. *)
Lemma SFdiv_self (s : bool) (m : positive) (e : Z) :
  SFdiv prec emax (S754_finite s m e) (S754_finite s m e) = Prim2SF 1.
Proof.
  cbn [SFdiv]. unfold SFdiv_core_binary.
  replace (Zdigits2 (Z.pos m) + e - (Zdigits2 (Z.pos m) + e)) with 0 by lia.
  replace (e - e) with 0 by lia.
  change (Z.min (fexp prec emax 0) 0) with (-53).
  change (0 - -53) with 53.
  assert (Hq : Z.div_eucl (Z.shiftl (Z.pos m) 53) (Z.pos m) = (9007199254740992, 0)).
  { rewrite Z.shiftl_mul_pow2 by lia.
    assert (Hdm : forall a b, Z.div_eucl a b = (a / b, a mod b)).
    { intros a b. unfold Z.div, Z.modulo. now destruct (Z.div_eucl a b). }
    rewrite Hdm, Z.mul_comm, Z.div_mul, Z.mod_mul by lia. reflexivity. }
  cbv beta iota.
  change (IntDef.Z.div_eucl (IntDef.Z.shiftl (Z.pos m) 53) (Z.pos m))
    with (Z.div_eucl (Z.shiftl (Z.pos m) 53) (Z.pos m)).
  rewrite Hq.
  replace (new_location (Z.pos m) 0) with loc_Exact
    by (unfold new_location; destruct (Z.even (Z.pos m)); reflexivity).
  destruct s; reflexivity.
Qed.

(** Bounds on the exponent a rounding returns. *)
Lemma shr_fexp_snd (m e : Z) (l : location) :
  snd (shr_fexp prec emax m e l) = Z.max e (fexp prec emax (Zdigits2 m + e)).
Proof.
  unfold shr_fexp, shr.
  destruct (fexp prec emax (Zdigits2 m + e) - e) eqn:H; cbn [snd]; lia.
Qed.

Lemma shr_1_bounds (mrs : shr_record) :
  0 <= shr_m mrs -> 0 <= shr_m (shr_1 mrs) <= shr_m mrs.
Proof.
  destruct mrs as [m r s]. cbn [shr_m]. intros H.
  destruct m as [|p|p]; [cbn; lia| |lia].
  destruct p; cbn [shr_1 shr_m]; lia.
Qed.

Lemma shr_bounds (mrs : shr_record) (e n : Z) :
  0 <= shr_m mrs -> 0 <= shr_m (fst (shr mrs e n)) <= shr_m mrs.
Proof.
  intros H. unfold shr. destruct n as [|k|k]; cbn [fst]; try lia.
  rewrite iter_pos_nat.
  induction (Pos.to_nat k) as [|j IH]; simpl; [lia|].
  pose proof (shr_1_bounds (Nat.iter j shr_1 mrs)). lia.
Qed.

Lemma round_nearest_even_bounds (m : Z) (l : location) :
  m <= round_nearest_even m l <= m + 1.
Proof.
  unfold round_nearest_even. destruct l as [|[]]; try destruct (Z.even m); lia.
Qed.

Lemma Zdigits2_log2 (p : positive) :
  Zdigits2 (Z.pos p) = Z.succ (Z.log2 (Z.pos p)).
Proof.
  cbn [Zdigits2]. rewrite digits2_size.
  destruct p; cbn [Pos.size Z.log2]; lia.
Qed.

Lemma Zdigits2_le (m k : Z) : 0 <= m < 2 ^ k -> 0 <= k -> Zdigits2 m <= k.
Proof.
  intros Hm Hk. destruct m as [|p|p]; [cbn; lia| |lia].
  rewrite Zdigits2_log2.
  assert (Z.log2 (Z.pos p) < k) by (apply Z.log2_lt_pow2; lia). lia.
Qed.

Lemma Zdigits2_gt (m : Z) : 0 <= m -> m < 2 ^ Zdigits2 m.
Proof.
  intros Hm. destruct m as [|p|p]; [cbn; lia| |lia].
  rewrite Zdigits2_log2.
  apply Z.log2_spec. lia.
Qed.

Lemma round_aux_exponent_ub (s s' : bool) (mz ez : Z) (l : location)
      (m : positive) (e : Z) :
  binary_round_aux prec emax s mz ez l = S754_finite s' m e ->
  0 <= mz -> Zdigits2 mz <= 200 -> ez <= 0 -> e <= 970.
Proof.
  intros H Hmz Hd Hez. unfold binary_round_aux in H.
  pose proof (shr_fexp_snd mz ez l) as H1.
  assert (Hm1 : 0 <= shr_m (fst (shr_fexp prec emax mz ez l)) <= mz).
  { unfold shr_fexp.
    pose proof (@shr_bounds (shr_record_of_loc mz l) ez
                  (fexp prec emax (Zdigits2 mz + ez) - ez)) as Hb.
    assert (Hrec : shr_m (shr_record_of_loc mz l) = mz)
      by (destruct l as [|[]]; reflexivity).
    rewrite Hrec in Hb. now apply Hb. }
  destruct (shr_fexp prec emax mz ez l) as [mrs1 e1]. cbn [fst snd] in *.
  pose proof (round_nearest_even_bounds (shr_m mrs1) (loc_of_shr_record mrs1)) as Hr.
  set (m1 := round_nearest_even (shr_m mrs1) (loc_of_shr_record mrs1)) in *.
  pose proof (shr_fexp_snd m1 e1 loc_Exact) as H2.
  destruct (shr_fexp prec emax m1 e1 loc_Exact) as [mrs2 e2]. cbn [snd] in H2.
  destruct (shr_m mrs2); try discriminate H.
  destruct (e2 <=? emax - prec); [|discriminate H].
  injection H as _ _ <-.
  pose proof (Zdigits2_gt Hmz) as Hgt.
  assert (Hpow : 2 ^ Zdigits2 mz <= 2 ^ 200) by (apply Z.pow_le_mono_r; lia).
  assert (Hd1 : Zdigits2 m1 <= 201).
  { apply Zdigits2_le; [|lia].
    replace (2 ^ 201) with (2 * 2 ^ 200) by reflexivity. lia. }
  pose proof (Zdigits2_nonneg mz). pose proof (Zdigits2_nonneg m1).
  unfold fexp, emin, emax, prec in *. lia.
Qed.

Lemma digits2_iter_xO (p k : positive) :
  digits2_pos (Pos.iter xO p k) = (digits2_pos p + k)%positive.
Proof.
  induction k as [|k IH] using Pos.peano_ind.
  - cbn. lia.
  - rewrite Pos.iter_succ. cbn [digits2_pos]. rewrite IH. lia.
Qed.

Lemma binary_round_exponent_ub (s s' : bool) (p m : positive) (e : Z) :
  binary_round prec emax s p 0 = S754_finite s' m e ->
  Z.pos p < 2 ^ 62 -> e <= 970.
Proof.
  intros H Hp.
  assert (Hd : Zdigits2 (Z.pos p) <= 62) by (apply Zdigits2_le; lia).
  cbn [Zdigits2] in Hd.
  unfold binary_round in H. rewrite fexp_linear in H by lia.
  unfold shl_align in H.
  destruct (Z.pos (digits2_pos p) + 0 - 53 - 0) as [|k|k] eqn:Hk.
  - eapply round_aux_exponent_ub; [exact H|lia|cbn [Zdigits2]; lia|lia].
  - eapply round_aux_exponent_ub; [exact H|lia|cbn [Zdigits2]; lia|lia].
  - eapply round_aux_exponent_ub; [exact H|lia| |lia].
    cbn [Zdigits2]. rewrite digits2_iter_xO. lia.
Qed.

(** A shift to the right halves the mantissa, and a positive mantissa
    keeps its leading digits when it is rounded to 53 of them. *)
Lemma shr_1_half (mrs : shr_record) :
  0 <= shr_m mrs -> shr_m (shr_1 mrs) = shr_m mrs / 2.
Proof.
  destruct mrs as [m r s]. cbn [shr_m]. intros H.
  destruct m as [|p|p]; [reflexivity| |lia].
  destruct p; cbn [shr_1 shr_m]; Z.to_euclidean_division_equations; lia.
Qed.

Lemma shr_m_iter (mrs : shr_record) (j : nat) :
  0 <= shr_m mrs ->
  shr_m (Nat.iter j shr_1 mrs) = shr_m mrs / 2 ^ Z.of_nat j.
Proof.
  intros H. induction j as [|j IH].
  { change (Nat.iter 0 shr_1 mrs) with mrs. change (2 ^ Z.of_nat 0) with 1.
    now rewrite Z.div_1_r. }
  rewrite Nat2Z.inj_succ, Z.pow_succ_r by lia.
  change (Nat.iter (S j) shr_1 mrs) with (shr_1 (Nat.iter j shr_1 mrs)).
  rewrite shr_1_half.
  - rewrite IH, Z.div_div by lia. f_equal. lia.
  - rewrite IH. apply Z.div_pos; lia.
Qed.

Lemma shr_m_div (mrs : shr_record) (e : Z) (k : positive) :
  0 <= shr_m mrs ->
  shr_m (fst (shr mrs e (Z.pos k))) = shr_m mrs / 2 ^ Z.pos k.
Proof.
  intros H. cbn [shr fst].
  now rewrite iter_pos_nat, shr_m_iter, positive_nat_Z.
Qed.

Lemma shr_fexp_positive (m e : Z) (l : location) :
  0 < m -> -1021 <= e -> 0 < shr_m (fst (shr_fexp prec emax m e l)).
Proof.
  intros Hm He. unfold shr_fexp.
  pose proof (Zdigits2_nonneg m) as Hd0.
  rewrite fexp_linear by lia.
  assert (Hrec : shr_m (shr_record_of_loc m l) = m)
    by (destruct l as [|[]]; reflexivity).
  destruct (Zdigits2 m + e - 53 - e) as [|k|k] eqn:Hk.
  - cbn [shr fst]. lia.
  - rewrite shr_m_div, Hrec by lia.
    destruct m as [|p|p]; try lia.
    rewrite Zdigits2_log2 in Hk.
    pose proof (Z.log2_spec (Z.pos p) ltac:(lia)) as [Hlo _].
    pose proof (Z.log2_nonneg (Z.pos p)).
    assert (Hle : 2 ^ Z.pos k <= 2 ^ Z.log2 (Z.pos p))
      by (apply Z.pow_le_mono_r; lia).
    assert (1 <= Z.pos p / 2 ^ Z.pos k); [|lia].
    apply Z.div_le_lower_bound; lia.
  - cbn [shr fst]. lia.
Qed.

Lemma round_aux_finite (s : bool) (mz ez : Z) (l : location) :
  0 < mz -> Zdigits2 mz <= 200 -> -1000 <= ez <= 0 ->
  exists m e, binary_round_aux prec emax s mz ez l = S754_finite s m e.
Proof.
  intros Hmz Hd Hez. unfold binary_round_aux.
  pose proof (shr_fexp_snd mz ez l) as H1.
  pose proof (@shr_fexp_positive mz ez l Hmz ltac:(lia)) as Hp1.
  pose proof (shr_fexp_exponent mz ez l) as Hlo1.
  assert (Hm1 : shr_m (fst (shr_fexp prec emax mz ez l)) <= mz).
  { unfold shr_fexp.
    pose proof (@shr_bounds (shr_record_of_loc mz l) ez
                  (fexp prec emax (Zdigits2 mz + ez) - ez)) as Hb.
    assert (Hrec : shr_m (shr_record_of_loc mz l) = mz)
      by (destruct l as [|[]]; reflexivity).
    rewrite Hrec in Hb. apply Hb. lia. }
  destruct (shr_fexp prec emax mz ez l) as [mrs1 e1]. cbn [fst snd] in *.
  pose proof (round_nearest_even_bounds (shr_m mrs1) (loc_of_shr_record mrs1)) as Hr.
  set (m1 := round_nearest_even (shr_m mrs1) (loc_of_shr_record mrs1)) in *.
  pose proof (shr_fexp_snd m1 e1 loc_Exact) as H2.
  pose proof (@shr_fexp_positive m1 e1 loc_Exact ltac:(lia) ltac:(lia)) as Hp2.
  destruct (shr_fexp prec emax m1 e1 loc_Exact) as [mrs2 e2]. cbn [fst snd] in *.
  pose proof (@Zdigits2_gt mz ltac:(lia)) as Hgt.
  assert (Hpow : 2 ^ Zdigits2 mz <= 2 ^ 200) by (apply Z.pow_le_mono_r; lia).
  assert (Hd1 : Zdigits2 m1 <= 201).
  { apply Zdigits2_le; [|lia].
    replace (2 ^ 201) with (2 * 2 ^ 200) by reflexivity. lia. }
  pose proof (Zdigits2_nonneg mz). pose proof (Zdigits2_nonneg m1).
  destruct (shr_m mrs2) as [|m|m]; try lia.
  replace (e2 <=? emax - prec) with true; [now exists m, e2|].
  symmetry. apply Z.leb_le. unfold fexp, emin, emax, prec in *. lia.
Qed.

(** An integer below [2^62] rounds to a finite number, whose double is
    finite too. *)
Lemma binary_round_finite (s : bool) (p : positive) :
  Z.pos p < 2 ^ 62 ->
  exists m e, binary_round prec emax s p 0 = S754_finite s m e
              /\ -52 <= e <= 970.
Proof.
  intros Hp.
  assert (Hd : Zdigits2 (Z.pos p) <= 62) by (apply Zdigits2_le; lia).
  cbn [Zdigits2] in Hd.
  assert (Hfin : exists m e, binary_round prec emax s p 0 = S754_finite s m e).
  { unfold binary_round. rewrite fexp_linear by lia. unfold shl_align.
    destruct (Z.pos (digits2_pos p) + 0 - 53 - 0) as [|k|k] eqn:Hk.
    - apply round_aux_finite; cbn [Zdigits2]; lia.
    - apply round_aux_finite; cbn [Zdigits2]; lia.
    - apply round_aux_finite; cbn [Zdigits2]; try lia.
      rewrite digits2_iter_xO. lia. }
  destruct Hfin as (m & e & H). exists m, e. split; [exact H|]. split.
  - eapply binary_round_exponent; exact H.
  - eapply binary_round_exponent_ub; [exact H|exact Hp].
Qed.

Local Close Scope Z_scope.

(** ** The ratio of a sequence with itself *)

Lemma float_of_nat_spec (n : nat) :
  (Z.of_nat n < 2 ^ 63)%Z ->
  Prim2SF (float_of_nat n) = binary_normalize prec emax (Z.of_nat n) 0 false.
Proof.
  intros H. unfold float_of_nat.
  rewrite of_uint63_spec, Uint63.of_Z_spec, Z.mod_small; [reflexivity|].
  change Uint63.wB with (2 ^ 63)%Z. lia.
Qed.

(** [2.0 * n / (n + n)] is 1.0. *)
Lemma calculate_ratio_self (n : nat) :
  0 < n -> (Z.of_nat n < 2 ^ 62)%Z -> calculate_ratio n (n + n) = 1%float.
Proof.
  intros Hn Hb. unfold calculate_ratio.
  replace (n + n =? 0) with false by (symmetry; apply Nat.eqb_neq; lia).
  destruct (Z.of_nat n) as [|p|p] eqn:Hp; try lia.
  assert (Hp2 : Z.of_nat (n + n) = Z.pos p~0) by lia.
  pose proof (@float_of_nat_spec n ltac:(lia)) as Hx.
  pose proof (@float_of_nat_spec (n + n) ltac:(lia)) as Hy.
  rewrite Hp in Hx. rewrite Hp2 in Hy. cbn [binary_normalize] in Hx, Hy.
  rewrite binary_round_double in Hy.
  destruct (@binary_round_finite false p Hb) as (m & e & Hr & He1 & He2).
  rewrite Hr in Hx, Hy. cbn [bump] in Hy.
  replace (e + 1 <=? emax - prec)%Z with true in Hy
    by (symmetry; apply Z.leb_le; unfold emax, prec; lia).
  assert (Hv : valid_binary (S754_finite false m e) = true)
    by (rewrite <- Hx; apply Prim2SF_valid).
  assert (H2x : (2 * float_of_nat n)%float = float_of_nat (n + n)).
  { apply Prim2SF_inj. rewrite mul_spec, Hx, Hy.
    unfold SF64mul. rewrite SFmul_two by assumption. cbn [bump].
    replace (e + 1 <=? emax - prec)%Z with true
      by (symmetry; apply Z.leb_le; unfold emax, prec; lia).
    reflexivity. }
  rewrite H2x. apply Prim2SF_inj.
  rewrite div_spec, Hy. unfold SF64div. apply SFdiv_self.
Qed.

(** ** The matcher: blocks stay in their window, and the fuel suffices *)

Section Window.
Variables a b : pystr.
Variables alo ahi blo bhi : nat.

Lemma prev_len_bounded (i : nat) (m : lenmap) (j : nat) :
  row_bounded alo blo i m -> blo <= j ->
  prev_len m j <= i - alo /\ prev_len m j <= j - blo.
Proof.
  intros H Hj. destruct j as [|j]; cbn [prev_len]; [lia|].
  destruct (H j). lia.
Qed.

Lemma scan_row_window (i : nat) (m : lenmap) (js : list nat)
      (new : lenmap) (best : block) :
  alo <= i -> i < ahi -> row_bounded alo blo i m ->
  row_bounded alo blo (S i) new -> in_window alo ahi blo bhi best ->
  row_bounded alo blo (S i) (fst (scan_row blo bhi i m js new best))
  /\ in_window alo ahi blo bhi (snd (scan_row blo bhi i m js new best)).
Proof.
  intros Hlo Hhi Hm. revert new best.
  induction js as [|j js IH]; intros new best Hnew Hbest; cbn [scan_row].
  - now split.
  - destruct (j <? blo) eqn:Hj1; [now apply IH|].
    destruct (bhi <=? j) eqn:Hj2; [now split|].
    apply Nat.ltb_ge in Hj1. apply Nat.leb_gt in Hj2.
    destruct (@prev_len_bounded i m j Hm Hj1) as [Hk1 Hk2].
    apply IH.
    + intros j0. cbn [j2len_get]. destruct (j =? j0) eqn:E.
      * apply Nat.eqb_eq in E. subst j0. lia.
      * apply Hnew.
    + destruct best as [[bi bj] bs].
      destruct (bs <? prev_len m j + 1); [|exact Hbest].
      cbn [in_window]. lia.
Qed.

Lemma scan_rows_window (len i : nat) (m : lenmap) (best : block) :
  alo <= i -> i + len <= ahi -> row_bounded alo blo i m ->
  in_window alo ahi blo bhi best ->
  in_window alo ahi blo bhi (scan_rows a b blo bhi (seq i len) m best).
Proof.
  revert i m best. induction len as [|len IH]; intros i m best Hlo Hhi Hm Hbest;
    cbn [seq scan_rows]; [exact Hbest|].
  assert (Hnil : row_bounded alo blo (S i) []) by (intros j; cbn; lia).
  destruct (@scan_row_window i m (b2j b (nth i a Ascii.zero)) [] best
              Hlo ltac:(lia) Hm Hnil Hbest) as [Hnew Hbest'].
  destruct (scan_row blo bhi i m (b2j b (nth i a Ascii.zero)) [] best)
    as [new best'].
  cbn [fst snd] in *. apply IH; try assumption; lia.
Qed.

Lemma extend_back_window (i j k : nat) :
  in_window alo ahi blo bhi (i, j, k) ->
  in_window alo ahi blo bhi (extend_back a b alo blo i j k).
Proof.
  revert j k. induction i as [|i IH]; intros j k H; cbn [extend_back];
    [exact H|].
  destruct j as [|j]; [exact H|].
  destruct ((alo <=? i) && (blo <=? j) && _) eqn:Hc; [|exact H].
  apply andb_true_iff in Hc as [Hc _]. apply andb_true_iff in Hc as [H1 H2].
  apply Nat.leb_le in H1, H2. apply IH. cbn [in_window] in *. lia.
Qed.

Lemma extend_fwd_window (i j fuel k : nat) :
  i + k + fuel <= ahi -> j + k <= bhi ->
  k <= extend_fwd a b bhi i j fuel k
  /\ i + extend_fwd a b bhi i j fuel k <= ahi
  /\ j + extend_fwd a b bhi i j fuel k <= bhi.
Proof.
  revert k. induction fuel as [|fuel IH]; intros k Hi Hj; cbn [extend_fwd];
    [lia|].
  destruct ((j + k <? bhi) && _) eqn:Hc; [|lia].
  apply andb_true_iff in Hc as [Hc _]. apply Nat.ltb_lt in Hc.
  destruct (IH (S k)) as (H1 & H2 & H3); lia.
Qed.

(** The block [find_longest_match] returns lies in its window. *)
Lemma find_longest_match_window :
  alo <= ahi -> blo <= bhi ->
  in_window alo ahi blo bhi (find_longest_match a b alo ahi blo bhi).
Proof.
  intros Ha Hb. unfold find_longest_match.
  assert (H0 : in_window alo ahi blo bhi
                 (scan_rows a b blo bhi (seq alo (ahi - alo)) [] (alo, blo, 0))).
  { apply scan_rows_window; try lia.
    - intros j. cbn. lia.
    - cbn. lia. }
  destruct (scan_rows a b blo bhi (seq alo (ahi - alo)) [] (alo, blo, 0))
    as [[i0 j0] k0].
  apply extend_back_window in H0.
  destruct (extend_back a b alo blo i0 j0 k0) as [[i1 j1] k1].
  cbn [in_window] in H0.
  destruct (@extend_fwd_window i1 j1 (ahi - (i1 + k1)) k1) as (H1 & H2 & H3);
    try lia.
  cbn [in_window]. lia.
Qed.
End Window.

(** With fuel for the weight of the work list, more fuel changes
    nothing: the loop of [get_matching_blocks] ends with its list
    empty. *)
Lemma matching_blocks_fuel (a b : pystr) (fuel extra : nat)
      (queue : list (nat * nat * nat * nat)) (found : list block) :
  queue_ok queue -> queue_weight queue <= fuel ->
  matching_blocks (fuel + extra) a b queue found
  = matching_blocks fuel a b queue found.
Proof.
  revert queue found. induction fuel as [|fuel IH]; intros queue found Hok Hw.
  - destruct queue as [|[[[alo ahi] blo] bhi] q]; [|cbn in Hw; lia].
    destruct extra; reflexivity.
  - destruct queue as [|[[[alo ahi] blo] bhi] q]; [reflexivity|].
    cbn [Nat.add matching_blocks].
    inversion Hok as [|? ? Hab Hq]; subst. cbn in Hab. destruct Hab as [Ha Hb].
    pose proof (@find_longest_match_window a b alo ahi blo bhi Ha Hb) as Hwin.
    destruct (find_longest_match a b alo ahi blo bhi) as [[i j] k].
    cbn [in_window] in Hwin. cbn [queue_weight] in Hw.
    destruct (k =? 0) eqn:Hk; [apply IH; [exact Hq|lia]|].
    apply Nat.eqb_neq in Hk.
    apply IH.
    + destruct ((alo <? i) && (blo <? j)), ((i + k <? ahi) && (j + k <? bhi));
        repeat (apply Forall_cons; [cbn; lia|]); exact Hq.
    + destruct ((alo <? i) && (blo <? j)), ((i + k <? ahi) && (j + k <? bhi));
        cbn [queue_weight]; lia.
Qed.

(** [get_matching_blocks] does not depend on its fuel. *)
Lemma get_matching_blocks_fuel (a b : pystr) (extra : nat) :
  matching_blocks (S (length a + length b) + extra) a b
    [(0, length a, 0, length b)] []
  = get_matching_blocks a b.
Proof.
  unfold get_matching_blocks. apply matching_blocks_fuel.
  - apply Forall_cons; [cbn; lia|constructor].
  - cbn [queue_weight]. lia.
Qed.

(** ** The matcher on a sequence and itself *)

Lemma indices_from_filter (c : ascii) (b : pystr) (off : nat) :
  indices_from c b off
  = filter (fun j => char_eqb (nth (j - off) b Ascii.zero) c) (seq off (length b)).
Proof.
  revert off. induction b as [|a b IH]; intros off; [reflexivity|].
  cbn [indices_from length seq filter]. rewrite Nat.sub_diag. cbn [nth].
  rewrite IH.
  assert (Hf : filter (fun j => char_eqb (nth (j - S off) b Ascii.zero) c)
                 (seq (S off) (length b))
               = filter (fun j => char_eqb (nth (j - off) (a :: b) Ascii.zero) c)
                   (seq (S off) (length b))).
  { apply filter_ext_in. intros j Hj. apply in_seq in Hj.
    replace (j - off) with (S (j - S off)) by lia. reflexivity. }
  rewrite Hf. now destruct (char_eqb a c).
Qed.

Section SelfMatch.
Variable x : pystr.

Lemma run_len_eq (i : nat) :
  run_len x i
  = if popular x (nth i x Ascii.zero) then 0 else S (run_before x i).
Proof. destruct i; reflexivity. Qed.

Lemma run_len_le (i : nat) : run_len x i <= S i.
Proof.
  induction i as [|i IH]; cbn [run_len];
    destruct (popular x _); lia.
Qed.

Lemma prev_row_start : prev_row x 0 [].
Proof. repeat split; intros; destruct j; cbn; lia. Qed.

Lemma new_row_next (i : nat) (m : lenmap) :
  new_row x i m -> j2len_get m i = run_len x i -> prev_row x (S i) m.
Proof.
  intros [H1 H2] H3. repeat split.
  - intros [|j]; cbn [prev_len run_before]; [lia|apply H1].
  - intros [|j]; cbn [prev_len run_before]; [lia|apply H2].
  - exact H3.
Qed.

(** Positions of the row other than the diagonal one: every length
    they hold is bounded by a run already counted in [bestsize], so the
    best block stays. *)
Lemma scan_skip (i : nat) (m : lenmap) (bi bj bs : nat)
      (js rest : list nat) (new : lenmap) :
  popular x (nth i x Ascii.zero) = false ->
  prev_row x i m -> new_row x i new ->
  Forall (fun j => j <> i /\ j < length x
                   /\ nth j x Ascii.zero = nth i x Ascii.zero
                   /\ (run_len x j <= bs \/ run_len x i <= bs)) js ->
  exists new',
    scan_row 0 (length x) i m (js ++ rest) new (bi, bj, bs)
    = scan_row 0 (length x) i m rest new' (bi, bj, bs)
    /\ new_row x i new' /\ j2len_get new' i = j2len_get new i.
Proof.
  intros Hpop Hprev. revert new.
  induction js as [|j js IH]; intros new Hnew Hjs.
  - exists new. auto.
  - inversion Hjs as [|? ? (Hne & Hlt & Hch & Hb) Hjs']; subst.
    destruct Hprev as (P1 & P2 & P3). destruct Hnew as (N1 & N2).
    assert (Hrj : run_len x j = S (run_before x j))
      by (rewrite run_len_eq, Hch, Hpop; reflexivity).
    assert (Hri : run_len x i = S (run_before x i))
      by (rewrite run_len_eq, Hpop; reflexivity).
    pose proof (P1 j) as Hk1. pose proof (P2 j) as Hk2.
    cbn [app scan_row].
    replace (j <? 0) with false by reflexivity.
    replace (length x <=? j) with false by (symmetry; apply Nat.leb_gt; lia).
    replace (bs <? prev_len m j + 1) with false
      by (symmetry; apply Nat.ltb_ge; lia).
    destruct (IH ((j, prev_len m j + 1) :: new)) as (new' & Hs & Hn & Hg).
    + split; intros j0; cbn [j2len_get]; destruct (j =? j0) eqn:Hj.
      * apply Nat.eqb_eq in Hj. subst j0. lia.
      * apply N1.
      * lia.
      * apply N2.
    + exact Hjs'.
    + exists new'. split; [exact Hs|]. split; [exact Hn|].
      rewrite Hg. cbn [j2len_get].
      now replace (j =? i) with false by (symmetry; apply Nat.eqb_neq; lia).
Qed.

(** The diagonal position: the length it holds is the run ending
    there; if it is a new best, the block lies on the diagonal. *)
Lemma scan_diag (i : nat) (m : lenmap) (b bs : nat)
      (rest : list nat) (new : lenmap) :
  popular x (nth i x Ascii.zero) = false -> i < length x ->
  prev_row x i m -> new_row x i new -> b + bs <= i ->
  exists new' b' bs',
    scan_row 0 (length x) i m (i :: rest) new (b, b, bs)
    = scan_row 0 (length x) i m rest new' (b', b', bs')
    /\ new_row x i new' /\ j2len_get new' i = run_len x i
    /\ b' + bs' <= S i /\ bs <= bs' /\ run_len x i <= bs'.
Proof.
  intros Hpop Hlt (P1 & P2 & P3) (N1 & N2) Hb.
  assert (Hri : run_len x i = S (run_before x i))
    by (rewrite run_len_eq, Hpop; reflexivity).
  pose proof (run_len_le i) as Hle.
  cbn [scan_row].
  replace (i <? 0) with false by reflexivity.
  replace (length x <=? i) with false by (symmetry; apply Nat.leb_gt; lia).
  rewrite P3.
  assert (Hnew : new_row x i ((i, run_before x i + 1) :: new)).
  { split; intros j0; cbn [j2len_get]; destruct (i =? j0) eqn:Hj.
    - apply Nat.eqb_eq in Hj. subst j0. lia.
    - apply N1.
    - lia.
    - apply N2. }
  assert (Hget : j2len_get ((i, run_before x i + 1) :: new) i = run_len x i).
  { cbn [j2len_get]. rewrite Nat.eqb_refl. lia. }
  destruct (bs <? run_before x i + 1) eqn:Hc.
  - apply Nat.ltb_lt in Hc.
    exists ((i, run_before x i + 1) :: new), (i + 1 - (run_before x i + 1)),
      (run_before x i + 1).
    repeat split; try assumption; try apply Hnew; lia.
  - apply Nat.ltb_ge in Hc.
    exists ((i, run_before x i + 1) :: new), b, bs.
    repeat split; try assumption; try apply Hnew; lia.
Qed.

(** One row of the scan. *)
Lemma scan_row_self (i : nat) (m : lenmap) (b bs : nat) :
  i < length x -> prev_row x i m -> b + bs <= i ->
  (forall j, j < i -> run_len x j <= bs) ->
  exists new b' bs',
    scan_row 0 (length x) i m (b2j x (nth i x Ascii.zero)) [] (b, b, bs)
    = (new, (b', b', bs'))
    /\ prev_row x (S i) new /\ b' + bs' <= S i
    /\ (forall j, j < S i -> run_len x j <= bs').
Proof.
  intros Hlt Hprev Hb Hruns. unfold b2j.
  destruct (popular x (nth i x Ascii.zero)) eqn:Hpop.
  - exists [], b, bs. cbn [scan_row].
    assert (Hr0 : run_len x i = 0) by (rewrite run_len_eq, Hpop; reflexivity).
    repeat split.
    + intros [|j]; cbn; lia.
    + intros [|j]; cbn; lia.
    + cbn [prev_len run_before j2len_get]. now rewrite Hr0.
    + lia.
    + intros j Hj. destruct (Nat.eq_dec j i) as [->|Hne]; [lia|].
      apply Hruns. lia.
  - rewrite indices_from_filter.
    set (f := fun j => char_eqb (nth (j - 0) x Ascii.zero) (nth i x Ascii.zero)).
    assert (Hseq : seq 0 (length x) = seq 0 i ++ i :: seq (S i) (length x - S i)).
    { replace (length x) with (i + S (length x - S i)) at 1 by lia.
      rewrite seq_app. reflexivity. }
    assert (Hfi : f i = true)
      by (unfold f; rewrite Nat.sub_0_r; apply char_eqb_refl).
    rewrite Hseq, filter_app. cbn [filter]. rewrite Hfi.
    assert (Hf : forall j, f j = true -> nth j x Ascii.zero = nth i x Ascii.zero).
    { intros j Hj. unfold f in Hj. rewrite Nat.sub_0_r in Hj.
      now apply char_eqb_eq in Hj. }
    assert (Hnew0 : new_row x i []) by (split; intros j; cbn; lia).
    destruct (@scan_skip i m b b bs (filter f (seq 0 i))
                (i :: filter f (seq (S i) (length x - S i))) [] Hpop Hprev Hnew0)
      as (new1 & Hs1 & Hn1 & Hg1).
    { apply Forall_forall. intros j Hj. apply filter_In in Hj as [Hj Hfj].
      apply in_seq in Hj.
      split; [lia|]. split; [lia|]. split; [now apply Hf|].
      left. apply Hruns. lia. }
    rewrite Hs1.
    destruct (@scan_diag i m b bs (filter f (seq (S i) (length x - S i))) new1
                Hpop Hlt Hprev Hn1 Hb)
      as (new2 & b' & bs' & Hs2 & Hn2 & Hg2 & Hb' & Hbs & Hri).
    rewrite Hs2.
    destruct (@scan_skip i m b' b' bs' (filter f (seq (S i) (length x - S i)))
                [] new2 Hpop Hprev Hn2)
      as (new3 & Hs3 & Hn3 & Hg3).
    { apply Forall_forall. intros j Hj. apply filter_In in Hj as [Hj Hfj].
      apply in_seq in Hj.
      split; [lia|]. split; [lia|]. split; [now apply Hf|].
      now right. }
    rewrite app_nil_r in Hs3. rewrite Hs3. cbn [scan_row].
    exists new3, b', bs'. split; [reflexivity|]. split; [|split].
    + apply new_row_next; [exact Hn3|]. now rewrite Hg3.
    + exact Hb'.
    + intros j Hj. destruct (Nat.eq_dec j i) as [->|Hne]; [exact Hri|].
      pose proof (Hruns j ltac:(lia)). lia.
Qed.

(** All the rows: the best block lies on the diagonal. *)
Lemma scan_rows_self (len i : nat) (m : lenmap) (b bs : nat) :
  i + len = length x -> prev_row x i m -> b + bs <= i ->
  (forall j, j < i -> run_len x j <= bs) ->
  exists b' bs',
    scan_rows x x 0 (length x) (seq i len) m (b, b, bs) = (b', b', bs')
    /\ b' + bs' <= length x.
Proof.
  revert i m b bs. induction len as [|len IH]; intros i m b bs Hn Hprev Hb Hruns.
  - exists b, bs. cbn. split; [reflexivity|lia].
  - cbn [seq scan_rows].
    destruct (@scan_row_self i m b bs ltac:(lia) Hprev Hb Hruns)
      as (new & b' & bs' & Hs & Hp & Hb' & Hr).
    rewrite Hs. apply IH; try assumption. lia.
Qed.

Lemma extend_back_self (b s : nat) : extend_back x x 0 0 b b s = (0, 0, s + b).
Proof.
  revert s. induction b as [|b IH]; intros s; cbn [extend_back].
  - f_equal. lia.
  - rewrite char_eqb_refl. cbn [Nat.leb andb]. rewrite IH. f_equal. lia.
Qed.

Lemma extend_fwd_self (fuel s : nat) :
  s + fuel = length x -> extend_fwd x x (length x) 0 0 fuel s = length x.
Proof.
  revert s. induction fuel as [|fuel IH]; intros s H; cbn [extend_fwd]; [lia|].
  cbn [Nat.add]. rewrite char_eqb_refl.
  replace (s <? length x) with true by (symmetry; apply Nat.ltb_lt; lia).
  cbn [andb]. apply IH. lia.
Qed.

(** The longest match of a sequence with itself is the whole of it. *)
Lemma find_longest_match_self :
  find_longest_match x x 0 (length x) 0 (length x) = (0, 0, length x).
Proof.
  unfold find_longest_match. rewrite Nat.sub_0_r.
  destruct (@scan_rows_self (length x) 0 [] 0 0 eq_refl prev_row_start (le_n 0))
    as (b & s & Hs & Hb); [intros j Hj; lia|].
  rewrite Hs, extend_back_self. cbn [Nat.add].
  now rewrite extend_fwd_self by lia.
Qed.

Lemma get_matching_blocks_self :
  x <> [] -> get_matching_blocks x x = [(0, 0, length x)].
Proof.
  intros Hx. unfold get_matching_blocks. cbn [matching_blocks].
  rewrite find_longest_match_self.
  assert (Hlen : length x <> 0) by (destruct x; [contradiction|discriminate]).
  replace (length x =? 0) with false by (symmetry; now apply Nat.eqb_neq).
  replace (0 <? 0) with false by reflexivity. cbn [andb].
  replace (0 + length x <? length x) with false
    by (symmetry; apply Nat.ltb_irrefl).
  cbn [andb app]. destruct (length x + length x); reflexivity.
Qed.
End SelfMatch.

(** The ratio of a sequence with itself is 1.0. *)
Lemma ratio_self (x : pystr) :
  (Z.of_nat (length x) < 2 ^ 62)%Z -> ratio x x = 1%float.
Proof.
  intros Hb. unfold ratio. destruct x as [|c r] eqn:E; [reflexivity|].
  rewrite <- E in *.
  rewrite get_matching_blocks_self by (rewrite E; discriminate).
  cbn [fold_right]. rewrite Nat.add_0_r.
  apply calculate_ratio_self; [rewrite E; cbn; lia|exact Hb].
Qed.

Lemma lower_length (x : pystr) : length (lower x) = length x.
Proof. apply length_map. Qed.

(** C9. For every non-empty string x, string_similarity(x, x) = 1.0, and
    the similarity ignores case: two strings with the same lower-case form
    have similarity 1.0, as "Elden Ring" and "elden ring" do.  (A length
    is below 2^62: the conversion of an integer to a float reads 63 bits
    of it, and no sequence in memory is that long.) *)
Theorem string_similarity_reflexive :
  (forall x : pystr,
      x <> [] -> (Z.of_nat (length x) < 2 ^ 62)%Z ->
      string_similarity (Some x) (Some x) = 1%float)
  /\ (forall x y : pystr,
         lower x = lower y -> (Z.of_nat (length x) < 2 ^ 62)%Z ->
         string_similarity (Some x) (Some y) = 1%float)
  /\ string_similarity (Some (str "Elden Ring")) (Some (str "elden ring")) = 1%float.
Proof.
  split; [|split].
  - intros x _ Hb. cbn [string_similarity].
    apply ratio_self. now rewrite lower_length.
  - intros x y Hxy Hb. cbn [string_similarity]. rewrite <- Hxy.
    apply ratio_self. now rewrite lower_length.
  - vm_compute. reflexivity.
Qed.

Lemma string_similarity_reflexive_witness :
  string_similarity (Some (str "Baldur's Gate 3")) (Some (str "Baldur's Gate 3"))
  = 1%float
  /\ string_similarity (Some (str "ELDEN ring")) (Some (str "Elden Ring")) = 1%float.
Proof.
  destruct string_similarity_reflexive as (Hrefl & Hcase & _). split.
  - apply Hrefl; [discriminate|vm_compute; reflexivity].
  - apply Hcase; vm_compute; reflexivity.
Defined.

(** ** The merge: rows and columns *)

Lemma opt_str_eqb_eq (a b : option pystr) : opt_str_eqb a b = true <-> a = b.
Proof.
  destruct a as [a|], b as [b|]; cbn; split; try congruence; try reflexivity.
  - intros H. apply str_eqb_eq in H. congruence.
  - intros H. injection H as ->. apply str_eqb_refl.
Qed.

Lemma isin_In (t : option pystr) (titles : list (option pystr)) :
  isin t titles = true <-> In t titles.
Proof.
  unfold isin. rewrite existsb_exists. split.
  - intros (y & Hy & Heq). apply opt_str_eqb_eq in Heq. now subst.
  - intros H. exists t. split; [exact H|now apply opt_str_eqb_eq].
Qed.

Lemma filter_all {A : Type} (f : A -> bool) (l : list A) :
  (forall a, In a l -> f a = true) -> filter f l = l.
Proof.
  induction l as [|a l IH]; intros H; cbn [filter]; [reflexivity|].
  rewrite (H a (or_introl eq_refl)), IH; [reflexivity|].
  intros b Hb. apply H. now right.
Qed.

Lemma filter_disjoint_length {A : Type} (f g : A -> bool) (l : list A) :
  (forall a, In a l -> g a = true -> f a = false) ->
  length (filter f l) + length (filter g l) <= length l.
Proof.
  induction l as [|a l IH]; intros H; cbn [filter length]; [lia|].
  assert (IH' : length (filter f l) + length (filter g l) <= length l)
    by (apply IH; intros b Hb; apply H; now right).
  pose proof (H a (or_introl eq_refl)) as Ha.
  destruct (g a); [rewrite (Ha eq_refl)|destruct (f a)]; cbn [length]; lia.
Qed.

Lemma prepare_metacritic_titles (metacritic_df : list Metacritic.row) (g : Metacritic.row) :
  In g (prepare_metacritic metacritic_df) -> has_title (Metacritic.title g) = true.
Proof. unfold prepare_metacritic. intros H. now apply filter_In in H. Qed.

Lemma prepare_steam_titles (steam_df : list Steam.row) (s : Steam.row) :
  In s (prepare_steam steam_df) -> has_title (Steam.title s) = true.
Proof. unfold prepare_steam. intros H. now apply filter_In in H. Qed.

(** A matched row is the row of a game with a match. *)
Lemma matched_rows_In (metacritic : list Metacritic.row) (steam : list Steam.row)
      (r : merged_row) :
  In r (matched_rows metacritic steam) <->
  exists g s c, In g metacritic /\ find_best g steam = (Some s, c)
                /\ r = matched_row g s c.
Proof.
  unfold matched_rows. rewrite in_flat_map. split.
  - intros (g & Hg & Hr). destruct (find_best g steam) as [[s|] c] eqn:Hf.
    + destruct Hr as [<-|[]]. now exists g, s, c.
    + destruct Hr.
  - intros (g & s & c & Hg & Hf & ->). exists g. rewrite Hf. split; [exact Hg|now left].
Qed.

Lemma matched_rows_length (metacritic : list Metacritic.row) (steam : list Steam.row) :
  length (matched_rows metacritic steam)
  = length (filter (has_match steam) metacritic).
Proof.
  unfold matched_rows, has_match.
  induction metacritic as [|g l IH]; cbn [flat_map filter]; [reflexivity|].
  rewrite length_app, IH.
  destruct (find_best g steam) as [[s|] c]; reflexivity.
Qed.

(** A game with a match has its title among the matched titles. *)
Lemma matched_title_isin (metacritic : list Metacritic.row) (steam : list Steam.row)
      (g : Metacritic.row) :
  In g metacritic -> has_match steam g = true ->
  isin (Metacritic.title g) (map game_title (matched_rows metacritic steam)) = true.
Proof.
  unfold has_match. intros Hg Hm.
  destruct (find_best g steam) as [[s|] c] eqn:Hf; [|discriminate].
  apply isin_In. apply in_map_iff. exists (matched_row g s c).
  split; [reflexivity|]. apply matched_rows_In. now exists g, s, c.
Qed.

Lemma unmatched_mc_no_match (metacritic : list Metacritic.row) (steam : list Steam.row)
      (g : Metacritic.row) :
  In g (unmatched_mc_of metacritic (matched_rows metacritic steam)) ->
  In g metacritic /\ has_match steam g = false.
Proof.
  unfold unmatched_mc_of. intros H. apply filter_In in H as [Hg Hn].
  split; [exact Hg|].
  destruct (has_match steam g) eqn:Hm; [|reflexivity].
  rewrite (@matched_title_isin metacritic steam g Hg Hm) in Hn. discriminate.
Qed.

(** The last filter of [merge_datasets] removes nothing: every row
    built has the title of a prepared row. *)
Lemma merged_rows_titled (metacritic_df : list Metacritic.row)
      (steam_df : list Steam.row) (merged : list merged_row) :
  merged
  = matched_rows (prepare_metacritic metacritic_df) (prepare_steam steam_df)
    ++ map unmatched_mc_row
         (unmatched_mc_of (prepare_metacritic metacritic_df)
            (matched_rows (prepare_metacritic metacritic_df) (prepare_steam steam_df))) ->
  forall us,
    incl us (prepare_steam steam_df) ->
    filter (fun r => has_title (game_title r)) (merged ++ map unmatched_steam_row us)
    = merged ++ map unmatched_steam_row us.
Proof.
  intros -> us Hus. apply filter_all. intros r Hr.
  rewrite !in_app_iff in Hr. destruct Hr as [[Hr|Hr]|Hr].
  - apply matched_rows_In in Hr as (g & s & c & Hg & _ & ->).
    now apply prepare_metacritic_titles in Hg.
  - apply in_map_iff in Hr as (g & <- & Hg).
    apply filter_In in Hg as [Hg _].
    now apply prepare_metacritic_titles in Hg.
  - apply in_map_iff in Hr as (s & <- & Hs).
    apply Hus in Hs. now apply prepare_steam_titles in Hs.
Qed.

(** What [merge_datasets] returns, when it returns. *)
Lemma merge_datasets_returned (metacritic_df : list Metacritic.row)
      (steam_df : list Steam.row) (df : frame) :
  merge_datasets metacritic_df steam_df = Returned df ->
  let metacritic := prepare_metacritic metacritic_df in
  let steam := prepare_steam steam_df in
  let matched := matched_rows metacritic steam in
  let unmatched_mc := unmatched_mc_of metacritic matched in
  let unmatched_steam :=
    unmatched_steam_of steam (matched ++ map unmatched_mc_row unmatched_mc) in
  let merged := matched ++ map unmatched_mc_row unmatched_mc
                ++ map unmatched_steam_row unmatched_steam in
  matched <> []
  /\ ((existsb mask merged = false
       /\ df = mkframe (base_columns ++ ["combined_score"]%string) merged)
      \/ (existsb mask merged = true
          /\ df = mkframe (base_columns ++ ["combined_score"; "steam_review_score"]%string)
                    (map add_scores merged))).
Proof.
  intros H. cbv zeta. unfold merge_datasets in H. cbv zeta in H.
  remember (matched_rows (prepare_metacritic metacritic_df) (prepare_steam steam_df))
    as matched eqn:Hmat.
  destruct matched as [|r0 rest]; [discriminate H|].
  split; [discriminate|].
  rewrite (@merged_rows_titled metacritic_df steam_df) in H.
  - rewrite <- app_assoc in H.
    destruct (existsb mask _) eqn:Hmask; injection H as <-; auto.
  - now rewrite <- Hmat.
  - intros s Hs. unfold unmatched_steam_of in Hs. now apply filter_In in Hs.
Qed.

(** And conversely: it returns as soon as one game has a match. *)
Lemma merge_datasets_raises (metacritic_df : list Metacritic.row)
      (steam_df : list Steam.row) :
  merge_datasets metacritic_df steam_df = Raised (KeyError "game_title")
  <-> matched_rows (prepare_metacritic metacritic_df) (prepare_steam steam_df) = [].
Proof.
  unfold merge_datasets. cbv zeta.
  destruct (matched_rows _ _) as [|r0 rest]; split; try reflexivity; try discriminate.
  destruct (existsb mask _); discriminate.
Qed.

Lemma add_scores_keeps (r : merged_row) :
  is_matched (add_scores r) = is_matched r
  /\ match_confidence (add_scores r) = match_confidence r
  /\ metascore (add_scores r) = metascore r
  /\ steam_review_summary (add_scores r) = steam_review_summary r.
Proof.
  destruct r as [t u m p d dv pb g su pr di sm sc sd sdv sp st c im cs ss].
  unfold add_scores. cbn.
  destruct im, m, sm; cbn; repeat split.
Qed.

(** Where a row of the returned frame comes from. *)
Lemma returned_row_origin (metacritic_df : list Metacritic.row)
      (steam_df : list Steam.row) (df : frame) (r : merged_row) :
  merge_datasets metacritic_df steam_df = Returned df -> In r (rows df) ->
  exists r0,
    (r = r0 \/ (r = add_scores r0 /\ In "steam_review_score"%string (columns df)))
    /\ ((exists g s c,
            In g (prepare_metacritic metacritic_df)
            /\ find_best g (prepare_steam steam_df) = (Some s, c)
            /\ r0 = matched_row g s c)
        \/ (exists g, In g (prepare_metacritic metacritic_df) /\ r0 = unmatched_mc_row g)
        \/ (exists s, In s (prepare_steam steam_df) /\ r0 = unmatched_steam_row s)).
Proof.
  intros H Hr. apply merge_datasets_returned in H. cbv zeta in H.
  destruct H as [_ H].
  assert (Horigin : forall r0,
             In r0 (matched_rows (prepare_metacritic metacritic_df) (prepare_steam steam_df)
                    ++ map unmatched_mc_row
                         (unmatched_mc_of (prepare_metacritic metacritic_df)
                            (matched_rows (prepare_metacritic metacritic_df)
                               (prepare_steam steam_df)))
                    ++ map unmatched_steam_row
                         (unmatched_steam_of (prepare_steam steam_df)
                            (matched_rows (prepare_metacritic metacritic_df)
                               (prepare_steam steam_df)
                             ++ map unmatched_mc_row
                                  (unmatched_mc_of (prepare_metacritic metacritic_df)
                                     (matched_rows (prepare_metacritic metacritic_df)
                                        (prepare_steam steam_df)))))) ->
             (exists g s c,
                 In g (prepare_metacritic metacritic_df)
                 /\ find_best g (prepare_steam steam_df) = (Some s, c)
                 /\ r0 = matched_row g s c)
             \/ (exists g, In g (prepare_metacritic metacritic_df) /\ r0 = unmatched_mc_row g)
             \/ (exists s, In s (prepare_steam steam_df) /\ r0 = unmatched_steam_row s)).
  { intros r0 Hr0. rewrite !in_app_iff in Hr0. destruct Hr0 as [Hr0|[Hr0|Hr0]].
    - left. now apply matched_rows_In.
    - right; left. apply in_map_iff in Hr0 as (g & <- & Hg).
      apply filter_In in Hg as [Hg _]. now exists g.
    - right; right. apply in_map_iff in Hr0 as (s & <- & Hs).
      apply filter_In in Hs as [Hs _]. now exists s. }
  destruct H as [[_ ->]|[_ ->]]; cbn [rows columns] in *.
  - exists r. split; [now left|]. now apply Horigin.
  - apply in_map_iff in Hr as (r0 & <- & Hr0). exists r0. split.
    + right. split; [reflexivity|]. apply in_or_app. right. cbn. auto.
    + now apply Horigin.
Qed.

Lemma matched_rows_no_steam (metacritic : list Metacritic.row) :
  matched_rows metacritic [] = [].
Proof. unfold matched_rows. now induction metacritic. Qed.

(** C2 (the code departs from the claim). With an empty Metacritic frame,
    or an empty Steam frame, and more generally whenever no game finds a
    match, the first loop appends no row, [merged_df] is still the frame
    without columns it started as, and reading its [game_title] column
    raises [KeyError]: nothing is returned. *)
Theorem merge_empty_side_raises :
  (forall steam_df, merge_datasets [] steam_df = Raised (KeyError "game_title"))
  /\ (forall metacritic_df,
         merge_datasets metacritic_df [] = Raised (KeyError "game_title"))
  /\ (forall metacritic_df steam_df,
         merge_datasets metacritic_df steam_df = Raised (KeyError "game_title")
         <-> forall g, In g (prepare_metacritic metacritic_df) ->
                       has_match (prepare_steam steam_df) g = false)
  /\ merge_datasets [] [steam_sample "Game A" (text "Dev1") (text "Very Positive")]
     = Raised (KeyError "game_title").
Proof.
  split; [|split; [|split]]; try reflexivity.
  - intros metacritic_df. apply merge_datasets_raises.
    change (prepare_steam []) with (@nil Steam.row).
    apply matched_rows_no_steam.
  - intros metacritic_df steam_df. rewrite merge_datasets_raises. split.
    + intros Hnil g Hg.
      destruct (has_match (prepare_steam steam_df) g) eqn:Hm; [|reflexivity].
      pose proof (@matched_title_isin _ _ g Hg Hm) as Hin.
      rewrite Hnil in Hin. discriminate Hin.
    + intros Hno.
      destruct (matched_rows _ _) as [|r0 rest] eqn:Hm; [reflexivity|].
      assert (Hr0 : In r0 (matched_rows (prepare_metacritic metacritic_df)
                             (prepare_steam steam_df)))
        by (rewrite Hm; now left).
      apply matched_rows_In in Hr0 as (g & s & c & Hg & Hf & _).
      specialize (Hno g Hg). unfold has_match in Hno.
      rewrite Hf in Hno. discriminate Hno.
Qed.

Lemma nan_not_number (x : float) : is_nan x = false -> Some nan <> Some x.
Proof.
  intros Hx H. injection H as H. rewrite <- H in Hx. discriminate Hx.
Qed.

(** The score [merge_datasets] gives a matched row that has a metascore
    and a review summary. *)
Lemma combined_score_computed (metacritic_df : list Metacritic.row)
      (steam_df : list Steam.row) (df : frame) (r : merged_row)
      (m : float) (summary : pystr) :
  merge_datasets metacritic_df steam_df = Returned df -> In r (rows df) ->
  is_matched r = true -> metascore r = Some m ->
  steam_review_summary r = Some summary ->
  combined_score r = Some (m * 0.6 + review_score summary * 0.4)%float
  /\ steam_review_score r = review_score summary.
Proof.
  intros H Hr Hm Hs Hv. apply merge_datasets_returned in H. cbv zeta in H.
  destruct H as [_ [[Hmask ->]|[_ ->]]]; cbn [rows] in Hr.
  - assert (Hex : existsb mask
                    (matched_rows (prepare_metacritic metacritic_df)
                       (prepare_steam steam_df)
                     ++ map unmatched_mc_row
                          (unmatched_mc_of (prepare_metacritic metacritic_df)
                             (matched_rows (prepare_metacritic metacritic_df)
                                (prepare_steam steam_df)))
                     ++ map unmatched_steam_row
                          (unmatched_steam_of (prepare_steam steam_df)
                             (matched_rows (prepare_metacritic metacritic_df)
                                (prepare_steam steam_df)
                              ++ map unmatched_mc_row
                                   (unmatched_mc_of (prepare_metacritic metacritic_df)
                                      (matched_rows (prepare_metacritic metacritic_df)
                                         (prepare_steam steam_df)))))) = true).
    { apply existsb_exists. exists r. split; [exact Hr|].
      unfold mask. now rewrite Hm, Hs, Hv. }
    rewrite Hex in Hmask. discriminate Hmask.
  - apply in_map_iff in Hr as (r0 & <- & _).
    destruct (add_scores_keeps r0) as (Km & _ & Ks & Kv).
    rewrite Km in Hm. rewrite Ks in Hs. rewrite Kv in Hv.
    unfold add_scores. rewrite Hm, Hs, Hv. cbn. auto.
Qed.

(** C1 (the code departs from the claim). A matched row with a metascore
    and a review summary gets metascore * 0.6 + s * 0.4, where s is the
    number read from the first run of digits of the summary, not its
    9-bucket approximation.  On the scenario of the specification the
    merge returns one matched row with confidence 1.0, but its combined
    score is NaN and not 82.0: "Very Positive" (like the other eight
    labels of the table) holds no digit. *)
Theorem combined_score_scenario :
  (forall metacritic_df steam_df df r m summary,
      merge_datasets metacritic_df steam_df = Returned df -> In r (rows df) ->
      is_matched r = true -> metascore r = Some m ->
      steam_review_summary r = Some summary ->
      combined_score r = Some (m * 0.6 + review_score summary * 0.4)%float)
  /\ (forall label v, In (label, v) review_map -> review_score label = nan)
  /\ exists r,
      merge_datasets [mc_sample "Game A" (text "Dev1") (Some 80%float)]
        [steam_sample "Game A" (text "Dev1") (text "Very Positive")]
      = Returned (mkframe (base_columns ++ ["combined_score"; "steam_review_score"]%string) [r])
      /\ is_matched r = true
      /\ match_confidence r = 1%float
      /\ metascore r = Some 80%float
      /\ steam_review_summary r = text "Very Positive"
      /\ review_score_approx (str "Very Positive") = Some 85%float
      /\ (80 * 0.6 + 85 * 0.4 = 82)%float
      /\ combined_score r = Some nan
      /\ combined_score r <> Some 82%float.
Proof.
  split; [|split].
  - intros metacritic_df steam_df df r m summary H Hr Hm Hs Hv.
    now destruct (@combined_score_computed metacritic_df steam_df df r m summary H Hr Hm Hs Hv).
  - intros label v H. cbn [review_map In] in H.
    repeat (destruct H as [H|H]; [injection H as <- <-; vm_compute; reflexivity|]).
    destruct H.
  - eexists. split; [vm_compute; reflexivity|].
    repeat (split; [vm_compute; reflexivity|]).
    apply nan_not_number. reflexivity.
Qed.

(** C4 (the code departs from the claim). The set the Steam rows are
    tested against is the [game_title] column of [merged_df], which holds
    the Metacritic titles of the matched and of the unmatched-left rows,
    not the titles of the matched Steam rows.  So a Steam row matched
    under a different title is emitted again as unmatched, and a Steam row
    that was never matched is dropped when an unmatched Metacritic row has
    its title. *)
Theorem unmatched_steam_by_metacritic_title :
  (forall steam merged_df s,
      In s (unmatched_steam_of steam merged_df) <->
      In s steam /\ ~ In (Steam.title s) (map game_title merged_df))
  /\ (exists c,
         merge_datasets [mc_sample "Game A" None None]
           [steam_sample "Game A!" None None]
         = Returned
             (mkframe (base_columns ++ ["combined_score"]%string)
                [matched_row (mc_sample "Game A" None None)
                   (steam_sample "Game A!" None None) c;
                 unmatched_steam_row (steam_sample "Game A!" None None)]))
  /\ (exists c,
         merge_datasets
           [mc_sample "Game A" None None; mc_sample "Zelda" (text "Nintendo") None]
           [steam_sample "Game A" None None; steam_sample "Zelda" (text "Xyz") None]
         = Returned
             (mkframe (base_columns ++ ["combined_score"]%string)
                [matched_row (mc_sample "Game A" None None)
                   (steam_sample "Game A" None None) c;
                 unmatched_mc_row (mc_sample "Zelda" (text "Nintendo") None)])).
Proof.
  split; [|split].
  - intros steam merged_df s. unfold unmatched_steam_of.
    rewrite filter_In, negb_true_iff, <- not_true_iff_false, isin_In. reflexivity.
  - eexists. vm_compute. reflexivity.
  - eexists. vm_compute. reflexivity.
Qed.


(** C10. The columns of a frame [merge_datasets] returns are the
    nineteen keys of its rows and [combined_score], with
    [steam_review_score] after them when some matched row has both a
    metascore and a review summary; none of [mc_title], [mc_metascore],
    [mc_genres], [mc_developer], [steam_title] and [steam_price_numeric]
    is among them, so [validate_data] finds required columns missing and
    returns False on any such frame, whatever the thresholds. *)
Theorem merged_columns_fail_validation :
  forall metacritic_df steam_df df cfg,
    merge_datasets metacritic_df steam_df = Returned df ->
    (columns df = base_columns ++ ["combined_score"]%string
     \/ columns df = base_columns ++ ["combined_score"; "steam_review_score"]%string)
    /\ (forall col, In col absent_columns -> has_column df col = false)
    /\ missing_columns df = absent_columns
    /\ validate_data cfg df = false.
Proof.
  intros metacritic_df steam_df df cfg H.
  apply merge_datasets_returned in H. cbv zeta in H. destruct H as [_ H].
  assert (Hc : columns df = base_columns ++ ["combined_score"]%string
               \/ columns df
                  = base_columns ++ ["combined_score"; "steam_review_score"]%string)
    by (destruct H as [[_ ->] | [_ ->]]; auto).
  split; [exact Hc|].
  assert (Hm : missing_columns df = absent_columns).
  { unfold missing_columns, has_column.
    destruct Hc as [-> | ->]; vm_compute; reflexivity. }
  split; [|split; [exact Hm|]].
  - intros col Hcol. unfold has_column.
    cbn [absent_columns In] in Hcol.
    destruct Hc as [-> | ->];
      repeat (destruct Hcol as [<-|Hcol]; [vm_compute; reflexivity|]);
      destruct Hcol.
  - unfold validate_data. rewrite Hm.
    destruct (_ <? min_rows cfg)%Z; [reflexivity|].
    destruct (_ <? min_matched cfg)%Z; reflexivity.
Qed.

Lemma merged_columns_fail_validation_witness :
  exists df,
    merge_datasets [mc_sample "Game A" (text "Dev1") (Some 80%float)]
      [steam_sample "Game A" (text "Dev1") (text "Very Positive")]
    = Returned df
    /\ validate_data {| min_rows := 0; min_matched := 0 |} df = false.
Proof.
  eexists. split; [vm_compute; reflexivity|].
  apply (@merged_columns_fail_validation
           [mc_sample "Game A" (text "Dev1") (Some 80%float)]
           [steam_sample "Game A" (text "Dev1") (text "Very Positive")]).
  vm_compute. reflexivity.
Defined.

(** * Further properties of the cleaner *)

(** ** Dates: what is returned is a date of the calendar *)

Lemma year_digits_all : forallb year_digits_ok (N_seq 0 (N.to_nat 10000)) = true.
Proof. vm_compute. reflexivity. Qed.

Lemma year_digits (y : N) : (y <= 9999)%N -> year_digits_ok y = true.
Proof.
  intros Hy.
  assert (Hin : In y (N_seq 0 (N.to_nat 10000))) by (apply in_N_seq; lia).
  exact (proj1 (forallb_forall _ _) year_digits_all y Hin).
Qed.

Lemma year_length (y : N) : (1000 <= y <= 9999)%N -> length (dec y) = 4.
Proof.
  intros [Hlo Hhi]. pose proof (@year_digits y Hhi) as H.
  unfold year_digits_ok in H.
  destruct (zfill 4 (dec y)) as [|a [|b [|c [|d [|x l]]]]]; try discriminate H.
  apply N.leb_le in Hlo. rewrite Hlo in H.
  do 3 (apply andb_true_iff in H as [H _]).
  apply andb_true_iff in H as [_ H]. apply str_eqb_eq in H. now rewrite H.
Qed.

Lemma january_first_valid (y : N) :
  (1 <= y <= 9999)%N -> valid_date (mkdate y 1 1) = true.
Proof.
  intros [H1 H2]. unfold valid_date. cbn [year month day].
  apply N.leb_le in H1, H2. now rewrite H1, H2.
Qed.

(** X1. On a string of characters below code point 256, a date
    [_standardize_date] returns is never outside the calendar: it is the
    text of a valid date as [strftime('%Y-%m-%d')] writes it on the
    platform ([YYYY-MM-DD], the year without padding when it is below
    1000 and the platform does not pad), or, for a year below 1000 read
    by the year-only format, that year without padding followed by
    [-01-01]. *)
Theorem standardize_date_calendar (pads : bool) (s d : pystr) :
  _standardize_date pads (Some s) = Some d ->
  exists dt,
    valid_date dt = true
    /\ (d = strftime_iso pads dt
        \/ ((year dt < 1000)%N /\ month dt = 1%N /\ day dt = 1%N
            /\ d = dec (year dt) ++ str "-01-01")).
Proof.
  unfold _standardize_date.
  destruct (str_in s date_placeholders); [discriminate|].
  destruct (try_formats pads date_formats (strip (sub_parens s))) as [r|] eqn:Ht.
  - intros H. injection H as ->.
    apply try_formats_some in Ht as (dt & Hv & [->| ->]).
    + exists dt. auto.
    + destruct (@valid_date_bounds dt Hv) as [Hy _].
      exists (mkdate (year dt) 1 1). split; [now apply january_first_valid|].
      cbn [year month day].
      destruct (N.ltb_spec (year dt) 1000) as [Hlt|Hge]; [right; auto|].
      left. unfold strftime_iso, zfill. cbn [year month day].
      rewrite year_length by lia. destruct pads; reflexivity.
  - destruct (search_year (strip (sub_parens s))) as [y|] eqn:Hy; [|discriminate].
    intros H. injection H as <-.
    apply (@scanned_year_text pads) in Hy as (dt & Hv & Heq). exists dt.
    split; [exact Hv|]. left. exact Heq.
Qed.

Lemma standardize_date_calendar_witness :
  exists dt,
    valid_date dt = true
    /\ (str "2020-02-29" = strftime_iso false dt
        \/ ((year dt < 1000)%N /\ month dt = 1%N /\ day dt = 1%N
            /\ str "2020-02-29" = dec (year dt) ++ str "-01-01")).
Proof.
  apply (@standardize_date_calendar false (str "February 29, 2020 (leap day)")).
  vm_compute. reflexivity.
Defined.

(** ** The release year *)

Lemma before_hyphen_app (ds r : pystr) :
  has_hyphen ds = false ->
  before_hyphen (ds ++ "-"%char :: r) = ds
  /\ has_hyphen (ds ++ "-"%char :: r) = true.
Proof.
  unfold has_hyphen. induction ds as [|c ds IH]; intros H.
  - split; reflexivity.
  - cbn [existsb] in H. apply orb_false_iff in H as [Hc Hds].
    destruct (IH Hds) as [IH1 IH2].
    cbn [app before_hyphen existsb].
    unfold char_eqb in *. rewrite Ascii.eqb_sym in Hc. rewrite Hc.
    rewrite Ascii.eqb_sym in Hc. rewrite Hc, IH1, IH2. split; reflexivity.
Qed.

(** The year of a date, read back from either of its texts. *)
Lemma release_year_text (y : N) (r : pystr) :
  (y <= 9999)%N ->
  release_year (Some (zfill 4 (dec y) ++ "-"%char :: r)) = Parsed (Z.of_N y)
  /\ release_year (Some (dec y ++ "-"%char :: r)) = Parsed (Z.of_N y).
Proof.
  intros Hy. pose proof (@year_digits y Hy) as H. unfold year_digits_ok in H.
  destruct (zfill 4 (dec y)) as [|a [|b [|c [|d [|x l]]]]] eqn:Hz; try discriminate H.
  apply andb_true_iff in H as [H Hh4]. apply andb_true_iff in H as [H Hh].
  apply andb_true_iff in H as [_ H]. apply negb_true_iff in Hh4, Hh.
  destruct (py_int [a; b; c; d]) as [n|] eqn:Hn; [|discriminate H].
  destruct (py_int (dec y)) as [n'|] eqn:Hn'; [|discriminate H].
  apply andb_true_iff in H as [E E']. apply Z.eqb_eq in E, E'. subst n n'.
  destruct (@before_hyphen_app _ r Hh4) as [B4 H4].
  destruct (@before_hyphen_app _ r Hh) as [B H0].
  unfold release_year. now rewrite B4, H4, B, H0, Hn, Hn'.
Qed.

(** X2. The release year derived from a standardized date is never a
    [ValueError]: it is the year of the date, between 1 and 9999, and it
    is missing exactly when the date is. *)
Theorem release_year_of_standardized (pads : bool) :
  (forall dt, valid_date dt = true ->
              release_year (Some (strftime_iso pads dt)) = Parsed (Z.of_N (year dt)))
  /\ (forall s d, _standardize_date pads s = Some d ->
                  exists dt, valid_date dt = true
                             /\ (d = strftime_iso pads dt \/ d = dec (year dt) ++ str "-01-01")
                             /\ release_year (Some d) = Parsed (Z.of_N (year dt))
                             /\ (1 <= Z.of_N (year dt) <= 9999)%Z)
  /\ (forall s, _standardize_date pads s = None ->
                release_year (_standardize_date pads s) = Missing).
Proof.
  assert (Hiso : forall dt, valid_date dt = true ->
                   release_year (Some (strftime_iso pads dt)) = Parsed (Z.of_N (year dt))).
  { intros dt Hv. destruct (@valid_date_bounds dt Hv) as [Hy _].
    unfold strftime_iso. cbn [str list_ascii_of_string app].
    destruct pads; apply release_year_text; lia. }
  split; [exact Hiso|]. split.
  - intros [s|] d H; [|discriminate H]. unfold _standardize_date in H.
    destruct (str_in s date_placeholders); [discriminate H|].
    destruct (try_formats pads date_formats (strip (sub_parens s))) as [r|] eqn:Ht.
    + injection H as ->.
      apply try_formats_some in Ht as (dt & Hv & Hd).
      destruct (@valid_date_bounds dt Hv) as [Hy _].
      exists dt. split; [exact Hv|].
      destruct Hd as [->| ->].
      * split; [now left|]. split; [now apply Hiso|lia].
      * split; [now right|]. split; [|lia].
        cbn [str list_ascii_of_string]. apply release_year_text. lia.
    + destruct (search_year (strip (sub_parens s))) as [y|] eqn:Hy; [|discriminate H].
      injection H as <-.
      apply (@scanned_year_text pads) in Hy as (dt & Hv & Heq).
      destruct (@valid_date_bounds dt Hv) as [Hb _].
      exists dt. split; [exact Hv|]. split; [left; exact Heq|].
      split; [|lia]. pose proof (Hiso dt Hv) as E. rewrite <- Heq in E. exact E.
  - intros s H. now rewrite H.
Qed.

Lemma release_year_of_standardized_witness :
  release_year (_standardize_date false (Some (str "Mar 3, 2020"))) = Parsed 2020%Z
  /\ release_year (_standardize_date false (Some (str "soon"))) = Missing.
Proof.
  destruct (release_year_of_standardized false) as (Hiso & _ & Hnone). split.
  - change (_standardize_date false (Some (str "Mar 3, 2020")))
      with (Some (strftime_iso false (mkdate 2020 3 3))).
    apply (Hiso (mkdate 2020 3 3)). reflexivity.
  - apply Hnone. vm_compute. reflexivity.
Defined.

(** ** Dates: a note in parentheses *)

Lemma sub_parens_app (s t : pystr) :
  no_paren s = true ->
  sub_parens_from false (s ++ t) = s ++ sub_parens_from false t.
Proof.
  unfold no_paren. induction s as [|c s IH]; intros H; [reflexivity|].
  cbn [forallb] in H. apply andb_true_iff in H as [Hc Hs].
  apply negb_true_iff in Hc. cbn [app sub_parens_from]. rewrite Hc.
  cbn [andb]. now rewrite IH.
Qed.

Lemma note_closes (note t : pystr) :
  is_note note = true -> closes (note ++ ")"%char :: t) = true.
Proof.
  unfold is_note. induction note as [|c n IH]; intros H; [reflexivity|].
  cbn [forallb] in H. apply andb_true_iff in H as [Hc Hn].
  apply andb_true_iff in Hc as [Hc1 Hc2]. apply negb_true_iff in Hc1, Hc2.
  cbn [app closes]. rewrite Hc1, Hc2. now apply IH.
Qed.

Lemma note_skipped (note t : pystr) :
  is_note note = true ->
  sub_parens_from true (note ++ ")"%char :: t) = sub_parens_from false t.
Proof.
  unfold is_note. induction note as [|c n IH]; intros H; [reflexivity|].
  cbn [forallb] in H. apply andb_true_iff in H as [Hc Hn].
  apply andb_true_iff in Hc as [Hc1 _]. apply negb_true_iff in Hc1.
  cbn [app sub_parens_from]. rewrite Hc1. now apply IH.
Qed.

Lemma sub_parens_note (s1 note s2 : pystr) :
  no_paren s1 = true -> is_note note = true ->
  sub_parens (s1 ++ "("%char :: note ++ ")"%char :: s2) = sub_parens (s1 ++ s2).
Proof.
  intros H1 Hn. unfold sub_parens. rewrite !sub_parens_app by exact H1.
  cbn [sub_parens_from]. change (char_eqb "(" "(") with true. cbn [andb].
  now rewrite note_closes, note_skipped.
Qed.

(** No format reads a placeholder. *)
Lemma placeholder_no_date (pads : bool) (s : pystr) :
  str_in s date_placeholders = true ->
  try_formats pads date_formats (strip (sub_parens s)) = None.
Proof.
  intros H. apply str_in_inv in H. simpl in H.
  destruct H as [<-|[<-|[<-|[]]]]; vm_compute; reflexivity.
Qed.

Lemma with_paren_not_placeholder (s1 t : pystr) :
  str_in (s1 ++ "("%char :: t) date_placeholders = false.
Proof.
  destruct (str_in _ _) eqn:H; [|reflexivity].
  apply str_in_inv in H. simpl in H.
  destruct H as [H|[H|[H|[]]]];
    apply (f_equal (existsb (char_eqb "("%char))) in H;
    rewrite existsb_app in H; cbn in H; rewrite orb_true_r in H; discriminate H.
Qed.

(** X3. A note in parentheses (with no closing parenthesis or line
    break inside) after a text without an opening parenthesis is ignored:
    the date is the one of the text with the note cut out. *)
Theorem standardize_date_ignores_note (pads : bool) (s1 note s2 : pystr) :
  no_paren s1 = true -> is_note note = true ->
  _standardize_date pads (Some (s1 ++ str "(" ++ note ++ str ")" ++ s2))
  = _standardize_date pads (Some (s1 ++ s2)).
Proof.
  intros H1 Hn. cbn [str list_ascii_of_string app].
  unfold _standardize_date. rewrite with_paren_not_placeholder.
  rewrite sub_parens_note by assumption.
  destruct (str_in (s1 ++ s2) date_placeholders) eqn:Hp; [|reflexivity].
  now rewrite placeholder_no_date, placeholder_no_year by exact Hp.
Qed.

Lemma standardize_date_ignores_note_witness :
  _standardize_date false (Some (str "Mar 3, 2020 (Early Access)"))
  = Some (str "2020-03-03").
Proof.
  change (str "Mar 3, 2020 (Early Access)")
    with (str "Mar 3, 2020 " ++ str "(" ++ str "Early Access" ++ str ")" ++ []).
  rewrite standardize_date_ignores_note by reflexivity.
  vm_compute. reflexivity.
Defined.

(** ** Dates written with slashes *)

Lemma flat_map_flat_map {A B C : Type} (f : A -> list B) (g : B -> list C)
      (l : list A) :
  flat_map g (flat_map f l) = flat_map (fun x => flat_map g (f x)) l.
Proof.
  induction l as [|x l IH]; [reflexivity|].
  cbn [flat_map]. now rewrite flat_map_app, IH.
Qed.

(** The pattern of a format, cut in two. *)
Lemma match_items_app (its1 its2 : list item) (acc : date) (s : pystr) :
  match_items (its1 ++ its2) acc s
  = flat_map (fun '(acc', r) => match_items its2 acc' r) (match_items its1 acc s).
Proof.
  revert acc s. induction its1 as [|it its1 IH]; intros acc s.
  - cbn [app match_items flat_map]. now rewrite app_nil_r.
  - cbn [app match_items]. rewrite flat_map_flat_map.
    apply flat_map_ext. intros [acc' r]. apply IH.
Qed.

(** Case analysis on a number of a short range. *)
Ltac range_cases H n k :=
  let Hin := fresh "Hin" in
  assert (Hin : In n (N_seq 1 k)) by (apply in_N_seq; lia);
  clear H; cbn in Hin;
  repeat (destruct Hin as [<-|Hin]; [|]); [..|destruct Hin].

Lemma two_digits (p : N) :
  (1 <= p <= 31)%N ->
  exists x y, zfill 2 (dec p) = [x; y] /\ is_digit x = true /\ is_digit y = true.
Proof.
  intros H. range_cases H p 31; do 2 eexists; repeat split.
Qed.

Lemma month_day_prefix (p q : N) (tail : pystr) :
  (1 <= p <= 12)%N -> (1 <= q <= 31)%N ->
  match_items [Dir_m; Lit "/"; Dir_d; Lit "/"] default_date (slash_text p q tail)
  = [(mkdate 1900 p q, tail)].
Proof.
  intros Hp Hq. range_cases Hp p 12; range_cases Hq q 31; reflexivity.
Qed.

Lemma day_month_prefix (p q : N) (tail : pystr) :
  (1 <= p <= 31)%N -> (1 <= q <= 12)%N ->
  match_items [Dir_d; Lit "/"; Dir_m; Lit "/"] default_date (slash_text p q tail)
  = [(mkdate 1900 q p, tail)].
Proof.
  intros Hp Hq. range_cases Hp p 31; range_cases Hq q 12; reflexivity.
Qed.

Lemma month_prefix_fails (p : N) (r : pystr) :
  (13 <= p <= 31)%N ->
  match_items [Dir_m; Lit "/"] default_date (zfill 2 (dec p) ++ "/"%char :: r) = [].
Proof.
  intros Hp. assert (H : (1 <= p <= 31)%N) by lia.
  range_cases H p 31; try lia; reflexivity.
Qed.

Lemma second_month_fails (p q : N) (tail : pystr) :
  (1 <= p <= 31)%N -> (13 <= q <= 31)%N ->
  match_items [Dir_d; Lit "/"; Dir_m; Lit "/"] default_date (slash_text p q tail) = [].
Proof.
  intros Hp Hq. assert (H : (1 <= q <= 31)%N) by lia.
  range_cases Hp p 31; range_cases H q 31; try lia; reflexivity.
Qed.

Lemma day_space_fails (x y : ascii) (r : pystr) (its : list item) :
  is_digit x = true -> is_digit y = true ->
  match_items (Dir_d :: Spaces :: its) default_date (x :: y :: "/"%char :: r) = [].
Proof. intros Hx Hy. digit_cases Hx; digit_cases Hy; reflexivity. Qed.

Lemma year_first_fails (x y : ascii) (r : pystr) (its : list item) :
  match_items (Dir_Y :: its) default_date (x :: y :: "/"%char :: r) = [].
Proof.
  cbn [match_items match_item match_Y]. destruct r as [|z r]; [reflexivity|].
  change (is_digit "/") with false. now rewrite andb_false_r.
Qed.

Lemma strptime_no_match (t fmt : pystr) (its : list item) :
  compile fmt = Some its -> match_items its default_date t = [] ->
  strptime t fmt = None.
Proof. intros Hc Hm. unfold strptime. now rewrite Hc, Hm. Qed.

Lemma match_Y_digits (acc : date) (a b c e : ascii) :
  is_digit a = true -> is_digit b = true -> is_digit c = true ->
  is_digit e = true ->
  match_items [Dir_Y] acc [a; b; c; e] = [(set_year acc (val4 a b c e), [])].
Proof.
  intros Ha Hb Hc He. cbn [match_items match_item match_Y].
  rewrite Ha, Hb, Hc, He. reflexivity.
Qed.

Lemma strptime_month_day (p q : N) (a b c e : ascii) :
  (1 <= p <= 12)%N -> (1 <= q <= 31)%N ->
  is_digit a = true -> is_digit b = true -> is_digit c = true ->
  is_digit e = true ->
  strptime (slash_text p q [a; b; c; e]) (str "%m/%d/%Y")
  = if valid_date (mkdate (val4 a b c e) p q)
    then Some (mkdate (val4 a b c e) p q) else None.
Proof.
  intros Hp Hq Ha Hb Hc He. unfold strptime.
  change (compile (str "%m/%d/%Y"))
    with (Some ([Dir_m; Lit "/"; Dir_d; Lit "/"] ++ [Dir_Y])).
  cbv beta iota. rewrite match_items_app, month_day_prefix by assumption.
  cbn [flat_map]. rewrite match_Y_digits by assumption. reflexivity.
Qed.

Lemma strptime_day_month (p q : N) (a b c e : ascii) :
  (1 <= p <= 31)%N -> (1 <= q <= 12)%N ->
  is_digit a = true -> is_digit b = true -> is_digit c = true ->
  is_digit e = true ->
  strptime (slash_text p q [a; b; c; e]) (str "%d/%m/%Y")
  = if valid_date (mkdate (val4 a b c e) q p)
    then Some (mkdate (val4 a b c e) q p) else None.
Proof.
  intros Hp Hq Ha Hb Hc He. unfold strptime.
  change (compile (str "%d/%m/%Y"))
    with (Some ([Dir_d; Lit "/"; Dir_m; Lit "/"] ++ [Dir_Y])).
  cbv beta iota. rewrite match_items_app, day_month_prefix by assumption.
  cbn [flat_map]. rewrite match_Y_digits by assumption. reflexivity.
Qed.

Lemma digit_is_word (c : ascii) : is_digit c = true -> is_word c = true.
Proof. intros H. unfold is_word. now rewrite H. Qed.

Lemma year_here_third (x y c : ascii) (r : pystr) :
  is_digit c = false -> year_here (x :: y :: c :: r) = None.
Proof.
  intros H. destruct r as [|d r]; [reflexivity|].
  cbn [year_here]. now rewrite H, andb_false_r.
Qed.

Lemma year_here_second (x : ascii) (r : pystr) :
  year_here (x :: "/"%char :: r) = None.
Proof.
  destruct r as [|c [|d r]]; try reflexivity.
  cbn [year_here]. change (char_eqb "/" "9") with false.
  change (char_eqb "/" "0") with false. now rewrite !andb_false_r.
Qed.

(** The scan for a year on a date with slashes finds its last field,
    when that is a year of 19xx or 20xx. *)
Lemma search_year_slash (x y x' y' a b c e : ascii) :
  is_digit x = true -> is_digit y = true -> is_digit x' = true ->
  is_digit y' = true -> is_digit a = true -> is_digit b = true ->
  is_digit c = true -> is_digit e = true ->
  search_year (x :: y :: "/"%char :: x' :: y' :: "/"%char :: [a; b; c; e])
  = if (char_eqb a "1"%char && char_eqb b "9"%char)
       || (char_eqb a "2"%char && char_eqb b "0"%char)
    then Some [a; b; c; e] else None.
Proof.
  intros Hx Hy Hx' Hy' Ha Hb Hc He. unfold search_year.
  cbn [search_year_from].
  rewrite year_here_third by reflexivity.
  rewrite (@digit_is_word _ Hx), (@digit_is_word _ Hy).
  change (is_word "/") with false. cbn iota.
  rewrite year_here_third by reflexivity.
  rewrite (@digit_is_word _ Hx'), (@digit_is_word _ Hy'). cbn iota.
  cbn [year_here]. rewrite Hc, He, !andb_true_r.
  destruct (_ || _); [reflexivity|].
  now rewrite (@digit_is_word _ Ha), (@digit_is_word _ Hb), (@digit_is_word _ Hc).
Qed.

Lemma year_century (y : N) (a b c e : ascii) :
  (1000 <= y <= 9999)%N -> zfill 4 (dec y) = [a; b; c; e] ->
  (char_eqb a "1"%char && char_eqb b "9"%char)
  || (char_eqb a "2"%char && char_eqb b "0"%char)
  = ((1900 <=? y) && (y <=? 2099))%N
  /\ dec y = [a; b; c; e].
Proof.
  intros [Hlo Hhi] Hz. pose proof (@year_digits y Hhi) as H.
  unfold year_digits_ok in H. rewrite Hz in H.
  apply N.leb_le in Hlo. rewrite Hlo in H.
  do 3 (apply andb_true_iff in H as [H _]).
  apply andb_true_iff in H as [H1 H2].
  apply str_eqb_eq in H2. apply Bool.eqb_prop in H1. now split.
Qed.

Lemma slash_text_plain (x y x' y' a b c e : ascii) :
  is_digit x = true -> is_digit y = true -> is_digit x' = true ->
  is_digit y' = true -> is_digit a = true -> is_digit b = true ->
  is_digit c = true -> is_digit e = true ->
  let t := x :: y :: "/"%char :: x' :: y' :: "/"%char :: [a; b; c; e] in
  str_in t date_placeholders = false /\ strip (sub_parens t) = t.
Proof.
  intros Hx Hy Hx' Hy' Ha Hb Hc He t. split.
  - subst t. clear -Hx. digit_cases Hx; reflexivity.
  - assert (Hsp : sub_parens t = t).
    { apply sub_parens_id. subst t. unfold no_paren. cbn [forallb].
      rewrite (@digit_not_paren _ Hx), (@digit_not_paren _ Hy),
        (@digit_not_paren _ Hx'), (@digit_not_paren _ Hy'),
        (@digit_not_paren _ Ha), (@digit_not_paren _ Hb),
        (@digit_not_paren _ Hc), (@digit_not_paren _ He).
      reflexivity. }
    rewrite Hsp. subst t. unfold strip.
    rewrite lstrip_head by now apply digit_not_space.
    rewrite !rstrip_cons by (reflexivity || now apply digit_not_space).
    reflexivity.
Qed.

Lemma days_in_month_ge (y m : N) : (28 <= days_in_month y m)%N.
Proof.
  unfold days_in_month.
  repeat match goal with
         | |- context [match ?x with _ => _ end] => destruct x
         end; lia.
Qed.

(** X4. A date with slashes, both fields written with two digits and
    the year with four, is read month first whenever that is a date of
    the calendar, whatever was meant; day first only when the first
    field is no month; and when neither reading is a date, the year alone
    is kept, as 1 January, if it is of 19xx or 20xx. *)
Theorem slash_date_reading (pads : bool) (p q y : N) :
  (1 <= p <= 31)%N -> (1 <= q <= 31)%N -> (1000 <= y <= 9999)%N ->
  _standardize_date pads (Some (slash_date p q y))
  = if (p <=? 12)%N && valid_date (mkdate y p q)
    then Some (strftime_iso pads (mkdate y p q))
    else if (q <=? 12)%N && valid_date (mkdate y q p)
    then Some (strftime_iso pads (mkdate y q p))
    else if ((1900 <=? y) && (y <=? 2099))%N
    then Some (dec y ++ str "-01-01")
    else None.
Proof.
  intros Hp Hq Hy.
  destruct (@year_text y) as (a & b & c & e & Ht & Ha & Hb & Hc & He & Hval); [lia|].
  destruct (@two_digits p Hp) as (x & x2 & Hpx & Hx & Hx2).
  destruct (@two_digits q Hq) as (z & z2 & Hqz & Hz & Hz2).
  destruct (@year_century y a b c e Hy Ht) as [Hcent Hdec].
  unfold slash_date. rewrite Ht.
  assert (HT : slash_text p q [a; b; c; e]
               = x :: x2 :: "/"%char :: z :: z2 :: "/"%char :: [a; b; c; e]).
  { unfold slash_text. now rewrite Hpx, Hqz. }
  destruct (@slash_text_plain x x2 z z2 a b c e) as [Hph Hst]; try assumption.
  unfold _standardize_date. rewrite HT, Hph, !Hst, <- HT.
  assert (Hyear : search_year (slash_text p q [a; b; c; e])
                  = if ((1900 <=? y) && (y <=? 2099))%N
                    then Some (dec y) else None).
  { rewrite HT, search_year_slash by assumption. now rewrite Hcent, Hdec. }
  assert (Hlast : strptime (slash_text p q [a; b; c; e]) (str "%Y") = None).
  { rewrite HT. eapply strptime_no_match; [reflexivity|apply year_first_fails]. }
  unfold date_formats.
  rewrite try_formats_skip
    by (rewrite HT; eapply strptime_month_first; [reflexivity|now left|exact Hx]).
  rewrite try_formats_skip
    by (rewrite HT; eapply strptime_month_first; [reflexivity|now right|exact Hx]).
  do 4 rewrite try_formats_skip
    by (rewrite HT; eapply strptime_no_match;
        [reflexivity|apply day_space_fails; assumption]).
  rewrite try_formats_skip
    by (rewrite HT; eapply strptime_month_first; [reflexivity|now left|exact Hx]).
  rewrite try_formats_skip
    by (rewrite HT; eapply strptime_month_first; [reflexivity|now right|exact Hx]).
  rewrite try_formats_skip
    by (rewrite HT; eapply strptime_no_match; [reflexivity|apply year_first_fails]).
  cbn [try_formats].
  assert (Hfall : (match search_year (slash_text p q [a; b; c; e]) with
                   | Some y0 => Some (y0 ++ str "-01-01")
                   | None => None
                   end)
                  = if ((1900 <=? y) && (y <=? 2099))%N
                    then Some (dec y ++ str "-01-01") else None).
  { rewrite Hyear. destruct ((1900 <=? y) && (y <=? 2099))%N; reflexivity. }
  change (str_eqb (str "%m/%d/%Y") (str "%Y")) with false.
  change (str_eqb (str "%d/%m/%Y") (str "%Y")) with false. cbv iota.
  destruct (N.leb_spec p 12) as [Hp12|Hp12]; cbn [andb].
  - rewrite strptime_month_day by (assumption || lia). rewrite Hval.
    destruct (valid_date (mkdate y p q)) eqn:Hv; [reflexivity|].
    assert (Hq13 : (13 <= q)%N).
    { destruct (N.le_gt_cases 13 q) as [H|H]; [exact H|exfalso].
      unfold valid_date in Hv. cbn [year month day] in Hv.
      pose proof (days_in_month_ge y p).
      repeat match type of Hv with
             | context [(?u <=? ?v)%N] =>
                 let E := fresh in
                 destruct (N.leb_spec u v) as [E|E]; [|lia]
             end.
      discriminate Hv. }
    assert (Hno : strptime (slash_text p q [a; b; c; e]) (str "%d/%m/%Y") = None).
    { eapply strptime_no_match.
      - change (compile (str "%d/%m/%Y"))
          with (Some ([Dir_d; Lit "/"; Dir_m; Lit "/"] ++ [Dir_Y])). reflexivity.
      - rewrite match_items_app, second_month_fails by lia. reflexivity. }
    rewrite Hno, Hlast.
    destruct (N.leb_spec q 12) as [Hq12|_]; [lia|]. cbn [andb]. exact Hfall.
  - assert (Hno : strptime (slash_text p q [a; b; c; e]) (str "%m/%d/%Y") = None).
    { eapply strptime_no_match.
      - change (compile (str "%m/%d/%Y"))
          with (Some ([Dir_m; Lit "/"] ++ [Dir_d; Lit "/"; Dir_Y])). reflexivity.
      - rewrite match_items_app. unfold slash_text.
        cbn [str list_ascii_of_string app].
        rewrite month_prefix_fails by lia. reflexivity. }
    rewrite Hno.
    destruct (N.leb_spec q 12) as [Hq12|Hq12]; cbn [andb].
    + rewrite strptime_day_month by (assumption || lia). rewrite Hval.
      destruct (valid_date (mkdate y q p)); [reflexivity|].
      rewrite Hlast. exact Hfall.
    + assert (Hno' : strptime (slash_text p q [a; b; c; e]) (str "%d/%m/%Y") = None).
      { eapply strptime_no_match.
        - change (compile (str "%d/%m/%Y"))
            with (Some ([Dir_d; Lit "/"; Dir_m; Lit "/"] ++ [Dir_Y])). reflexivity.
        - rewrite match_items_app, second_month_fails by lia. reflexivity. }
      rewrite Hno', Hlast. exact Hfall.
Qed.

Lemma slash_date_reading_witness :
  _standardize_date false (Some (str "03/04/2021")) = Some (str "2021-03-04")
  /\ _standardize_date false (Some (str "25/12/2020")) = Some (str "2020-12-25")
  /\ _standardize_date false (Some (str "02/30/2020")) = Some (str "2020-01-01").
Proof.
  split; [|split].
  - apply (@slash_date_reading false 3 4 2021); lia.
  - apply (@slash_date_reading false 25 12 2020); lia.
  - apply (@slash_date_reading false 2 30 2020); lia.
Defined.

(** ** Titles: what [clean_game_title] returns *)

Lemma strip_lstrip (s : pystr) : strip (lstrip s) = strip s.
Proof. unfold strip. now rewrite lstrip_idem. Qed.

Lemma lstrip_strip (s : pystr) : lstrip (strip s) = strip s.
Proof. unfold strip. apply lstrip_rstrip, lstrip_idem. Qed.

Lemma rstrip_strip (s : pystr) : rstrip (strip s) = strip s.
Proof. unfold strip. apply rstrip_idem. Qed.

(** A stripped string neither starts nor ends with white space. *)
Lemma strip_ends (s : pystr) (c : ascii) (r : pystr) :
  strip s = c :: r ->
  is_space c = false /\ is_space (last (c :: r) c) = false.
Proof.
  intros H. split.
  - pose proof (lstrip_strip s) as Hl. rewrite H in Hl.
    now apply lstrip_fixed in Hl.
  - pose proof (rstrip_strip s) as Hr. rewrite H in Hr. unfold rstrip in Hr.
    apply (f_equal (@rev ascii)) in Hr. rewrite rev_involutive in Hr.
    destruct (rev (c :: r)) as [|x l] eqn:E.
    + apply (f_equal (@length ascii)) in E. rewrite length_rev in E. discriminate E.
    + apply lstrip_fixed in Hr.
      apply (f_equal (@rev ascii)) in E. rewrite rev_involutive in E.
      rewrite E. cbn [rev]. now rewrite last_last.
Qed.

Lemma clean_title_numbering (ds rest : pystr) :
  ds <> [] -> forallb is_digit ds = true ->
  clean_title (ds ++ "."%char :: rest) = strip rest.
Proof.
  intros Hne Hds. unfold clean_title, sub_numbering.
  rewrite span_run by (exact Hds || reflexivity).
  destruct ds as [|d ds]; [contradiction|].
  change (char_eqb "." ".") with true. cbv iota. apply strip_lstrip.
Qed.

(** X5. [clean_game_title] on a string: a title that starts with digits
    and a period loses them and the white space around what follows;
    any other title is only stripped; the result never starts or ends
    with white space, and is no longer than the title. *)
Theorem clean_title_result :
  (forall ds rest : pystr,
      ds <> [] -> forallb is_digit ds = true ->
      clean_game_title (Some (ds ++ str "." ++ rest)) = Some (strip rest))
  /\ (forall s : pystr,
         has_numbering s = false -> clean_game_title (Some s) = Some (strip s))
  /\ (forall s t : pystr,
         clean_game_title (Some s) = Some t ->
         length t <= length s
         /\ forall c r, t = c :: r ->
                        is_space c = false /\ is_space (last t c) = false).
Proof.
  split; [|split].
  - intros ds rest Hne Hds. cbn [clean_game_title option_map str list_ascii_of_string app].
    now rewrite clean_title_numbering.
  - intros s H. cbn [clean_game_title option_map]. unfold clean_title.
    now rewrite sub_numbering_none.
  - intros s t H. cbn [clean_game_title option_map] in H. injection H as <-.
    split.
    + unfold clean_title.
      pose proof (strip_length (sub_numbering s)) as H1.
      destruct (has_numbering s) eqn:Hn.
      * apply sub_numbering_shorter in Hn. lia.
      * now rewrite sub_numbering_none in * by exact Hn.
    + intros c r E. rewrite E. unfold clean_title in E. now apply strip_ends in E.
Qed.

Lemma clean_title_result_witness :
  clean_game_title (Some (str "0042.   Half-Life 2  ")) = Some (str "Half-Life 2")
  /\ clean_game_title (Some (str " 7 Days to Die")) = Some (str "7 Days to Die")
  /\ is_space "H" = false.
Proof.
  destruct clean_title_result as (Hnum & Hplain & Hends). split; [|split].
  - apply (Hnum (str "0042") (str "   Half-Life 2  ")); [discriminate|reflexivity].
  - apply (Hplain (str " 7 Days to Die")). reflexivity.
  - apply (proj2 (Hends (str "0042.   Half-Life 2  ") (str "Half-Life 2") eq_refl)
             "H"%char (str "alf-Life 2") eq_refl).
Defined.

(** ** The merge: the titles and the order of the rows *)

Lemma prepare_metacritic_origin (metacritic_df : list Metacritic.row)
      (g : Metacritic.row) :
  In g (prepare_metacritic metacritic_df) ->
  exists g0 original,
    In g0 metacritic_df /\ Metacritic.title g0 = Some original
    /\ Metacritic.title g = Some (clean_title original)
    /\ clean_title original <> [].
Proof.
  unfold prepare_metacritic. intros H. apply filter_In in H as [H Ht].
  apply in_map_iff in H as (g0 & <- & Hg0).
  cbn [Metacritic.with_title Metacritic.title] in *.
  destruct (Metacritic.title g0) as [original|] eqn:E0; [|discriminate Ht].
  exists g0, original. cbn [clean_game_title option_map] in *.
  split; [exact Hg0|]. split; [exact E0|]. split; [reflexivity|].
  intros E. rewrite E in Ht. discriminate Ht.
Qed.

Lemma prepare_steam_origin (steam_df : list Steam.row) (s : Steam.row) :
  In s (prepare_steam steam_df) ->
  exists s0 original,
    In s0 steam_df /\ Steam.title s0 = Some original
    /\ Steam.title s = Some (clean_title original)
    /\ clean_title original <> [].
Proof.
  unfold prepare_steam. intros H. apply filter_In in H as [H Ht].
  apply in_map_iff in H as (s0 & <- & Hs0).
  cbn [Steam.with_title Steam.title] in *.
  destruct (Steam.title s0) as [original|] eqn:E0; [|discriminate Ht].
  exists s0, original. cbn [clean_game_title option_map] in *.
  split; [exact Hs0|]. split; [exact E0|]. split; [reflexivity|].
  intros E. rewrite E in Ht. discriminate Ht.
Qed.

Lemma add_scores_title (r : merged_row) :
  game_title (add_scores r) = game_title r
  /\ (is_matched r = false -> add_scores r = r).
Proof.
  unfold add_scores.
  destruct (is_matched r), (metascore r), (steam_review_summary r);
    split; try reflexivity; discriminate.
Qed.

Lemma clean_title_stripped (s : pystr) : strip (clean_title s) = clean_title s.
Proof. unfold clean_title. apply strip_idem. Qed.

(** X6. Every row of a returned frame has a title that is not empty and
    has no white space around it: the cleaned title of a record of the
    Metacritic frame for a matched row (never the Steam title of the
    pair), and of a record of one of the two frames for any row. *)
Theorem merged_rows_titles :
  forall metacritic_df steam_df df r,
    merge_datasets metacritic_df steam_df = Returned df -> In r (rows df) ->
    exists original,
      game_title r = Some (clean_title original)
      /\ clean_title original <> []
      /\ strip (clean_title original) = clean_title original
      /\ (In (Some original) (map Metacritic.title metacritic_df)
          \/ (is_matched r = false
              /\ In (Some original) (map Steam.title steam_df))).
Proof.
  intros metacritic_df steam_df df r H Hr.
  destruct (@returned_row_origin metacritic_df steam_df df r H Hr)
    as (r0 & Hr0 & Horigin).
  assert (Ht : game_title r = game_title r0
               /\ (is_matched r0 = false -> is_matched r = false)).
  { destruct Hr0 as [->|[-> _]]; [now split|].
    destruct (add_scores_title r0) as [E1 E2]. split; [exact E1|].
    intros E. now rewrite E2. }
  destruct Ht as [Ht Hm]. rewrite Ht.
  destruct Horigin as [(g & s & c & Hg & _ & ->)|[(g & Hg & ->)|(s & Hs & ->)]].
  - apply prepare_metacritic_origin in Hg as (g0 & original & Hin & E0 & E & Hne).
    exists original. cbn [game_title matched_row]. repeat split; try assumption.
    + apply clean_title_stripped.
    + left. rewrite <- E0. now apply in_map.
  - apply prepare_metacritic_origin in Hg as (g0 & original & Hin & E0 & E & Hne).
    exists original. cbn [game_title unmatched_mc_row]. repeat split; try assumption.
    + apply clean_title_stripped.
    + left. rewrite <- E0. now apply in_map.
  - apply prepare_steam_origin in Hs as (s0 & original & Hin & E0 & E & Hne).
    exists original. cbn [game_title unmatched_steam_row].
    repeat split; try assumption.
    + apply clean_title_stripped.
    + right. split; [now apply Hm|]. rewrite <- E0. now apply in_map.
Qed.

Lemma merged_rows_titles_witness :
  exists original,
    Some (str "Game A") = Some (clean_title original)
    /\ clean_title original <> []
    /\ strip (clean_title original) = clean_title original
    /\ (In (Some original)
          (map Metacritic.title [mc_sample "12.  Game A " None None])
        \/ (true = false
            /\ In (Some original)
                 (map Steam.title [steam_sample "Game A!" None None]))).
Proof.
  refine (@merged_rows_titles [mc_sample "12.  Game A " None None]
            [steam_sample "Game A!" None None] _
            (matched_row
               (Metacritic.with_title (mc_sample "12.  Game A " None None)
                  (text "Game A"))
               (steam_sample "Game A!" None None) _) _ _);
    [vm_compute; reflexivity|left; reflexivity].
Defined.

Lemma matched_rows_titles (metacritic : list Metacritic.row) (steam : list Steam.row) :
  map game_title (matched_rows metacritic steam)
  = map Metacritic.title (filter (has_match steam) metacritic)
  /\ Forall (fun r => is_matched r = true) (matched_rows metacritic steam).
Proof.
  unfold matched_rows, has_match.
  induction metacritic as [|g l [IH1 IH2]]; [split; [reflexivity|constructor]|].
  cbn [flat_map filter].
  destruct (find_best g steam) as [[s|] c]; cbn [app map].
  - split; [now rewrite IH1|]. constructor; [reflexivity|exact IH2].
  - now split.
Qed.

Lemma map_add_scores_unmatched (l : list merged_row) :
  Forall (fun r => is_matched r = false) l -> map add_scores l = l.
Proof.
  induction 1 as [|r l Hr _ IH]; [reflexivity|].
  cbn [map]. rewrite IH. now rewrite (proj2 (add_scores_title r) Hr).
Qed.

(** * Further properties of the matcher *)

(** ** The blocks are common runs *)

Lemma b2j_positions (b : pystr) (c : ascii) (j : nat) :
  In j (b2j b c) -> nth j b Ascii.zero = c.
Proof.
  unfold b2j. destruct (popular b c); [intros []|].
  rewrite indices_from_filter. intros H. apply filter_In in H as [_ H].
  rewrite Nat.sub_0_r in H. now apply char_eqb_eq in H.
Qed.

Section Common.
Variables a b : pystr.
Variables alo ahi blo bhi : nat.

Lemma scan_row_common (i : nat) (m : lenmap) (js : list nat)
      (new : lenmap) (best : block) :
  row_bounded alo blo i m -> runs_end a b i m ->
  (forall j, In j js -> nth j b Ascii.zero = nth i a Ascii.zero) ->
  runs_end a b (S i) new -> common a b best ->
  runs_end a b (S i) (fst (scan_row blo bhi i m js new best))
  /\ common a b (snd (scan_row blo bhi i m js new best)).
Proof.
  intros Hb Hm. revert new best.
  induction js as [|j js IH]; intros new best Hjs Hnew Hbest; cbn [scan_row].
  - now split.
  - assert (Hjs' : forall j0, In j0 js -> nth j0 b Ascii.zero = nth i a Ascii.zero)
      by (intros j0 H0; apply Hjs; now right).
    destruct (j <? blo) eqn:Hj1; [now apply IH|].
    destruct (bhi <=? j) eqn:Hj2; [now split|].
    apply Nat.ltb_ge in Hj1.
    destruct (@prev_len_bounded alo blo i m j Hb Hj1) as [Hk1 Hk2].
    assert (Hrun : forall t, t < prev_len m j + 1 ->
                     nth (i - t) a Ascii.zero = nth (j - t) b Ascii.zero).
    { intros [|t] Ht.
      - rewrite !Nat.sub_0_r. symmetry. apply Hjs. now left.
      - destruct j as [|j']; cbn [prev_len] in Ht; [lia|].
        specialize (Hm j' t ltac:(lia)).
        replace (i - S t) with (i - 1 - t) by lia.
        replace (S j' - S t) with (j' - t) by lia. exact Hm. }
    apply IH; [exact Hjs'| |].
    + intros j0 t. cbn [j2len_get]. destruct (j =? j0) eqn:E.
      * apply Nat.eqb_eq in E. subst j0. intros Ht.
        replace (S i - 1 - t) with (i - t) by lia. now apply Hrun.
      * apply Hnew.
    + destruct best as [[bi bj] bs].
      destruct (bs <? prev_len m j + 1); [|exact Hbest].
      intros t Ht.
      replace (i + 1 - (prev_len m j + 1) + t) with (i - (prev_len m j - t)) by lia.
      replace (j + 1 - (prev_len m j + 1) + t) with (j - (prev_len m j - t)) by lia.
      apply Hrun. lia.
Qed.

Lemma scan_rows_common (len i : nat) (m : lenmap) (best : block) :
  alo <= i -> i + len <= ahi -> row_bounded alo blo i m -> runs_end a b i m ->
  in_window alo ahi blo bhi best -> common a b best ->
  common a b (scan_rows a b blo bhi (seq i len) m best).
Proof.
  revert i m best.
  induction len as [|len IH]; intros i m best Hlo Hhi Hb Hm Hw Hbest;
    cbn [seq scan_rows]; [exact Hbest|].
  assert (Hnil : row_bounded alo blo (S i) []) by (intros j; cbn; lia).
  assert (Hnil' : runs_end a b (S i) []) by (intros j t Ht; cbn in Ht; lia).
  destruct (@scan_row_window alo ahi blo bhi i m (b2j b (nth i a Ascii.zero)) [] best
              Hlo ltac:(lia) Hb Hnil Hw) as [Hb' Hw'].
  destruct (@scan_row_common i m (b2j b (nth i a Ascii.zero)) [] best Hb Hm
              (fun j Hj => b2j_positions _ _ _ Hj) Hnil' Hbest) as [Hm' Hbest'].
  destruct (scan_row blo bhi i m (b2j b (nth i a Ascii.zero)) [] best)
    as [new best'].
  cbn [fst snd] in *. apply IH; try assumption; lia.
Qed.

Lemma extend_back_common (i j k : nat) :
  common a b (i, j, k) -> common a b (extend_back a b alo blo i j k).
Proof.
  revert j k. induction i as [|i IH]; intros j k H; cbn [extend_back];
    [exact H|].
  destruct j as [|j]; [exact H|].
  destruct ((alo <=? i) && (blo <=? j) && _) eqn:Hc; [|exact H].
  apply andb_true_iff in Hc as [_ Hc]. apply char_eqb_eq in Hc.
  apply IH. intros [|t] Ht.
  - now rewrite !Nat.add_0_r.
  - replace (i + S t) with (S i + t) by lia.
    replace (j + S t) with (S j + t) by lia. apply H. lia.
Qed.

Lemma extend_fwd_common (i j fuel k : nat) :
  common a b (i, j, k) -> common a b (i, j, extend_fwd a b bhi i j fuel k).
Proof.
  revert k. induction fuel as [|fuel IH]; intros k H; cbn [extend_fwd];
    [exact H|].
  destruct ((j + k <? bhi) && _) eqn:Hc; [|exact H].
  apply andb_true_iff in Hc as [_ Hc]. apply char_eqb_eq in Hc.
  apply IH. intros t Ht.
  destruct (Nat.eq_dec t k) as [->|Hne]; [exact Hc|]. apply H. lia.
Qed.

(** The block [find_longest_match] returns is a common run. *)
Lemma find_longest_match_common :
  alo <= ahi -> blo <= bhi ->
  common a b (find_longest_match a b alo ahi blo bhi).
Proof.
  intros Ha Hb. unfold find_longest_match.
  assert (H0 : common a b
                 (scan_rows a b blo bhi (seq alo (ahi - alo)) [] (alo, blo, 0))).
  { apply scan_rows_common; try lia.
    - intros j. cbn. lia.
    - intros j t Ht. cbn in Ht. lia.
    - cbn. lia.
    - intros t Ht. lia. }
  destruct (scan_rows a b blo bhi (seq alo (ahi - alo)) [] (alo, blo, 0))
    as [[i0 j0] k0].
  apply extend_back_common in H0.
  destruct (extend_back a b alo blo i0 j0 k0) as [[i1 j1] k1].
  now apply extend_fwd_common.
Qed.
End Common.

Lemma matches_of_app (l1 l2 : list block) :
  matches_of (l1 ++ l2) = matches_of l1 + matches_of l2.
Proof.
  unfold matches_of. induction l1 as [|[[i j] k] l1 IH]; [reflexivity|].
  cbn [app fold_right]. rewrite IH. lia.
Qed.

Lemma queue_within_ok (la lb : nat) (queue : list (nat * nat * nat * nat)) :
  queue_within la lb queue -> queue_ok queue.
Proof.
  unfold queue_within, queue_ok. apply Forall_impl.
  intros [[[alo ahi] blo] bhi]. lia.
Qed.

(** Each turn of the loop of [get_matching_blocks] adds a common run
    taken from a window of the work list, and leaves in the list
    windows that can match no more than the window did. *)
Lemma matching_blocks_sound (a b : pystr) (fuel : nat)
      (queue : list (nat * nat * nat * nat)) (found : list block) :
  queue_within (length a) (length b) queue ->
  Forall (sound_block a b) found ->
  Forall (sound_block a b) (matching_blocks fuel a b queue found)
  /\ matches_of (matching_blocks fuel a b queue found)
     <= matches_of found + queue_room queue.
Proof.
  revert queue found. induction fuel as [|fuel IH]; intros queue found Hq Hf.
  - cbn [matching_blocks]. split; [exact Hf|lia].
  - destruct queue as [|[[[alo ahi] blo] bhi] q]; cbn [matching_blocks].
    + split; [exact Hf|lia].
    + inversion Hq as [|? ? Hw Hq']; subst. cbn in Hw.
      destruct Hw as [[Ha1 Ha2] [Hb1 Hb2]].
      pose proof (@find_longest_match_window a b alo ahi blo bhi Ha1 Hb1) as Hwin.
      pose proof (@find_longest_match_common a b alo ahi blo bhi Ha1 Hb1) as Hcom.
      destruct (find_longest_match a b alo ahi blo bhi) as [[i j] k].
      cbn [in_window] in Hwin. cbn [queue_room].
      destruct (k =? 0) eqn:Hk.
      * destruct (IH q found Hq' Hf) as [IH1 IH2]. split; [exact IH1|lia].
      * apply Nat.eqb_neq in Hk.
        set (q1 := if (alo <? i) && (blo <? j) then (alo, i, blo, j) :: q else q).
        set (q2 := if (i + k <? ahi) && (j + k <? bhi)
                   then (i + k, ahi, j + k, bhi) :: q1 else q1).
        assert (Hq2 : queue_within (length a) (length b) q2).
        { subst q2 q1.
          destruct ((alo <? i) && (blo <? j)), ((i + k <? ahi) && (j + k <? bhi));
            repeat (apply Forall_cons; [cbn; lia|]); exact Hq'. }
        assert (Hroom : queue_room q2 + k
                        <= Nat.min (ahi - alo) (bhi - blo) + queue_room q).
        { subst q2 q1.
          destruct ((alo <? i) && (blo <? j)), ((i + k <? ahi) && (j + k <? bhi));
            cbn [queue_room]; lia. }
        assert (Hf2 : Forall (sound_block a b) (found ++ [(i, j, k)])).
        { apply Forall_app. split; [exact Hf|].
          constructor; [|constructor]. cbn [sound_block].
          repeat split; try lia. exact Hcom. }
        destruct (IH q2 (found ++ [(i, j, k)]) Hq2 Hf2) as [IH1 IH2].
        split; [exact IH1|].
        rewrite matches_of_app in IH2. cbn [matches_of fold_right] in IH2. lia.
Qed.

(** X8. The blocks [SequenceMatcher] counts for [string_similarity] are
    common runs of the two strings, not empty and within them; the
    number of matched characters is at most the length of the shorter
    string, so twice that number is at most the sum of the lengths, the
    denominator of the ratio. *)
Theorem matching_blocks_common (a b : pystr) :
  Forall (sound_block a b) (get_matching_blocks a b)
  /\ matches_of (get_matching_blocks a b) <= Nat.min (length a) (length b)
  /\ 2 * matches_of (get_matching_blocks a b) <= length a + length b
  /\ ratio a b
     = calculate_ratio (matches_of (get_matching_blocks a b)) (length a + length b).
Proof.
  destruct (@matching_blocks_sound a b (S (length a + length b))
              [(0, length a, 0, length b)] []) as [H1 H2].
  - constructor; [cbn; lia|constructor].
  - constructor.
  - fold (get_matching_blocks a b) in H1, H2.
    cbn [matches_of fold_right queue_room] in H2.
    repeat split; try assumption; try reflexivity; lia.
Qed.

(** ** Strings with no character in common *)

Lemma indices_from_absent (c : ascii) (b : pystr) (j : nat) :
  ~ In c b -> indices_from c b j = [].
Proof.
  revert j. induction b as [|x b IH]; intros j H; [reflexivity|].
  cbn [indices_from]. destruct (char_eqb x c) eqn:E.
  - apply char_eqb_eq in E. subst x. exfalso. apply H. now left.
  - apply IH. intros Hin. apply H. now right.
Qed.

Lemma b2j_absent (b : pystr) (c : ascii) : ~ In c b -> b2j b c = [].
Proof.
  intros H. unfold b2j. destruct (popular b c); [reflexivity|].
  now apply indices_from_absent.
Qed.

Lemma scan_rows_absent (a b : pystr) (blo bhi : nat) (rows : list nat)
      (m : lenmap) (best : block) :
  (forall i, In i rows -> ~ In (nth i a Ascii.zero) b) ->
  scan_rows a b blo bhi rows m best = best.
Proof.
  revert m. induction rows as [|i rows IH]; intros m H; [reflexivity|].
  cbn [scan_rows]. rewrite b2j_absent by (apply H; now left).
  cbn [scan_row]. apply IH. intros i' Hi'. apply H. now right.
Qed.

Lemma get_matching_blocks_disjoint (a b : pystr) :
  (forall c, In c a -> ~ In c b) -> get_matching_blocks a b = [].
Proof.
  intros H. unfold get_matching_blocks. cbn [matching_blocks].
  assert (Hf : find_longest_match a b 0 (length a) 0 (length b) = (0, 0, 0)).
  { unfold find_longest_match. rewrite scan_rows_absent.
    - cbn [extend_back]. rewrite Nat.add_0_r, Nat.sub_0_r.
      destruct a as [|x a']; [reflexivity|].
      cbn [length extend_fwd Nat.add]. destruct b as [|y b']; [reflexivity|].
      cbn [nth]. destruct (char_eqb x y) eqn:E; [|now rewrite andb_false_r].
      apply char_eqb_eq in E. subst y. exfalso.
      apply (H x); now left.
    - intros i Hi. apply in_seq in Hi. apply H. apply nth_In. lia. }
  rewrite Hf. cbn [Nat.eqb]. destruct (length a + length b); reflexivity.
Qed.

(** [2.0 * 0 / n] is 0.0. *)
Lemma calculate_ratio_zero (n : nat) :
  0 < n -> (Z.of_nat n < 2 ^ 62)%Z -> calculate_ratio 0 n = 0%float.
Proof.
  intros Hn Hb. unfold calculate_ratio.
  replace (n =? 0) with false by (symmetry; apply Nat.eqb_neq; lia).
  change (2 * float_of_nat 0)%float with 0%float.
  destruct (Z.of_nat n) as [|p|p] eqn:Hp; try lia.
  pose proof (@float_of_nat_spec n ltac:(lia)) as Hx.
  rewrite Hp in Hx. cbn [binary_normalize] in Hx.
  destruct (@binary_round_finite false p Hb) as (m & e & Hr & _).
  rewrite Hr in Hx.
  apply Prim2SF_inj. rewrite div_spec, Hx. reflexivity.
Qed.

Lemma ratio_disjoint (a b : pystr) :
  (forall c, In c a -> ~ In c b) -> 0 < length a + length b ->
  (Z.of_nat (length a + length b) < 2 ^ 62)%Z ->
  ratio a b = 0%float.
Proof.
  intros H Hn Hb. unfold ratio. rewrite get_matching_blocks_disjoint by exact H.
  cbn [fold_right]. now apply calculate_ratio_zero.
Qed.

(** X9. Two strings with no character in common, whatever the case of
    the letters, have a similarity of exactly 0.0 (unless both are
    empty, which makes it 1.0). *)
Theorem string_similarity_disjoint :
  (forall a b : pystr,
      (forall c, In c (lower a) -> ~ In c (lower b)) ->
      a <> [] \/ b <> [] ->
      (Z.of_nat (length a + length b) < 2 ^ 62)%Z ->
      string_similarity (Some a) (Some b) = 0%float)
  /\ string_similarity (Some []) (Some []) = 1%float.
Proof.
  split; [|reflexivity].
  intros a b H Hne Hb. cbn [string_similarity].
  apply ratio_disjoint; rewrite ?lower_length; try assumption.
  destruct Hne as [Hne|Hne]; [destruct a|destruct b];
    try contradiction; cbn [length]; lia.
Qed.

Lemma string_similarity_disjoint_witness :
  string_similarity (Some (str "DOOM")) (Some (str "Stray")) = 0%float.
Proof.
  apply (proj1 string_similarity_disjoint (str "DOOM") (str "Stray")).
  - intros c Hc Hc'. cbn in Hc, Hc'.
    repeat (destruct Hc as [<-|Hc];
            [repeat (destruct Hc' as [Hc'|Hc']; [discriminate Hc'|]);
             exact Hc'|]).
    exact Hc.
  - left. discriminate.
  - cbn. lia.
Defined.

(** ** Equal titles, unrelated developers *)

Lemma str_eqb_neq (x y : pystr) : x <> y -> str_eqb x y = false.
Proof.
  intros H. destruct (str_eqb x y) eqn:E; [|reflexivity].
  apply str_eqb_eq in E. contradiction.
Qed.

Lemma title_similarity_equal (t1 t2 : pystr) :
  lower t1 = lower t2 -> (Z.of_nat (length t1) < 2 ^ 62)%Z ->
  string_similarity (Some t1) (Some t2) = 1%float.
Proof.
  intros Hl Hb. cbn [string_similarity]. rewrite <- Hl.
  apply ratio_self. now rewrite lower_length.
Qed.

(** X10. The developer names decide a match between records with the
    same title (up to case): when both names are given and have no
    character in common, the score is exactly 0.7, which is not above the
    threshold, so the pair is never matched; when a name is missing or
    "N/A" on either side, the score is 1.0 and the pair is matched. *)
Theorem developer_names_decide_match :
  forall (mc : Metacritic.row) (st : Steam.row) (t1 t2 : pystr),
    Metacritic.title mc = Some t1 -> Steam.title st = Some t2 ->
    lower t1 = lower t2 -> (Z.of_nat (length t1) < 2 ^ 62)%Z ->
    (forall d1 d2 : pystr,
        Metacritic.developer mc = Some d1 -> Steam.developer st = Some d2 ->
        d1 <> str "N/A" -> d2 <> str "N/A" ->
        (forall c, In c (lower d1) -> ~ In c (lower d2)) ->
        d1 <> [] \/ d2 <> [] ->
        (Z.of_nat (length d1 + length d2) < 2 ^ 62)%Z ->
        match_score mc st = 0.7%float /\ find_best mc [st] = (None, 0%float))
    /\ (Metacritic.developer mc = None \/ Metacritic.developer mc = Some (str "N/A")
        \/ Steam.developer st = None \/ Steam.developer st = Some (str "N/A") ->
        match_score mc st = 1%float /\ find_best mc [st] = (Some st, 1%float)).
Proof.
  intros mc st t1 t2 Ht1 Ht2 Hl Hb.
  pose proof (@title_similarity_equal t1 t2 Hl Hb) as Hsim.
  split.
  - intros d1 d2 Hd1 Hd2 Hn1 Hn2 Hdis Hne Hdb.
    assert (Hs : match_score mc st = 0.7%float).
    { unfold match_score. rewrite Ht1, Ht2, Hd1, Hd2, Hsim.
      rewrite (@str_eqb_neq _ _ Hn1), (@str_eqb_neq _ _ Hn2). cbn [negb andb].
      assert (Hdev : string_similarity (Some d1) (Some d2) = 0%float).
      { cbn [string_similarity].
        apply ratio_disjoint; rewrite ?lower_length; try assumption.
        destruct Hne as [Hne|Hne]; [destruct d1|destruct d2];
          try contradiction; cbn [length]; lia. }
      rewrite Hdev. reflexivity. }
    split; [exact Hs|].
    unfold find_best. cbn [best_from]. rewrite Hs. reflexivity.
  - intros Hmiss.
    assert (Hs : match_score mc st = 1%float).
    { unfold match_score. rewrite Ht1, Ht2, Hsim.
      destruct Hmiss as [-> | [-> | [-> | ->]]];
        try reflexivity;
        try (destruct (Metacritic.developer mc) as [d|]; [|reflexivity]);
        try (destruct (Steam.developer st) as [d'|]; [|reflexivity]);
        cbn [negb andb]; rewrite ?andb_false_r; reflexivity. }
    split; [exact Hs|].
    unfold find_best. cbn [best_from]. rewrite Hs. reflexivity.
Qed.

Lemma developer_names_decide_match_witness :
  find_best (mc_sample "Portal" (text "Valve") None)
    [steam_sample "PORTAL" (text "XYZQ") None] = (None, 0%float)
  /\ find_best (mc_sample "Portal" (text "Valve") None)
       [steam_sample "PORTAL" None None]
     = (Some (steam_sample "PORTAL" None None), 1%float).
Proof.
  split.
  - refine (proj2 (proj1 (@developer_names_decide_match
                            (mc_sample "Portal" (text "Valve") None)
                            (steam_sample "PORTAL" (text "XYZQ") None)
                            (str "Portal") (str "PORTAL")
                            eq_refl eq_refl eq_refl _)
                     (str "Valve") (str "XYZQ") eq_refl eq_refl _ _ _ _ _)).
    + cbn. lia.
    + discriminate.
    + discriminate.
    + intros c Hc Hc'. cbn in Hc, Hc'.
      repeat (destruct Hc as [<-|Hc];
              [repeat (destruct Hc' as [Hc'|Hc']; [discriminate Hc'|]);
               exact Hc'|]).
      exact Hc.
    + left. discriminate.
    + cbn. lia.
  - refine (proj2 (proj2 (@developer_names_decide_match
                            (mc_sample "Portal" (text "Valve") None)
                            (steam_sample "PORTAL" None None)
                            (str "Portal") (str "PORTAL")
                            eq_refl eq_refl eq_refl _) _)).
    + cbn. lia.
    + right. right. left. reflexivity.
Defined.

(** * Further properties of the pipeline *)

(** ** The titles searched on Steam *)

Lemma unique_from_spec (seen col : list (option pystr)) :
  NoDup (unique_from seen col)
  /\ (forall t, In t (unique_from seen col) <-> In t col /\ ~ In t seen).
Proof.
  revert seen. induction col as [|x col IH]; intros seen; cbn [unique_from].
  - split; [constructor|]. intros t. cbn. tauto.
  - destruct (isin x seen) eqn:Hx.
    + apply isin_In in Hx. destruct (IH seen) as [IH1 IH2]. split; [exact IH1|].
      intros t. rewrite IH2. cbn [In]. split; [tauto|].
      intros [[<-|Ht] Hn]; [contradiction|now split].
    + assert (Hx' : ~ In x seen).
      { intros H. apply isin_In in H. rewrite H in Hx. discriminate Hx. }
      destruct (IH (x :: seen)) as [IH1 IH2]. split.
      * constructor; [|exact IH1]. rewrite IH2. cbn [In]. tauto.
      * intros t. cbn [In]. rewrite IH2. cbn [In].
        destruct (opt_str_eqb t x) eqn:E.
        -- apply opt_str_eqb_eq in E. subst t. split.
           ++ intros _. split; [now left|exact Hx'].
           ++ intros _. now left.
        -- assert (Hne : t <> x).
           { intros ->. rewrite (proj2 (opt_str_eqb_eq x x) eq_refl) in E.
             discriminate E. }
           split.
           ++ intros [E'|[Ht Hn]]; [congruence|]. split; [now right|].
              intros Hs. apply Hn. now right.
           ++ intros [[E'|Ht] Hn]; [congruence|]. right. split; [exact Ht|].
              intros [E'|Hs]; [congruence|contradiction].
Qed.

Lemma slice_to_prefix {A : Type} (l : list A) (stop : Z) :
  exists rest, l = slice_to l stop ++ rest.
Proof.
  unfold slice_to. destruct (0 <=? stop)%Z;
    eexists; symmetry; apply firstn_skipn.
Qed.

(** X11. The titles handed to the Steam scraper are distinct titles of
    the Metacritic file, in the order they first appear there: the first
    [max_titles] of them when the limit is not negative (all of them when
    there are no more than that); with a negative limit the slice drops
    that many titles from the end instead of returning none. *)
Theorem extract_game_titles_result (max_titles : Z) (title : list (option pystr)) :
  let titles := extract_game_titles max_titles title in
  NoDup titles
  /\ (forall t, In t titles -> In t title)
  /\ (exists rest, unique title = titles ++ rest)
  /\ ((0 <= max_titles)%Z ->
      length titles = Nat.min (length (unique title)) (Z.to_nat max_titles))
  /\ ((Z.of_nat (length (unique title)) <= max_titles)%Z ->
      forall t, In t title -> In t titles)
  /\ ((max_titles < 0)%Z ->
      length titles = length (unique title) - Z.to_nat (- max_titles)).
Proof.
  cbv zeta. unfold extract_game_titles.
  destruct (unique_from_spec [] title) as [Hnd Hin]. fold (unique title) in Hnd, Hin.
  destruct (slice_to_prefix (unique title)
              (Z.min (Z.of_nat (length (unique title))) max_titles)) as [rest Hrest].
  set (titles := slice_to (unique title) _) in *.
  split; [|split; [|split; [|split; [|split]]]].
  - rewrite Hrest in Hnd. now apply NoDup_app_remove_r in Hnd.
  - intros t Ht. apply (Hin t). rewrite Hrest. apply in_or_app. now left.
  - now exists rest.
  - intros Hpos. subst titles. unfold slice_to.
    replace (0 <=? Z.min _ max_titles)%Z with true by (symmetry; apply Z.leb_le; lia).
    rewrite length_firstn. lia.
  - intros Hle t Ht. subst titles. unfold slice_to.
    replace (Z.min (Z.of_nat (length (unique title))) max_titles)
      with (Z.of_nat (length (unique title))) by lia.
    replace (0 <=? Z.of_nat _)%Z with true by (symmetry; apply Z.leb_le; lia).
    rewrite Nat2Z.id, firstn_all. apply Hin. split; [exact Ht|intros []].
  - intros Hneg. subst titles. unfold slice_to.
    replace (Z.min (Z.of_nat (length (unique title))) max_titles)
      with max_titles by lia.
    replace (0 <=? max_titles)%Z with false by (symmetry; apply Z.leb_gt; lia).
    rewrite length_firstn. lia.
Qed.

Lemma extract_game_titles_result_witness :
  extract_game_titles 2 [text "Doom"; text "Portal"; text "Doom"; None; text "Stray"]
  = [text "Doom"; text "Portal"]
  /\ length (extract_game_titles (-1)
               [text "Doom"; text "Portal"; text "Doom"; None; text "Stray"])
     = 4 - 1.
Proof.
  split; [reflexivity|].
  apply (proj2 (proj2 (proj2 (proj2 (proj2
           (@extract_game_titles_result (-1)
              [text "Doom"; text "Portal"; text "Doom"; None; text "Stray"])))))).
  reflexivity.
Defined.

(** ** The two validations of the merged file *)

Lemma filter_length_app {A : Type} (f : A -> bool) (l1 l2 : list A) :
  length (filter f (l1 ++ l2)) = length (filter f l1) + length (filter f l2).
Proof. now rewrite filter_app, length_app. Qed.

Lemma filter_length_all {A : Type} (f : A -> bool) (l : list A) :
  Forall (fun x => f x = true) l -> length (filter f l) = length l.
Proof.
  intros H. rewrite filter_all; [reflexivity|].
  now apply Forall_forall.
Qed.

(** A returned frame has the column [is_matched] and a matched row. *)
Lemma returned_frame_matched (metacritic_df : list Metacritic.row)
      (steam_df : list Steam.row) (df : frame) :
  merge_datasets metacritic_df steam_df = Returned df ->
  has_column df "is_matched" = true
  /\ missing_columns df = absent_columns
  /\ 1 <= length (filter is_matched (rows df)).
Proof.
  intros H. apply merge_datasets_returned in H. cbv zeta in H.
  destruct H as [Hne H].
  destruct (matched_rows_titles (prepare_metacritic metacritic_df)
              (prepare_steam steam_df)) as [_ Hm].
  destruct (matched_rows (prepare_metacritic metacritic_df) (prepare_steam steam_df))
    as [|r0 rest] eqn:E; [contradiction|].
  inversion Hm as [|? ? Hr0 _]; subst.
  destruct H as [[_ ->]|[_ ->]]; (split; [reflexivity|split; [reflexivity|]]);
    cbn [rows app map filter].
  - rewrite Hr0. cbn [length]. lia.
  - rewrite (proj1 (add_scores_keeps r0)), Hr0. cbn [length]. lia.
Qed.

(** X12. On a frame the merger returned, the validation of the asset
    [video_games_dataset] never fails on the column [is_matched]; it
    accepts the frame exactly when it has [min_rows] rows and
    [min_matched] matched rows, and always when both minima are at most
    1; the op [validate_data] rejects the same frame whatever the
    minima, so the two validations of the pipeline disagree on every
    frame the asset accepts. *)
Theorem dataset_check_on_merged :
  forall metacritic_df steam_df df cfg,
    merge_datasets metacritic_df steam_df = Returned df ->
    video_games_dataset_check cfg df <> NoMatchedColumn
    /\ (video_games_dataset_check cfg df = Accepted <->
        (min_rows cfg <= Z.of_nat (length (rows df)))%Z
        /\ (min_matched cfg <= Z.of_nat (length (filter is_matched (rows df))))%Z)
    /\ ((min_rows cfg <= 1)%Z -> (min_matched cfg <= 1)%Z ->
        video_games_dataset_check cfg df = Accepted)
    /\ validate_data cfg df = false.
Proof.
  intros metacritic_df steam_df df cfg H.
  destruct (returned_frame_matched _ _ H) as (Hcol & Hmiss & Hone).
  assert (Hrows : 1 <= length (rows df)).
  { pose proof (filter_length_le is_matched (rows df)). lia. }
  unfold video_games_dataset_check, validate_data. rewrite Hcol, Hmiss.
  cbn [negb].
  destruct (Z.ltb_spec (Z.of_nat (length (rows df))) (min_rows cfg));
    destruct (Z.ltb_spec (Z.of_nat (length (filter is_matched (rows df))))
                (min_matched cfg));
    repeat split; try discriminate; try reflexivity; try lia;
    intros; try discriminate; try lia.
Qed.

Lemma dataset_check_on_merged_witness :
  exists df,
    merge_datasets [mc_sample "Game A" None None] [steam_sample "Game A" None None]
    = Returned df
    /\ video_games_dataset_check {| min_rows := 1; min_matched := 1 |} df = Accepted
    /\ validate_data {| min_rows := 1; min_matched := 1 |} df = false.
Proof.
  eexists. split; [vm_compute; reflexivity|].
  match goal with
  | |- video_games_dataset_check ?cfg ?df = _ /\ _ =>
      destruct (@dataset_check_on_merged
                  [mc_sample "Game A" None None] [steam_sample "Game A" None None]
                  df cfg) as (_ & _ & Hacc & Hrej);
      [vm_compute; reflexivity|]
  end.
  split; [apply Hacc; cbn; lia|exact Hrej].
Defined.

(** ** Dates written with the name of the month *)

Lemma named_cases_ok (a b c e : ascii) :
  forallb (named_case_ok [a; b; c; e]) named_cases = true.
Proof. vm_compute. reflexivity. Qed.

(** What a piece of a pattern leaves is an end of what it was given. *)
Lemma match_spaces_suffix (s r : pystr) :
  In r (match_spaces s) -> exists p, s = p ++ r.
Proof.
  revert r. induction s as [|c s IH]; intros r H; [destruct H|].
  cbn [match_spaces] in H. destruct (is_space c); [|destruct H].
  apply in_app_iff in H as [H|[<-|[]]].
  - destruct (IH r H) as [p ->]. now exists (c :: p).
  - now exists [c].
Qed.

Lemma prefix_ci_suffix (name s r : pystr) :
  prefix_ci name s = Some r -> exists p, s = p ++ r.
Proof.
  revert s. induction name as [|n name IH]; intros s H; cbn [prefix_ci] in H.
  - injection H as <-. now exists [].
  - destruct s as [|c s]; [discriminate H|].
    destruct (char_eqb (lower_char c) n); [|discriminate H].
    destruct (IH s H) as [p ->]. now exists (c :: p).
Qed.

Lemma match_names_suffix (names : list (pystr * N)) (s r : pystr) (m : N) :
  In (m, r) (match_names names s) -> exists p, s = p ++ r.
Proof.
  unfold match_names. intros H. apply in_flat_map in H as ([name m'] & _ & H).
  destruct (prefix_ci name s) as [r'|] eqn:E; [|destruct H].
  destruct H as [H|[]]. injection H as <- <-. now apply prefix_ci_suffix in E.
Qed.

Ltac suffix_cases H :=
  repeat (apply in_app_iff in H as [H|H]);
  repeat match type of H with
         | In _ (match ?s with _ => _ end) => destruct s as [|?x ?s]; [destruct H|]
         | In _ (if ?c then _ else _) => destruct c; [|destruct H]
         end;
  try (destruct H as [H|[]]; injection H as <- <-).

Lemma match_d_suffix (s r : pystr) (n : N) :
  In (n, r) (match_d s) -> exists p, s = p ++ r.
Proof.
  unfold match_d. intros H.
  destruct s as [|a [|b s]]; cbn in H.
  - destruct H.
  - repeat (destruct H as [H|H] || destruct H); suffix_cases H.
    all: try (now exists [a]).
  - suffix_cases H; try (now exists [a; b]); now exists [a].
Qed.

Lemma match_m_suffix (s r : pystr) (n : N) :
  In (n, r) (match_m s) -> exists p, s = p ++ r.
Proof.
  unfold match_m. intros H.
  destruct s as [|a [|b s]]; cbn in H.
  - destruct H.
  - repeat (destruct H as [H|H] || destruct H); suffix_cases H.
    all: try (now exists [a]).
  - suffix_cases H; try (now exists [a; b]); now exists [a].
Qed.

Lemma match_Y_suffix (s r : pystr) (n : N) :
  In (n, r) (match_Y s) -> exists p, s = p ++ r.
Proof.
  unfold match_Y. intros H.
  destruct s as [|a [|b [|c [|d s]]]]; try destruct H.
  destruct (_ && _); [|destruct H].
  destruct H as [H|[]]. injection H as <- <-. now exists [a; b; c; d].
Qed.

Lemma match_item_suffix (it : item) (acc d : date) (s r : pystr) :
  In (d, r) (match_item it acc s) -> exists p, s = p ++ r.
Proof.
  destruct it; cbn [match_item]; intros H.
  - destruct s as [|x s]; [destruct H|].
    destruct (char_eqb _ _); [|destruct H].
    destruct H as [H|[]]. injection H as <- <-. now exists [x].
  - apply in_map_iff in H as (r' & E & H). injection E as <- <-.
    now apply match_spaces_suffix.
  - apply in_map_iff in H as ([m r'] & E & H). injection E as <- <-.
    now apply match_names_suffix in H.
  - apply in_map_iff in H as ([m r'] & E & H). injection E as <- <-.
    now apply match_names_suffix in H.
  - apply in_map_iff in H as ([m r'] & E & H). injection E as <- <-.
    now apply match_d_suffix in H.
  - apply in_map_iff in H as ([m r'] & E & H). injection E as <- <-.
    now apply match_m_suffix in H.
  - apply in_map_iff in H as ([m r'] & E & H). injection E as <- <-.
    now apply match_Y_suffix in H.
Qed.

Lemma match_items_suffix (its : list item) (acc d : date) (s r : pystr) :
  In (d, r) (match_items its acc s) -> exists p, s = p ++ r.
Proof.
  revert acc s. induction its as [|it its IH]; intros acc s H; cbn [match_items] in H.
  - destruct H as [H|[]]. injection H as <- <-. now exists [].
  - apply in_flat_map in H as ([acc' r'] & H1 & H2).
    apply match_item_suffix in H1 as [p1 ->].
    apply IH in H2 as [p2 ->]. exists (p1 ++ p2). now rewrite app_assoc.
Qed.

(** Two ends of a string of the same length are the same end. *)
Lemma suffix_by_length {A : Type} (p p' r r' : list A) :
  p ++ r = p' ++ r' -> length r = length r' -> r = r'.
Proof.
  intros H Hl.
  assert (Hp : length p = length p').
  { apply (f_equal (@length A)) in H. rewrite !length_app in H. lia. }
  apply (f_equal (skipn (length p))) in H.
  rewrite skipn_app, skipn_all, Nat.sub_diag in H. rewrite Hp in H.
  rewrite skipn_app, skipn_all, Nat.sub_diag in H. exact H.
Qed.

Lemma first_live_In (results : list (date * pystr)) (d : date) (r : pystr) :
  first_live results = Some (d, r) -> In (d, r) results.
Proof.
  induction results as [|[d' r'] l IH]; cbn [first_live]; [discriminate|].
  destruct r' as [|x r'].
  - intros H. right. now apply IH.
  - destruct (is_space x).
    + intros H. injection H as <- <-. now left.
    + intros H. right. now apply IH.
Qed.

(** White space and a year, after a partial match. *)
Lemma year_after_dead (acc : date) (r : pystr) :
  match r with x :: _ => is_space x = false | [] => True end ->
  match_items [Spaces; Dir_Y] acc r = [].
Proof.
  intros H. cbn [match_items match_item].
  destruct r as [|x r]; [reflexivity|]. cbn [match_spaces]. now rewrite H.
Qed.

Lemma year_after_space (acc : date) (a b c e : ascii) :
  is_digit a = true -> is_digit b = true -> is_digit c = true ->
  is_digit e = true ->
  match_items [Spaces; Dir_Y] acc (" "%char :: [a; b; c; e])
  = [(set_year acc (val4 a b c e), [])].
Proof.
  intros Ha Hb Hc He. cbn [match_items match_item match_spaces].
  change (is_space " ") with true. cbv iota.
  rewrite (@digit_not_space _ Ha). cbn [app map flat_map match_Y].
  rewrite Ha, Hb, Hc, He. reflexivity.
Qed.

Lemma flat_map_first_live (results : list (date * pystr)) :
  match first_live results with
  | None =>
      flat_map (fun '(acc, r) => match_items [Spaces; Dir_Y] acc r) results = []
  | Some (d, r) =>
      exists rest,
        flat_map (fun '(acc, r) => match_items [Spaces; Dir_Y] acc r) results
        = match_items [Spaces; Dir_Y] d r ++ rest
  end.
Proof.
  induction results as [|[d r] l IH]; cbn [first_live flat_map]; [reflexivity|].
  destruct r as [|x r].
  - rewrite year_after_dead by exact I. exact IH.
  - destruct (is_space x) eqn:Hx.
    + eexists. reflexivity.
    + rewrite year_after_dead by exact Hx. exact IH.
Qed.

Lemma named_formats_compile (fmt : pystr) :
  In fmt named_formats ->
  compile fmt = Some (format_prefix fmt ++ [Spaces; Dir_Y])
  /\ str_eqb fmt (str "%Y") = false.
Proof.
  intros H. cbn in H.
  repeat (destruct H as [<-|H]; [split; reflexivity|]). destruct H.
Qed.

(** The formats tried in order, on a text that ends with a space and
    the four digits of a year. *)
Lemma chain_parses (pads : bool) (fmts rest : list pystr) (p : pystr)
      (a b c e : ascii) (m d : N) :
  (forall fmt, In fmt fmts -> In fmt named_formats) ->
  chain_ok fmts p [a; b; c; e] m d = true ->
  is_digit a = true -> is_digit b = true -> is_digit c = true ->
  is_digit e = true ->
  valid_date (mkdate (val4 a b c e) m d) = true ->
  try_formats pads (fmts ++ rest) (p ++ " "%char :: [a; b; c; e])
  = Some (strftime_iso pads (mkdate (val4 a b c e) m d)).
Proof.
  intros Hin Hok Ha Hb Hc He Hv.
  induction fmts as [|fmt fmts IH]; [discriminate Hok|].
  destruct (@named_formats_compile fmt (Hin fmt (or_introl eq_refl))) as [Hcomp Hnot].
  cbn [chain_ok] in Hok. cbn [app try_formats].
  pose proof (flat_map_first_live
                (match_items (format_prefix fmt) default_date
                   (p ++ " "%char :: [a; b; c; e]))) as Hlive.
  assert (Hitems : match_items (format_prefix fmt ++ [Spaces; Dir_Y]) default_date
                     (p ++ " "%char :: [a; b; c; e])
                   = flat_map (fun '(acc, r) => match_items [Spaces; Dir_Y] acc r)
                       (match_items (format_prefix fmt) default_date
                          (p ++ " "%char :: [a; b; c; e])))
    by apply match_items_app.
  destruct (first_live _) as [[dt r]|] eqn:Hfl.
  - apply andb_true_iff in Hok as [Hok Hlen].
    apply andb_true_iff in Hok as [Hok Hy].
    apply andb_true_iff in Hok as [Hm Hd].
    apply N.eqb_eq in Hm, Hd, Hy. apply Nat.eqb_eq in Hlen.
    apply first_live_In in Hfl. apply match_items_suffix in Hfl as [q Hq].
    assert (Hr : r = " "%char :: [a; b; c; e]).
    { symmetry. eapply suffix_by_length; [exact Hq|]. now rewrite Hlen. }
    subst r. destruct Hlive as [more Hmore].
    rewrite year_after_space in Hmore by assumption.
    unfold strptime. rewrite Hcomp, Hitems, Hmore. cbn [app].
    assert (Hdt : set_year dt (val4 a b c e) = mkdate (val4 a b c e) m d).
    { destruct dt as [y0 m0 d0]. cbn in *. now subst. }
    rewrite Hdt, Hv, Hnot. reflexivity.
  - assert (Hnone : strptime (p ++ " "%char :: [a; b; c; e]) fmt = None).
    { unfold strptime. now rewrite Hcomp, Hitems, Hlive. }
    rewrite Hnone. apply IH; [|exact Hok].
    intros f Hf. apply Hin. now right.
Qed.

Lemma named_case_In (k : nat) (padded : bool) (m d : N) :
  k < 8 -> (1 <= m <= 12)%N -> (1 <= d <= 31)%N ->
  In (k, padded, m, d) named_cases.
Proof.
  intros Hk Hm Hd. unfold named_cases.
  apply in_flat_map. exists k. split; [apply in_seq; lia|].
  apply in_flat_map. exists padded. split; [destruct padded; cbn; auto|].
  apply in_flat_map. exists m. split; [apply in_N_seq; lia|].
  apply in_map. apply in_N_seq. lia.
Qed.

Lemma strip_plain (x e : ascii) (mid : pystr) :
  is_space x = false -> is_space e = false ->
  strip (x :: mid ++ [e]) = x :: mid ++ [e].
Proof.
  intros Hx He. unfold strip. rewrite lstrip_head by exact Hx.
  unfold rstrip. change (x :: mid ++ [e]) with ((x :: mid) ++ [e]).
  rewrite rev_app_distr. cbn [rev app]. rewrite lstrip_head by exact He.
  change (e :: rev mid ++ [x]) with ([e] ++ rev (x :: mid)).
  rewrite rev_app_distr, rev_involutive. reflexivity.
Qed.

(** X13. Every date of the calendar (from the year 1000 on) written
    with the name of its month, in any of the eight ways the table of
    formats lists ("Jan 5, 2020", "January 5, 2020", "5 Jan, 2020",
    "5 January, 2020", "5 Jan 2020", "5 January 2020", "Jan 5 2020",
    "January 5 2020"), the day with or without a leading zero, is
    standardized to its text [YYYY-MM-DD]. *)
Theorem named_month_dates (pads : bool) (k : nat) (padded : bool) (dt : date) :
  k < 8 -> valid_date dt = true -> (1000 <= year dt)%N ->
  _standardize_date pads (Some (named_date k padded dt))
  = Some (strftime_iso pads dt).
Proof.
  intros Hk Hv Hy. destruct (@valid_date_bounds dt Hv) as (Hyb & Hmb & Hdb).
  destruct dt as [y m d]. cbn [year month day] in *.
  destruct (@year_text y) as (a & b & c & e & Ht & Ha & Hb & Hc & He & Hval); [lia|].
  pose proof (proj1 (forallb_forall _ _) (named_cases_ok a b c e)
                (k, padded, m, d) (named_case_In padded Hk Hmb Hdb)) as Hcase.
  unfold named_case_ok in Hcase.
  apply andb_true_iff in Hcase as [Hcase Hfirst].
  apply andb_true_iff in Hcase as [Hcase Hnp].
  apply andb_true_iff in Hcase as [Hchain Hph].
  apply negb_true_iff in Hph.
  unfold named_date. cbn [year month day]. rewrite Ht.
  cbn [str list_ascii_of_string app].
  remember (named_prefix k padded m d) as p eqn:Hp in *. clear Hp.
  unfold _standardize_date. rewrite Hph.
  assert (Hsp : sub_parens (p ++ " "%char :: [a; b; c; e])
                = p ++ " "%char :: [a; b; c; e]).
  { apply sub_parens_id. unfold no_paren in *. rewrite forallb_app, Hnp.
    cbn [forallb].
    rewrite (@digit_not_paren _ Ha), (@digit_not_paren _ Hb),
      (@digit_not_paren _ Hc), (@digit_not_paren _ He). reflexivity. }
  rewrite Hsp.
  assert (Hst : strip (p ++ " "%char :: [a; b; c; e])
                = p ++ " "%char :: [a; b; c; e]).
  { destruct p as [|x p']; [discriminate Hfirst|].
    apply negb_true_iff in Hfirst.
    replace ((x :: p') ++ " "%char :: [a; b; c; e])
      with (x :: (p' ++ " "%char :: [a; b; c]) ++ [e])
      by (cbn [app]; now rewrite <- app_assoc).
    apply strip_plain; [exact Hfirst|now apply digit_not_space]. }
  rewrite Hst.
  change date_formats with (named_formats ++ skipn 8 date_formats).
  rewrite (@chain_parses pads named_formats (skipn 8 date_formats) p a b c e m d);
    try assumption.
  - now rewrite Hval.
  - auto.
  - now rewrite Hval.
Qed.

Lemma named_month_dates_witness :
  _standardize_date false (Some (str "September 07, 2021")) = Some (str "2021-09-07")
  /\ _standardize_date false (Some (str "29 Feb 2024")) = Some (str "2024-02-29").
Proof.
  split.
  - apply (@named_month_dates false 1 true (mkdate 2021 9 7)); [lia|reflexivity|cbn; lia].
  - apply (@named_month_dates false 4 false (mkdate 2024 2 29)); [lia|reflexivity|cbn; lia].
Defined.

(** * Further properties of the scrapers *)

(** ** Records *)

Lemma has_key_In (fieldnames : list string) (k : string) :
  has_key fieldnames k = true <-> In k fieldnames.
Proof.
  unfold has_key. rewrite existsb_exists. split.
  - intros (x & Hx & E). apply String.eqb_eq in E. now subst.
  - intros H. exists k. split; [exact H|apply String.eqb_refl].
Qed.

Lemma dict_to_list_ok (fieldnames : list string) (row : record) :
  incl (keys row) fieldnames ->
  dict_to_list fieldnames row
  = Some (map (fun k => match dict_get row k with
                        | Some v => v
                        | None => VStr []
                        end) fieldnames).
Proof.
  intros H. unfold dict_to_list.
  destruct (filter _ (keys row)) as [|k l] eqn:E; [reflexivity|].
  assert (Hk : In k (filter (fun k => negb (has_key fieldnames k)) (keys row)))
    by (rewrite E; now left).
  apply filter_In in Hk as [Hk Hn]. apply negb_true_iff in Hn.
  rewrite (proj2 (has_key_In fieldnames k) (H k Hk)) in Hn. discriminate Hn.
Qed.

Lemma cell_of_row (fieldnames : list string) (f : string -> value) (k : string) :
  In k fieldnames -> cell fieldnames (map f fieldnames) k = Some (f k).
Proof.
  unfold cell. induction fieldnames as [|x l IH]; intros H; [destruct H|].
  cbn [map combine dict_get]. destruct (String.eqb x k) eqn:E.
  - apply String.eqb_eq in E. now subst.
  - destruct H as [->|H]; [now rewrite String.eqb_refl in E|now apply IH].
Qed.

Lemma writerows_ok (fieldnames : list string) (rows : list record) :
  (forall row, In row rows -> incl (keys row) fieldnames) ->
  writerows fieldnames rows
  = (map (fun row => map (fun k => match dict_get row k with
                                   | Some v => v
                                   | None => VStr []
                                   end) fieldnames) rows, false).
Proof.
  induction rows as [|row rest IH]; intros H; [reflexivity|].
  cbn [writerows map]. rewrite dict_to_list_ok by (apply H; now left).
  rewrite IH by (intros r Hr; apply H; now right). reflexivity.
Qed.

(** ** The file of the Metacritic scraper *)

Lemma basic_record (g : record) :
  keys g = basic_keys ->
  exists v1 v2 v3 v4 v5,
    g = [("title", v1); ("url", v2); ("metascore", v3); ("platform", v4);
         ("release_date", v5)]%string.
Proof.
  unfold keys, basic_keys. intros H.
  destruct g as [|[k1 v1] [|[k2 v2] [|[k3 v3] [|[k4 v4] [|[k5 v5] [|x g]]]]]];
    try discriminate H.
  cbn in H. injection H as -> -> -> -> ->. now exists v1, v2, v3, v4, v5.
Qed.

Section MetacriticFile.
Variable world : Type.
Variable fetch_details :
  world -> record -> world * option (pystr * pystr * pystr * pystr * pystr * pystr).

(** Each record of the result is the record of the list at the same
    place, with the six fields of its page added after its own when the
    page was fetched. *)
Lemma get_game_details_records (games_list : list record) (w : world) :
  (forall g, In g games_list -> keys g = basic_keys) ->
  Forall2 (fun g d =>
             (keys d = basic_keys \/ keys d = basic_keys ++ detail_keys)
             /\ forall k, In k basic_keys -> dict_get d k = dict_get g k)
    games_list (snd (metacritic_get_game_details fetch_details games_list w)).
Proof.
  revert w. induction games_list as [|g rest IH]; intros w H;
    cbn [metacritic_get_game_details]; [constructor|].
  destruct (fetch_details w g) as [w1 page].
  specialize (IH w1 (fun g' Hg' => H g' (or_intror Hg'))).
  destruct (metacritic_get_game_details fetch_details rest w1) as [w2 out].
  cbn [snd] in *. constructor; [|exact IH].
  destruct (@basic_record g (H g (or_introl eq_refl)))
    as (v1 & v2 & v3 & v4 & v5 & ->).
  destruct page as [[[[[[us cc] uc] dev] pub] gen]|].
  - split; [right; reflexivity|].
    intros k Hk. cbn in Hk.
    repeat (destruct Hk as [<-|Hk]; [reflexivity|]). destruct Hk.
  - split; [left; reflexivity|]. reflexivity.
Qed.
End MetacriticFile.

Lemma longest_keys_covers (games : list record) (fieldnames : list string) :
  (forall g, In g games ->
             keys g = basic_keys \/ keys g = basic_keys ++ detail_keys) ->
  fieldnames = [] \/ fieldnames = basic_keys
  \/ fieldnames = basic_keys ++ detail_keys ->
  (longest_keys games fieldnames = fieldnames
   \/ longest_keys games fieldnames = basic_keys
   \/ longest_keys games fieldnames = basic_keys ++ detail_keys)
  /\ incl fieldnames (longest_keys games fieldnames)
  /\ forall g, In g games -> incl (keys g) (longest_keys games fieldnames).
Proof.
  revert fieldnames. induction games as [|g rest IH]; intros fieldnames H Hf.
  - cbn [longest_keys]. split; [now left|]. split; [apply incl_refl|intros g []].
  - assert (Hrest : forall g', In g' rest ->
              keys g' = basic_keys \/ keys g' = basic_keys ++ detail_keys)
      by (intros g' Hg'; apply H; now right).
    assert (Hsub : incl basic_keys (basic_keys ++ detail_keys))
      by (apply incl_appl, incl_refl).
    assert (Hnil : forall l : list string, incl [] l) by (intros l k []).
    pose proof (IH basic_keys Hrest (or_intror (or_introl eq_refl)))
      as (Hb1 & Hb2 & Hb3).
    pose proof (IH (basic_keys ++ detail_keys) Hrest (or_intror (or_intror eq_refl)))
      as (Hf1 & Hf2 & Hf3).
    cbn [longest_keys].
    destruct (H g (or_introl eq_refl)) as [Hg|Hg]; rewrite Hg;
      destruct Hf as [->|[->| ->]];
      match goal with
      | |- context [if ?c then _ else _] =>
          let b := eval vm_compute in c in change c with b; cbv iota
      end.
    + split; [tauto|]. split; [apply Hnil|].
      intros g' [<-|Hg']; [now rewrite Hg|now apply Hb3].
    + split; [tauto|]. split; [exact Hb2|].
      intros g' [<-|Hg']; [now rewrite Hg|now apply Hb3].
    + split; [tauto|]. split; [exact Hf2|].
      intros g' [<-|Hg']; [|now apply Hf3].
      rewrite Hg. intros k Hk. apply Hf2, Hsub, Hk.
    + split; [tauto|]. split; [apply Hnil|].
      intros g' [<-|Hg']; [now rewrite Hg|now apply Hf3].
    + split; [tauto|]. split; [intros k Hk; apply Hf2, Hsub, Hk|].
      intros g' [<-|Hg']; [now rewrite Hg|now apply Hf3].
    + split; [tauto|]. split; [exact Hf2|].
      intros g' [<-|Hg']; [now rewrite Hg|now apply Hf3].
Qed.

Lemma Forall2_nth_error {A B : Type} (R : A -> B -> Prop) (l : list A) (l' : list B)
      (i : nat) (x : A) (y : B) :
  Forall2 R l l' -> nth_error l i = Some x -> nth_error l' i = Some y -> R x y.
Proof.
  intros H. revert i. induction H as [|a b l l' Hab _ IH]; intros [|i] Hx Hy;
    try discriminate.
  - cbn in Hx, Hy. injection Hx as <-. injection Hy as <-. exact Hab.
  - cbn in Hx, Hy. eapply IH; eassumption.
Qed.

(** X14. Records that could not be completed never break the file of
    the Metacritic scraper: whatever the site answers, [get_game_details]
    returns one record for each record of the list, in order, and
    [save_to_csv] writes them all without a [ValueError]; the header is
    the five keys of the list, followed by the six keys of the details
    when some page was fetched, and the cells of a line under the five
    keys are the values of the record of the list. *)
Theorem metacritic_file_complete :
  forall (world : Type)
         (fetch_details :
            world -> record -> world * option (pystr * pystr * pystr * pystr * pystr * pystr))
         (games_list : list record) (w : world),
    (forall g, In g games_list -> keys g = basic_keys) ->
    let detailed_games :=
      snd (metacritic_get_game_details fetch_details games_list w) in
    let file := metacritic_save_to_csv detailed_games in
    length detailed_games = length games_list
    /\ raised file = false
    /\ length (lines file) = length games_list
    /\ (header file = [] \/ header file = basic_keys
        \/ header file = basic_keys ++ detail_keys)
    /\ forall i g line k,
        nth_error games_list i = Some g -> nth_error (lines file) i = Some line ->
        In k basic_keys -> cell (header file) line k = dict_get g k.
Proof.
  intros world fetch_details games_list w H. cbv zeta.
  pose proof (@get_game_details_records world fetch_details games_list w H) as HF.
  set (detailed := snd (metacritic_get_game_details fetch_details games_list w)) in *.
  assert (Hlen : length detailed = length games_list)
    by (symmetry; eapply Forall2_length; exact HF).
  assert (Hkeys : forall d, In d detailed ->
            keys d = basic_keys \/ keys d = basic_keys ++ detail_keys).
  { intros d Hd. apply In_nth_error in Hd as [i Hi].
    destruct (nth_error games_list i) as [g|] eqn:Hg.
    - exact (proj1 (Forall2_nth_error i HF Hg Hi)).
    - apply nth_error_None in Hg.
      assert (i < length detailed) by (apply nth_error_Some; congruence). lia. }
  destruct (@longest_keys_covers detailed [] Hkeys (or_introl eq_refl))
    as (Hshape & _ & Hcover).
  unfold metacritic_save_to_csv, write_csv.
  rewrite writerows_ok by exact Hcover. cbn [header lines raised].
  split; [exact Hlen|]. split; [reflexivity|].
  split; [now rewrite length_map|]. split; [exact Hshape|].
  intros i g line k Hg Hline Hk.
  rewrite nth_error_map in Hline.
  destruct (nth_error detailed i) as [d|] eqn:Hd; [|discriminate Hline].
  cbn [option_map] in Hline. injection Hline as <-.
  destruct (Forall2_nth_error i HF Hg Hd) as [Hdk Hsame].
  assert (Hin : In k (longest_keys detailed [])).
  { apply (Hcover d); [eapply nth_error_In; exact Hd|].
    destruct Hdk as [-> | ->]; [exact Hk|apply in_or_app; now left]. }
  rewrite cell_of_row by exact Hin.
  rewrite (Hsame k Hk).
  destruct (@basic_record g (H g (nth_error_In _ _ Hg)))
    as (v1 & v2 & v3 & v4 & v5 & ->).
  cbn in Hk. repeat (destruct Hk as [<-|Hk]; [reflexivity|]). destruct Hk.
Qed.

Lemma metacritic_file_complete_witness :
  let games_list :=
    [[("title", VStr (str "Doom")); ("url", VStr (str "N/A"));
      ("metascore", VStr (str "85")); ("platform", VStr (str "PC"));
      ("release_date", VStr (str "2016"))];
     [("title", VStr (str "Portal")); ("url", VStr (str "https://m/portal"));
      ("metascore", VStr (str "90")); ("platform", VStr (str "PC"));
      ("release_date", VStr (str "2007"))]]%string in
  let fetch_details :=
    fun (w : nat) (g : record) =>
      (S w, if Nat.even w then None
            else Some (str "8.9", str "27", str "1,024", str "Valve", str "Valve",
                       str "Puzzle")) in
  raised (metacritic_save_to_csv
            (snd (metacritic_get_game_details fetch_details games_list 0))) = false
  /\ header (metacritic_save_to_csv
               (snd (metacritic_get_game_details fetch_details games_list 0)))
     = basic_keys ++ detail_keys.
Proof.
  intros games_list fetch_details. split; [|reflexivity].
  apply (@metacritic_file_complete nat fetch_details games_list 0).
  intros g [<-|[<-|[]]]; reflexivity.
Defined.

(** ** The file of the Steam scraper *)

Lemma insert_key_In (k x : string) (l : list string) :
  In x (insert_key k l) <-> x = k \/ In x l.
Proof.
  induction l as [|y l IH]; cbn [insert_key].
  - cbn. intuition.
  - destruct (String.leb k y); cbn [In]; [intuition|]. rewrite IH. intuition.
Qed.

Lemma insert_key_sorted (k : string) (l : list string) :
  Sorted (fun a b => String.leb a b = true) l ->
  Sorted (fun a b => String.leb a b = true) (insert_key k l).
Proof.
  induction 1 as [|y l Hl IH Hy]; cbn [insert_key].
  - repeat constructor.
  - destruct (String.leb k y) eqn:E.
    + constructor; [now constructor|]. now constructor.
    + assert (Hyk : String.leb y k = true).
      { destruct (String.leb_total k y) as [H|H]; [congruence|exact H]. }
      constructor; [exact IH|].
      destruct l as [|z l]; cbn [insert_key]; [now constructor|].
      destruct (String.leb k z); constructor; [exact Hyk|].
      now inversion Hy.
Qed.

Lemma insert_key_NoDup (k : string) (l : list string) :
  ~ In k l -> NoDup l -> NoDup (insert_key k l).
Proof.
  intros Hk Hl. induction Hl as [|y l Hy Hl IH]; cbn [insert_key].
  - repeat constructor. intros [].
  - destruct (String.leb k y).
    + constructor; [exact Hk|now constructor].
    + constructor.
      * rewrite insert_key_In. intros [->|H]; [apply Hk; now left|contradiction].
      * apply IH. intros H. apply Hk. now right.
Qed.

Lemma sorted_spec (l : list string) :
  NoDup l ->
  Sorted (fun a b => String.leb a b = true) (sorted l)
  /\ NoDup (sorted l)
  /\ forall k, In k (sorted l) <-> In k l.
Proof.
  unfold sorted. induction 1 as [|x l Hx Hl (IH1 & IH2 & IH3)]; cbn [fold_right].
  - repeat split; try constructor; auto.
  - split; [now apply insert_key_sorted|]. split.
    + apply insert_key_NoDup; [now rewrite IH3|exact IH2].
    + intros k. rewrite insert_key_In, IH3. cbn [In]. intuition.
Qed.

Lemma dict_get_In (d : record) (k : string) (v : value) :
  dict_get d k = Some v -> In k (keys d).
Proof.
  induction d as [|[k' v'] d IH]; cbn [dict_get keys map fst]; [discriminate|].
  destruct (String.eqb k' k) eqn:E.
  - apply String.eqb_eq in E. now left.
  - intros H. right. now apply IH.
Qed.

Lemma dict_get_set (d : record) (k k' : string) (v : value) :
  dict_get (dict_set d k v) k'
  = if String.eqb k k' then Some v else dict_get d k'.
Proof.
  induction d as [|[x vx] d IH]; cbn [dict_set dict_get].
  - reflexivity.
  - destruct (String.eqb x k) eqn:E; cbn [dict_get].
    + apply String.eqb_eq in E. subst x. now destruct (String.eqb k k').
    + rewrite IH. destruct (String.eqb x k') eqn:E'; [|reflexivity].
      apply String.eqb_eq in E'. subst x. now rewrite String.eqb_sym, E.
Qed.

Lemma dict_get_update (d e : record) (k : string) :
  ~ In k (keys e) -> dict_get (dict_update d e) k = dict_get d k.
Proof.
  unfold dict_update. revert d. induction e as [|[x v] e IH]; intros d H;
    cbn [fold_left]; [reflexivity|].
  cbn [keys map fst In] in H. rewrite IH by tauto.
  rewrite dict_get_set. destruct (String.eqb x k) eqn:E; [|reflexivity].
  apply String.eqb_eq in E. tauto.
Qed.

Section SteamFile.
Variable world : Type.
Variable search_first_result : world -> option pystr -> world * option pystr.
Variable get_game_details : world -> pystr -> world * record.
Hypothesis details_keys :
  forall w url, keys (snd (get_game_details w url)) = []
                \/ keys (snd (get_game_details w url)) = steam_detail_keys.

(** One record for each title, in order, with the title it was searched
    with and the flag [found]. *)
Lemma process_game_list_records (game_titles : list (option pystr)) (w : world) :
  Forall2 (fun t g =>
             dict_get g "search_term" = Some (title_value t)
             /\ exists b, dict_get g "found" = Some (VBool b))
    game_titles
    (snd (process_game_list search_first_result get_game_details game_titles w)).
Proof.
  revert w. induction game_titles as [|t rest IH]; intros w;
    cbn [process_game_list]; [constructor|].
  unfold search_game. destruct (search_first_result w t) as [w1 [app_id|]].
  - cbn [dict_get String.eqb Ascii.eqb Bool.eqb].
    pose proof (details_keys w1 (steam_app_url ++ app_id)) as Hk.
    destruct (get_game_details w1 (steam_app_url ++ app_id)) as [w2 details].
    cbn [snd] in Hk. specialize (IH w2).
    destruct (process_game_list search_first_result get_game_details rest w2)
      as [w3 steam_games].
    cbn [snd] in *. constructor; [|exact IH]. split.
    + rewrite dict_get_set. cbn [String.eqb Ascii.eqb Bool.eqb].
      rewrite dict_get_update; [reflexivity|].
      destruct Hk as [-> | ->]; cbn; intuition discriminate.
    + exists true. rewrite dict_get_set. now rewrite String.eqb_refl.
  - specialize (IH w1).
    destruct (process_game_list search_first_result get_game_details rest w1)
      as [w2 steam_games].
    cbn [snd] in *. constructor; [|exact IH]. split; [reflexivity|].
    now exists false.
Qed.
End SteamFile.

(** X15. The Steam scraper loses no title: whatever the site answers,
    [process_game_list] returns one record for each title, in order,
    found or not, and [save_to_csv] writes them all without a
    [ValueError] under a header that is the sorted set of all their keys;
    the cell [search_term] of a line is the title it was searched with,
    and its cell [found] is a flag. *)
Theorem steam_file_complete :
  forall (world : Type)
         (search_first_result : world -> option pystr -> world * option pystr)
         (get_game_details : world -> pystr -> world * record)
         (game_titles : list (option pystr)) (w : world),
    (forall w' url,
        keys (snd (get_game_details w' url)) = []
        \/ keys (snd (get_game_details w' url)) = steam_detail_keys) ->
    let steam_games :=
      snd (process_game_list search_first_result get_game_details game_titles w) in
    let file := steam_save_to_csv steam_games in
    length steam_games = length game_titles
    /\ raised file = false
    /\ length (lines file) = length game_titles
    /\ Sorted (fun a b => String.leb a b = true) (header file)
    /\ NoDup (header file)
    /\ (forall k, In k (header file) <-> exists g, In g steam_games /\ In k (keys g))
    /\ forall i t line,
        nth_error game_titles i = Some t -> nth_error (lines file) i = Some line ->
        cell (header file) line "search_term" = Some (title_value t)
        /\ exists b, cell (header file) line "found" = Some (VBool b).
Proof.
  intros world search_first_result get_game_details game_titles w Hkeys. cbv zeta.
  pose proof (@process_game_list_records world search_first_result get_game_details Hkeys game_titles w) as HF.
  set (steam_games :=
         snd (process_game_list search_first_result get_game_details game_titles w)) in *.
  assert (Hlen : length steam_games = length game_titles)
    by (symmetry; eapply Forall2_length; exact HF).
  destruct (@sorted_spec (nodup string_dec (flat_map keys steam_games))
              (NoDup_nodup _ _)) as (Hs1 & Hs2 & Hs3).
  assert (Hhead : forall k, In k (sorted (nodup string_dec (flat_map keys steam_games)))
                            <-> exists g, In g steam_games /\ In k (keys g)).
  { intros k. rewrite Hs3, nodup_In, in_flat_map. reflexivity. }
  unfold steam_save_to_csv, write_csv.
  rewrite writerows_ok
    by (intros row Hrow k Hk; apply Hhead; now exists row).
  cbn [header lines raised].
  split; [exact Hlen|]. split; [reflexivity|].
  split; [now rewrite length_map|]. split; [exact Hs1|]. split; [exact Hs2|].
  split; [exact Hhead|].
  intros i t line Ht Hline. rewrite nth_error_map in Hline.
  destruct (nth_error steam_games i) as [g|] eqn:Hg; [|discriminate Hline].
  cbn [option_map] in Hline. injection Hline as <-.
  destruct (Forall2_nth_error i HF Ht Hg) as [Hterm [b Hfound]].
  assert (Hin : In g steam_games) by (eapply nth_error_In; exact Hg).
  split.
  - rewrite cell_of_row, Hterm; [reflexivity|].
    apply Hhead. exists g. split; [exact Hin|]. eapply dict_get_In; exact Hterm.
  - exists b. rewrite cell_of_row, Hfound; [reflexivity|].
    apply Hhead. exists g. split; [exact Hin|]. eapply dict_get_In; exact Hfound.
Qed.

Lemma steam_file_complete_witness :
  let search_first_result :=
    fun (w : nat) (t : option pystr) =>
      (S w, if Nat.even w then Some (str "620") else None) in
  let get_game_details :=
    fun (w : nat) (url : pystr) => (S w, @nil (string * value)) in
  let file :=
    steam_save_to_csv
      (snd (process_game_list search_first_result get_game_details
              [text "Portal 2"; None] 0)) in
  raised file = false
  /\ header file = ["app_id"; "app_url"; "found"; "search_term"]%string
  /\ length (lines file) = 2.
Proof.
  intros search_first_result get_game_details file.
  destruct (@steam_file_complete nat search_first_result get_game_details
              [text "Portal 2"; None] 0) as (_ & Hraised & Hlines & _).
  - intros w' url. left. reflexivity.
  - split; [exact Hraised|]. split; [reflexivity|exact Hlines].
Defined.

(** ** The publisher on a page of the Steam store *)

Lemma starts_with_app (sub r : pystr) : starts_with sub (sub ++ r) = true.
Proof.
  induction sub as [|x sub IH]; [reflexivity|].
  cbn [app starts_with]. now rewrite char_eqb_refl.
Qed.

(** [find] returns no index after an occurrence. *)
Lemma find_from_le (sub a r : pystr) (i : Z) :
  (i <= find_from sub (a ++ sub ++ r) i <= i + Z.of_nat (length a))%Z.
Proof.
  revert i. induction a as [|c a IH]; intros i.
  - cbn [app length]. destruct (sub ++ r) as [|y s] eqn:E; cbn [find_from].
    + apply app_eq_nil in E as [-> _]. cbn. lia.
    + rewrite <- E, starts_with_app. lia.
  - cbn [app length find_from].
    destruct (starts_with sub (c :: a ++ sub ++ r)); [lia|].
    specialize (IH (i + 1)%Z). lia.
Qed.

Lemma publisher_link_none (block : details_block) :
  (forall link, In link (block_links block) ->
     exists a r, block_text block = a ++ link ++ r
                 /\ (Z.of_nat (length a)
                     <= find (str "Publisher:") (block_text block))%Z) ->
  publisher_link block = None.
Proof.
  intros H. unfold publisher_link.
  destruct (List.find _ (block_links block)) as [link|] eqn:E; [|reflexivity].
  apply find_some in E as [Hin Hlt]. apply Z.ltb_lt in Hlt.
  destruct (H link Hin) as (a & r & Ht & Hle).
  pose proof (find_from_le link a r 0) as Hf. unfold find in Hlt at 2.
  rewrite Ht in Hlt at 2. lia.
Qed.

(** X16. [get_game_details] takes as the publisher the first link of a
    block whose text is found, from the start of the block, after
    ["Publisher:"].  So a link whose text already occurs at or before
    ["Publisher:"] is never taken: on a page whose blocks name the
    publisher only with texts that occur earlier in the block (as when
    the developer and the publisher are the same company), the publisher
    is ["N/A"]. *)
Theorem publisher_missed_when_named_before :
  (forall blocks : list details_block,
      (forall block, In block blocks ->
         forall link, In link (block_links block) ->
           exists a r, block_text block = a ++ link ++ r
                       /\ (Z.of_nat (length a)
                           <= find (str "Publisher:") (block_text block))%Z) ->
      publisher_of blocks = str "N/A")
  /\ (forall (text : pystr) (before : list pystr) (link : pystr) (after : list pystr),
         (0 <= find (str "Publisher:") text)%Z ->
         (forall l, In l before ->
                    (find l text <= find (str "Publisher:") text)%Z) ->
         (find (str "Publisher:") text < find link text)%Z ->
         publisher_of [mkblock text (before ++ link :: after)] = strip link).
Proof.
  split.
  - intros blocks H. unfold publisher_of.
    assert (Hgen : forall p,
               fold_left (fun publisher block =>
                            if (0 <=? find (str "Publisher:") (block_text block))%Z
                            then match publisher_link block with
                                 | Some link => strip link
                                 | None => publisher
                                 end
                            else publisher) blocks p = p).
    { induction blocks as [|b blocks IH]; intros p; [reflexivity|].
      cbn [fold_left].
      rewrite (@publisher_link_none b (H b (or_introl eq_refl))).
      destruct (0 <=? _)%Z; apply IH; intros b' Hb'; apply H; now right. }
    apply Hgen.
  - intros text before link after Hpub Hbefore Hlink.
    unfold publisher_of. cbn [fold_left block_text].
    replace (0 <=? find (str "Publisher:") text)%Z with true
      by (symmetry; now apply Z.leb_le).
    unfold publisher_link. cbn [block_text block_links].
    assert (Hfind : List.find (fun l => (find (str "Publisher:") text <? find l text)%Z)
                      (before ++ link :: after) = Some link).
    { induction before as [|l before IH]; cbn [app List.find].
      - now rewrite (proj2 (Z.ltb_lt _ _) Hlink).
      - replace (find (str "Publisher:") text <? find l text)%Z with false
          by (symmetry; apply Z.ltb_ge; apply Hbefore; now left).
        apply IH. intros l' Hl'. apply Hbefore. now right. }
    now rewrite Hfind.
Qed.

Lemma publisher_missed_when_named_before_witness :
  publisher_of
    [mkblock (str "Title: Portal Developer: Valve Publisher: Valve Released: 2007")
       [str "Valve"; str "Valve"]]
  = str "N/A"
  /\ publisher_of
       [mkblock (str "Developer: Arkane Publisher: Bethesda ")
          [str "Arkane"; str " Bethesda "]]
     = str "Bethesda".
Proof.
  destruct publisher_missed_when_named_before as [Hmiss Htake]. split.
  - apply Hmiss. intros block [<-|[]] link Hlink.
    exists (str "Title: Portal Developer: "),
      (str " Publisher: Valve Released: 2007").
    cbn in Hlink. destruct Hlink as [<-|[<-|[]]]; split;
      try reflexivity; vm_compute; discriminate.
  - apply (Htake (str "Developer: Arkane Publisher: Bethesda ")
             [str "Arkane"] (str " Bethesda ") []).
    + vm_compute. discriminate.
    + intros l [<-|[]]. vm_compute. discriminate.
    + vm_compute. reflexivity.
Defined.

(** * Further properties of the ratio *)

(** ** Binary64: a quotient of at most one *)

Local Open Scope Z_scope.

Lemma Zdigits2_eq (m k : Z) :
  0 < k -> 2 ^ (k - 1) <= m < 2 ^ k -> Zdigits2 m = k.
Proof.
  intros Hk [Hlo Hhi].
  assert (Hm : 0 < m) by (pose proof (Z.pow_pos_nonneg 2 (k - 1)); lia).
  destruct m as [|p|p]; try lia.
  rewrite Zdigits2_log2.
  assert (E : Z.log2 (Z.pos p) = k - 1).
  { apply Z.log2_unique; [lia|].
    replace (Z.succ (k - 1)) with k by lia. split; assumption. }
  rewrite E. lia.
Qed.

Lemma loc_of_record_of_loc (m : Z) (l : location) :
  loc_of_shr_record (shr_record_of_loc m l) = l.
Proof. destruct l as [|[]]; reflexivity. Qed.

Lemma shr_m_record_of_loc (m : Z) (l : location) :
  shr_m (shr_record_of_loc m l) = m.
Proof. destruct l as [|[]]; reflexivity. Qed.

(** Rounding a mantissa of 53 digits below the binade of 1.0. *)
Lemma round_53_at_most_one (m e : Z) (l : location) :
  2 ^ 52 <= m < 2 ^ 53 -> -1000 <= e <= -53 ->
  at_most_one (binary_round_aux prec emax false m e l).
Proof.
  intros Hm He. unfold binary_round_aux, shr_fexp.
  rewrite (@Zdigits2_eq m 53) by lia.
  rewrite fexp_linear by lia.
  replace (53 + e - 53 - e) with 0 by lia. cbn [shr].
  rewrite loc_of_record_of_loc, shr_m_record_of_loc.
  pose proof (round_nearest_even_bounds m l) as Hr.
  set (m2 := round_nearest_even m l) in *.
  destruct (Z.eq_dec m2 (2 ^ 53)) as [E|E].
  - rewrite E. change (Zdigits2 (2 ^ 53)) with 54.
    rewrite fexp_linear by lia.
    replace (54 + e - 53 - e) with 1 by lia.
    cbn [shr iter_pos shr_record_of_loc shr_1 shr_m Z.pow Z.pow_pos Pos.iter Z.mul Pos.mul].
    replace (e + 1 <=? emax - prec) with true
      by (symmetry; apply Z.leb_le; unfold emax, prec; lia).
    eexists _, _. split; [reflexivity|]. lia.
  - rewrite (@Zdigits2_eq m2 53) by lia.
    rewrite fexp_linear by lia.
    replace (53 + e - 53 - e) with 0 by lia.
    cbn [shr shr_record_of_loc shr_m].
    destruct m2 as [|p|p] eqn:Ep; try lia.
    replace (e <=? emax - prec) with true
      by (symmetry; apply Z.leb_le; unfold emax, prec; lia).
    eexists _, _. split; [reflexivity|]. lia.
Qed.

(** A mantissa of 54 digits loses its last digit first. *)
Lemma round_54_at_most_one (m e : Z) (l : location) :
  2 ^ 53 <= m < 2 ^ 54 -> -1000 <= e <= -54 ->
  at_most_one (binary_round_aux prec emax false m e l).
Proof.
  intros Hm He.
  set (l' := loc_of_shr_record (shr_1 (shr_record_of_loc m l))).
  assert (Hhalf : 2 ^ 52 <= m / 2 < 2 ^ 53).
  { change (2 ^ 53) with (2 * 2 ^ 52) in Hm. change (2 ^ 54) with (2 * 2 ^ 53) in Hm.
    split; [apply Z.div_le_lower_bound|apply Z.div_lt_upper_bound]; lia. }
  assert (E : binary_round_aux prec emax false m e l
              = binary_round_aux prec emax false (m / 2) (e + 1) l').
  { unfold binary_round_aux. unfold shr_fexp at 1 3.
    rewrite (@Zdigits2_eq m 54), (@Zdigits2_eq (m / 2) 53) by lia.
    rewrite !fexp_linear by lia.
    replace (54 + e - 53 - e) with 1 by lia.
    replace (53 + (e + 1) - 53 - (e + 1)) with 0 by lia.
    cbn [shr iter_pos].
    rewrite loc_of_record_of_loc, shr_m_record_of_loc.
    rewrite shr_1_half by (rewrite shr_m_record_of_loc; lia).
    rewrite shr_m_record_of_loc. fold l'. reflexivity. }
  rewrite E. apply round_53_at_most_one; lia.
Qed.

Lemma iter_xO_value (p k : positive) :
  Z.pos (Pos.iter xO p k) = Z.pos p * 2 ^ Z.pos k.
Proof.
  induction k as [|k IH] using Pos.peano_ind.
  - cbn [Pos.iter]. lia.
  - rewrite Pos.iter_succ, Pos2Z.inj_xO, IH, Pos2Z.inj_succ, Z.pow_succ_r by lia.
    lia.
Qed.

Lemma digits_53_bounds (m : positive) :
  Z.pos (digits2_pos m) = 53 -> 2 ^ 52 <= Z.pos m < 2 ^ 53.
Proof.
  intros Hd.
  pose proof (@Zdigits2_gt (Z.pos m) ltac:(lia)) as Hhi.
  pose proof (Zdigits2_log2 m) as Hl.
  cbn [Zdigits2] in Hhi, Hl. rewrite Hd in Hhi, Hl.
  pose proof (Z.log2_spec (Z.pos m) ltac:(lia)) as [Hlo _].
  replace (Z.log2 (Z.pos m)) with 52 in Hlo by lia. lia.
Qed.

(** An integer below [2^53] is a binary64 number: its mantissa is the
    integer shifted to 53 digits. *)
Lemma binary_round_exact (p : positive) :
  Z.pos p < 2 ^ 53 ->
  exists m e,
    binary_round prec emax false p 0 = S754_finite false m e
    /\ -52 <= e <= 0
    /\ Z.pos (digits2_pos m) = 53
    /\ Z.pos m = Z.pos p * 2 ^ (- e).
Proof.
  intros Hp.
  assert (Hd : Zdigits2 (Z.pos p) <= 53) by (apply Zdigits2_le; lia).
  cbn [Zdigits2] in Hd.
  unfold binary_round. rewrite fexp_linear by lia. unfold shl_align.
  destruct (Z.pos (digits2_pos p) + 0 - 53 - 0) as [|k|k] eqn:Hk; try lia.
  - exists p, 0. rewrite round_aux_canonical by lia.
    repeat split; try lia.
  - exists (Pos.iter xO p k), (Z.pos (digits2_pos p) + 0 - 53).
    assert (Hdig : Z.pos (digits2_pos (Pos.iter xO p k)) = 53)
      by (rewrite digits2_iter_xO; lia).
    change (shift_pos k p) with (Pos.iter xO p k).
    rewrite round_aux_canonical by lia.
    repeat split; try lia.
    rewrite iter_xO_value. f_equal. f_equal. lia.
Qed.

(** The quotient of two normal numbers, the first at most the second. *)
Lemma SFdiv_at_most_one (mx my : positive) (ex ey : Z) :
  Z.pos (digits2_pos mx) = 53 -> Z.pos (digits2_pos my) = 53 ->
  -52 <= ex -> ex <= ey -> ey <= 0 ->
  Z.pos mx <= Z.pos my * 2 ^ (ey - ex) ->
  at_most_one (SFdiv prec emax (S754_finite false mx ex) (S754_finite false my ey)).
Proof.
  intros Hdx Hdy Hex Hxy Hey Hle.
  pose proof (digits_53_bounds _ Hdx) as Hbx.
  pose proof (digits_53_bounds _ Hdy) as Hby.
  destruct (Z.eq_dec ex ey) as [Ee|Ee].
  { subst ey. destruct (Pos.eq_dec mx my) as [Em|Em].
    { subst my. rewrite SFdiv_self.
      exists 4503599627370496%positive, (-52). split; [reflexivity|]. lia. }
    assert (Hlt : Z.pos mx < Z.pos my).
    { replace (ex - ex) with 0 in Hle by lia. change (2 ^ 0) with 1 in Hle.
      assert (Z.pos mx <> Z.pos my) by congruence. lia. }
    cbn [SFdiv xorb]. unfold SFdiv_core_binary.
    cbn [Zdigits2]. rewrite Hdx, Hdy.
    replace (53 + ex - (53 + ex)) with 0 by lia.
    replace (ex - ex) with 0 by lia.
    change (Z.min (fexp prec emax 0) 0) with (-53).
    change (0 - -53) with 53. cbv beta iota.
    change (IntDef.Z.div_eucl (IntDef.Z.shiftl (Z.pos mx) 53) (Z.pos my))
      with (Z.div_eucl (Z.shiftl (Z.pos mx) 53) (Z.pos my)).
    assert (Hdm : forall a b, Z.div_eucl a b = (a / b, a mod b)).
    { intros a b. unfold Z.div, Z.modulo. now destruct (Z.div_eucl a b). }
    rewrite Hdm, Z.shiftl_mul_pow2 by lia.
    apply round_53_at_most_one; [|lia].
    split; [apply Z.div_le_lower_bound|apply Z.div_lt_upper_bound]; lia. }
  assert (HK : 1 <= ey - ex <= 52) by lia.
  cbn [SFdiv xorb]. unfold SFdiv_core_binary.
  cbn [Zdigits2]. rewrite Hdx, Hdy.
  replace (53 + ex - (53 + ey)) with (ex - ey) by lia.
  rewrite fexp_linear by lia.
  rewrite Z.min_l by lia.
  replace (ex - ey - (ex - ey - 53)) with 53 by lia. cbv beta iota.
  change (IntDef.Z.div_eucl (IntDef.Z.shiftl (Z.pos mx) 53) (Z.pos my))
    with (Z.div_eucl (Z.shiftl (Z.pos mx) 53) (Z.pos my)).
  assert (Hdm : forall a b, Z.div_eucl a b = (a / b, a mod b)).
  { intros a b. unfold Z.div, Z.modulo. now destruct (Z.div_eucl a b). }
  rewrite Hdm, Z.shiftl_mul_pow2 by lia.
  set (q := Z.pos mx * 2 ^ 53 / Z.pos my).
  assert (Hq : 2 ^ 52 <= q < 2 ^ 54).
  { unfold q. split; [apply Z.div_le_lower_bound|apply Z.div_lt_upper_bound]; lia. }
  destruct (Z_lt_le_dec q (2 ^ 53)) as [Hs|Hs].
  - apply round_53_at_most_one; lia.
  - apply round_54_at_most_one; lia.
Qed.

(** Two integers written with 53 digits each: when twice the first is
    at most the second, the first is shifted further, and the
    mantissas compare as the integers do. *)
Lemma aligned_order (M T mM mT a b : Z) :
  0 < M -> 2 * M <= T -> 0 <= a -> 0 <= b ->
  mM = M * 2 ^ a -> mT = T * 2 ^ b ->
  2 ^ 52 <= mM -> mT < 2 ^ 53 ->
  b + 1 <= a /\ mM <= mT * 2 ^ (a - b - 1).
Proof.
  intros HM HMT Ha Hb EM ET Hlo Hhi.
  assert (Hab : b < a).
  { destruct (Z_lt_le_dec b a) as [H|H]; [exact H|]. exfalso.
    replace b with (a + (b - a)) in ET by lia.
    rewrite Z.pow_add_r in ET by lia.
    pose proof (Z.pow_pos_nonneg 2 a ltac:(lia) Ha) as HA.
    pose proof (Z.pow_pos_nonneg 2 (b - a) ltac:(lia) ltac:(lia)) as HB.
    set (A := 2 ^ a) in *. set (B := 2 ^ (b - a)) in *.
    assert (H1 : 2 * mM <= T * A) by nia.
    assert (H2 : T * A <= T * A * B) by nia.
    change (2 ^ 53) with (2 * 2 ^ 52) in Hhi. nia. }
  split; [lia|].
  rewrite ET, <- Z.mul_assoc, <- Z.pow_add_r by lia.
  replace (b + (a - b - 1)) with (a - 1) by lia.
  replace a with (a - 1 + 1) in EM by lia.
  rewrite Z.pow_add_r in EM by lia. change (2 ^ 1) with 2 in EM.
  pose proof (Z.pow_pos_nonneg 2 (a - 1) ltac:(lia) ltac:(lia)) as HA.
  set (A := 2 ^ (a - 1)) in *. nia.
Qed.

Lemma at_most_one_leb (x : float) :
  at_most_one (Prim2SF x) -> (0 <=? x)%float = true /\ (x <=? 1)%float = true.
Proof.
  intros (m & e & Hx & He).
  rewrite !leb_spec, Hx.
  change (Prim2SF 0) with (S754_zero false).
  change (Prim2SF 1) with (S754_finite false 4503599627370496 (-52)).
  split; [reflexivity|].
  unfold SFleb, SFcompare.
  destruct He as [He|[-> ->]].
  - now replace (e ?= -52) with Lt by (symmetry; apply Z.compare_lt_iff; lia).
  - reflexivity.
Qed.

Local Close Scope Z_scope.

(** [2.0 * matches / length] lies between 0.0 and 1.0 when the matches
    are at most half the length. *)
Lemma calculate_ratio_bounds (matches len : nat) :
  2 * matches <= len -> (Z.of_nat len < 2 ^ 53)%Z ->
  (0 <=? calculate_ratio matches len)%float = true
  /\ (calculate_ratio matches len <=? 1)%float = true.
Proof.
  intros Hml Hb.
  destruct (Nat.eq_dec len 0) as [->|Hlen].
  { unfold calculate_ratio. cbn [Nat.eqb]. split; reflexivity. }
  destruct (Nat.eq_dec matches 0) as [->|Hm].
  { rewrite calculate_ratio_zero by lia. split; reflexivity. }
  apply at_most_one_leb. unfold calculate_ratio.
  replace (len =? 0) with false by (symmetry; apply Nat.eqb_neq; lia).
  destruct (Z.of_nat matches) as [|p|p] eqn:Hp; try lia.
  destruct (Z.of_nat len) as [|q|q] eqn:Hq; try lia.
  pose proof (@float_of_nat_spec matches ltac:(lia)) as Hx.
  pose proof (@float_of_nat_spec len ltac:(lia)) as Hy.
  rewrite Hp in Hx. rewrite Hq in Hy. cbn [binary_normalize] in Hx, Hy.
  destruct (@binary_round_exact p ltac:(lia)) as (mM & eM & HrM & HeM & HdM & HvM).
  destruct (@binary_round_exact q ltac:(lia)) as (mT & eT & HrT & HeT & HdT & HvT).
  rewrite HrM in Hx. rewrite HrT in Hy.
  pose proof (digits_53_bounds _ HdM) as HbM.
  pose proof (digits_53_bounds _ HdT) as HbT.
  destruct (@aligned_order (Z.pos p) (Z.pos q) (Z.pos mM) (Z.pos mT) (- eM) (- eT))
    as [Ho1 Ho2]; try lia.
  pose proof (Prim2SF_valid (float_of_nat matches)) as Hv. rewrite Hx in Hv.
  rewrite div_spec, mul_spec, Hx, Hy.
  rewrite SFmul_two by (exact Hv || lia). cbn [bump].
  replace (eM + 1 <=? emax - prec)%Z with true
    by (symmetry; apply Z.leb_le; unfold emax, prec; lia).
  apply SFdiv_at_most_one; try lia.
  replace (eT - (eM + 1))%Z with (- eM - - eT - 1)%Z by lia. exact Ho2.
Qed.

Lemma ratio_bounds (a b : pystr) :
  (Z.of_nat (length a + length b) < 2 ^ 53)%Z ->
  (0 <=? ratio a b)%float = true /\ (ratio a b <=? 1)%float = true.
Proof.
  intros Hb. unfold ratio.
  destruct (@matching_blocks_sound a b (S (length a + length b))
              [(0, length a, 0, length b)] []) as [_ H2].
  - constructor; [cbn; lia|constructor].
  - constructor.
  - fold (get_matching_blocks a b) in H2.
    cbn [matches_of fold_right queue_room] in H2.
    apply calculate_ratio_bounds; [|exact Hb].
    fold (matches_of (get_matching_blocks a b)). lia.
Qed.

(** X17. The similarity of two fields is a number between 0.0 and 1.0,
    never NaN, whatever the fields hold (a missing field included).
    (The lengths of the strings add up to less than 2^53, the integers
    a float holds exactly.) *)
Theorem string_similarity_unit_interval (a b : option pystr) :
  (forall x y, a = Some x -> b = Some y ->
               (Z.of_nat (length x + length y) < 2 ^ 53)%Z) ->
  (0 <=? string_similarity a b)%float = true
  /\ (string_similarity a b <=? 1)%float = true.
Proof.
  intros H. destruct a as [x|], b as [y|]; cbn [string_similarity];
    try (split; reflexivity).
  apply ratio_bounds. rewrite !lower_length. now apply H.
Qed.

Lemma string_similarity_unit_interval_witness :
  (0 <=? string_similarity (Some (str "Portal 2")) (Some (str "Portal")))%float = true
  /\ (string_similarity (Some (str "Portal 2")) (Some (str "Portal")) <=? 1)%float = true.
Proof.
  apply (@string_similarity_unit_interval (Some (str "Portal 2")) (Some (str "Portal"))).
  intros x y Hx Hy. injection Hx as <-. injection Hy as <-. vm_compute. reflexivity.
Defined.

(** * Further properties of the price *)

(** ** Binary64: what a rounding with the sign [+] returns *)

Local Open Scope Z_scope.

Lemma not_below_zero_leb (x : float) :
  not_below_zero (Prim2SF x) -> (0 <=? x)%float = true.
Proof.
  intros H. rewrite leb_spec. change (Prim2SF 0) with (S754_zero false).
  destruct (Prim2SF x) as [s|s| |s m e]; cbn in H; try contradiction;
    try subst s; reflexivity.
Qed.

Lemma shr_fexp_nonneg (m e : Z) (l : location) :
  0 <= m -> 0 <= shr_m (fst (shr_fexp prec emax m e l)).
Proof.
  intros Hm. unfold shr_fexp.
  apply shr_bounds. rewrite shr_m_record_of_loc. exact Hm.
Qed.

Lemma round_aux_not_below_zero (m e : Z) (l : location) :
  0 <= m -> not_below_zero (binary_round_aux prec emax false m e l).
Proof.
  intros Hm. unfold binary_round_aux.
  pose proof (@shr_fexp_nonneg m e l Hm) as H1.
  destruct (shr_fexp prec emax m e l) as [mrs1 e1]. cbn [fst] in H1.
  pose proof (round_nearest_even_bounds (shr_m mrs1) (loc_of_shr_record mrs1)) as Hr.
  set (m1 := round_nearest_even (shr_m mrs1) (loc_of_shr_record mrs1)) in *.
  pose proof (@shr_fexp_nonneg m1 e1 loc_Exact ltac:(lia)) as H2.
  destruct (shr_fexp prec emax m1 e1 loc_Exact) as [mrs2 e2]. cbn [fst] in H2.
  destruct (shr_m mrs2) as [|p|p]; try lia; [exact I|].
  destruct (e2 <=? emax - prec); reflexivity.
Qed.

Lemma binary_round_not_below_zero (p : positive) (e : Z) :
  not_below_zero (binary_round prec emax false p e).
Proof.
  unfold binary_round.
  destruct (shl_align p e _) as [mz ez].
  apply round_aux_not_below_zero. lia.
Qed.

Lemma SFdiv_not_below_zero (mx my : positive) (ex ey : Z) :
  not_below_zero (SFdiv prec emax (S754_finite false mx ex) (S754_finite false my ey)).
Proof.
  cbn [SFdiv xorb]. unfold SFdiv_core_binary.
  assert (Hdm : forall a b, Z.div_eucl a b = (a / b, a mod b)).
  { intros a b. unfold Z.div, Z.modulo. now destruct (Z.div_eucl a b). }
  cbv zeta.
  match goal with
  | |- context [IntDef.Z.div_eucl ?a ?b] =>
      change (IntDef.Z.div_eucl a b) with (Z.div_eucl a b);
      rewrite (Hdm a b); assert (Ha : 0 <= a)
  end.
  { match goal with |- 0 <= match ?s with _ => _ end => destruct s end;
      try lia.
    change (0 <= Z.shiftl (Z.pos mx) (Z.pos p)).
    apply Z.shiftl_nonneg. lia. }
  apply round_aux_not_below_zero. apply Z.div_pos; lia.
Qed.

Lemma SF2Prim_not_below_zero (v : spec_float) :
  not_below_zero v -> not_below_zero (Prim2SF (SF2Prim v)).
Proof.
  destruct v as [s|s| |s m e]; cbn [not_below_zero]; intros H;
    try contradiction; try subst s.
  - destruct s; exact I.
  - reflexivity.
  - cbn [SF2Prim]. rewrite Z_ldexp_spec, of_uint63_spec.
    pose proof (Uint63.to_Z_bounded (Uint63.of_Z (Z.pos m))) as Hb.
    destruct (Uint63.to_Z (Uint63.of_Z (Z.pos m))) as [|p|p];
      cbn [binary_normalize SFldexp]; try lia; [exact I|].
    pose proof (binary_round_not_below_zero p 0) as Hp.
    destruct (binary_round prec emax false p 0) as [s|s| |s m' e'];
      cbn [SFldexp]; try exact Hp.
    cbn in Hp. subst s. apply binary_round_not_below_zero.
Qed.

Local Close Scope Z_scope.

(** ** A price is never negative *)

Lemma float_of_decimal_not_below_zero (n : Z) (k : nat) :
  not_below_zero (Prim2SF (float_of_decimal n k)).
Proof.
  destruct n as [|p|p]; cbn [float_of_decimal]; try exact I.
  apply SF2Prim_not_below_zero, SFdiv_not_below_zero.
Qed.

Lemma py_float_not_below_zero (s : pystr) (f : float) :
  py_float s = Some f -> not_below_zero (Prim2SF f).
Proof.
  unfold py_float. destruct (span is_digit s) as [ip r].
  destruct r as [|c r'].
  - destruct ip; [discriminate|]. intros H. injection H as <-.
    apply float_of_decimal_not_below_zero.
  - destruct (char_eqb c "."%char); [|discriminate].
    destruct (span is_digit r') as [fp r''].
    destruct r''; [|discriminate].
    destruct (ip ++ fp); [discriminate|]. intros H. injection H as <-.
    apply float_of_decimal_not_below_zero.
Qed.

Lemma strip_no_space (d : pystr) :
  (forall c, In c d -> is_space c = false) -> strip d = d.
Proof.
  intros H. destruct d as [|x d]; [reflexivity|].
  unfold strip. rewrite lstrip_head by (apply H; now left).
  unfold rstrip. destruct (rev (x :: d)) as [|y r] eqn:E.
  - apply (f_equal (@length _)) in E. rewrite length_rev in E. discriminate.
  - rewrite lstrip_head.
    + now rewrite <- E, rev_involutive.
    + apply H. apply in_rev. rewrite E. now left.
Qed.

Lemma price_char_no_space (c : ascii) :
  is_price_char c = true -> is_space c = false.
Proof.
  destruct c as [[] [] [] [] [] [] [] []]; vm_compute; congruence.
Qed.

(** The placeholders of a price start with [N] or [F], or are empty. *)
Lemma no_placeholder (c : ascii) (d : pystr) :
  char_eqb c "N"%char = false -> char_eqb c "F"%char = false ->
  str_in (c :: d) price_placeholders = false.
Proof.
  intros HN HF.
  destruct (str_in _ _) eqn:H; [|reflexivity].
  apply str_in_inv in H. simpl in H.
  destruct H as [H|[H|[H|[H|[]]]]]; try discriminate H;
    injection H as <- _; vm_compute in HN, HF; discriminate.
Qed.

(** X18. [_extract_price] never returns a negative number or NaN: a
    price it returns is 0.0 or more.  The sign of an amount is lost on
    the way: a minus in front of a run of digits, periods and commas
    changes nothing of the result. *)
Theorem extract_price_never_negative :
  (forall (s : option pystr) (f : float),
      _extract_price s = Some f -> (0 <=? f)%float = true)
  /\ (forall d : pystr,
         d <> [] -> forallb is_price_char d = true ->
         _extract_price (Some ("-"%char :: d)) = _extract_price (Some d)).
Proof.
  split.
  - intros [p|] f; [|discriminate]. unfold _extract_price.
    destruct (str_in (strip p) price_placeholders).
    + intros H. injection H as <-. reflexivity.
    + destruct (search_price (strip p)) as [m|]; [|discriminate].
      intros H. apply not_below_zero_leb.
      eapply py_float_not_below_zero. exact H.
  - intros d Hd Hall.
    assert (Hsp : forall c, In c d -> is_space c = false).
    { intros c Hc. apply price_char_no_space.
      rewrite forallb_forall in Hall. now apply Hall. }
    assert (Hsp' : forall c, In c ("-"%char :: d) -> is_space c = false).
    { intros c [<-|Hc]; [reflexivity|now apply Hsp]. }
    unfold _extract_price. rewrite !strip_no_space by assumption.
    destruct d as [|c d]; [contradiction|].
    cbn [forallb] in Hall. apply andb_true_iff in Hall as [Hc _].
    assert (HN : char_eqb c "N"%char = false).
    { destruct (char_eqb c "N"%char) eqn:E; [|reflexivity].
      apply char_eqb_eq in E. subst c. discriminate Hc. }
    assert (HF : char_eqb c "F"%char = false).
    { destruct (char_eqb c "F"%char) eqn:E; [|reflexivity].
      apply char_eqb_eq in E. subst c. discriminate Hc. }
    rewrite !no_placeholder by (assumption || reflexivity).
    cbn [search_price]. rewrite Hc.
    change (is_price_char "-"%char) with false. cbv beta iota.
    reflexivity.
Qed.

Lemma extract_price_never_negative_witness :
  (0 <=? 5)%float = true
  /\ _extract_price (Some (str "-5.00")) = _extract_price (Some (str "5.00")).
Proof.
  split.
  - apply (proj1 extract_price_never_negative (Some (str "-5.00")) 5%float).
    vm_compute. reflexivity.
  - apply (proj2 extract_price_never_negative (str "5.00")); [discriminate|reflexivity].
Defined.

(** * The merge, record by record *)

Lemma find_best_some (mc : Metacritic.row) (steam : list Steam.row)
      (st : Steam.row) (s : float) :
  find_best mc steam = (Some st, s) ->
  In st steam /\ s = match_score mc st /\ (0.7 <? s)%float = true.
Proof.
  intros H.
  pose proof (@best_from_inv _ (match_score mc) steam steam None 0%float
                (incl_refl _) eq_refl) as Hinv.
  unfold find_best in H. rewrite H in Hinv. exact Hinv.
Qed.

Lemma unmatched_mc_of_lone (metacritic : list Metacritic.row)
      (steam : list Steam.row) :
  unmatched_mc_of metacritic (matched_rows metacritic steam)
  = lone_left steam metacritic.
Proof.
  unfold unmatched_mc_of, lone_left, matched_titles.
  now rewrite (proj1 (matched_rows_titles metacritic steam)).
Qed.

Lemma matched_titles_incl (metacritic : list Metacritic.row)
      (steam : list Steam.row) (t : option pystr) :
  In t (matched_titles steam metacritic) -> In t (map Metacritic.title metacritic).
Proof.
  unfold matched_titles. intros H. apply in_map_iff in H as (g & <- & Hg).
  apply filter_In in Hg as [Hg _]. now apply in_map.
Qed.

Lemma unmatched_steam_of_lone (metacritic : list Metacritic.row)
      (steam : list Steam.row) :
  unmatched_steam_of steam
    (matched_rows metacritic steam
     ++ map unmatched_mc_row (lone_left steam metacritic))
  = lone_right steam metacritic.
Proof.
  unfold unmatched_steam_of, lone_right. apply filter_ext. intros s. f_equal.
  apply eq_true_iff_eq. rewrite !isin_In.
  rewrite map_app, (proj1 (matched_rows_titles metacritic steam)), map_map.
  fold (matched_titles steam metacritic).
  change (map (fun x => game_title (unmatched_mc_row x)) (lone_left steam metacritic))
    with (map Metacritic.title (lone_left steam metacritic)).
  rewrite in_app_iff. split.
  - intros [H|H]; [now apply matched_titles_incl in H|].
    apply in_map_iff in H as (g & <- & Hg).
    apply filter_In in Hg as [Hg _]. now apply in_map.
  - intros H.
    destruct (isin (Steam.title s) (matched_titles steam metacritic)) eqn:E.
    + left. now apply isin_In.
    + right. apply in_map_iff in H as (g & Hgt & Hg).
      apply in_map_iff. exists g. split; [exact Hgt|].
      unfold lone_left. apply filter_In. split; [exact Hg|].
      now rewrite Hgt, E.
Qed.

Lemma matched_rows_pairs (metacritic : list Metacritic.row)
      (steam : list Steam.row) :
  Forall2 (fun g r => exists s,
               In s steam
               /\ find_best g steam = (Some s, match_score g s)
               /\ (0.7 <? match_score g s)%float = true
               /\ r = matched_row g s (match_score g s))
    (filter (has_match steam) metacritic) (matched_rows metacritic steam).
Proof.
  unfold matched_rows, has_match.
  induction metacritic as [|g l IH]; cbn [flat_map filter]; [constructor|].
  destruct (find_best g steam) as [[s|] c] eqn:Hf; cbn [app]; [|exact IH].
  destruct (find_best_some _ _ Hf) as (Hin & -> & Ht).
  constructor; [|exact IH]. now exists s.
Qed.


(** The frame [merge_datasets] returns, run by run. *)
Lemma merge_rows_exact (metacritic_df : list Metacritic.row)
      (steam_df : list Steam.row) (df : frame) :
  merge_datasets metacritic_df steam_df = Returned df ->
  let metacritic := prepare_metacritic metacritic_df in
  let steam := prepare_steam steam_df in
  exists matched,
    rows df = matched ++ map unmatched_mc_row (lone_left steam metacritic)
              ++ map unmatched_steam_row (lone_right steam metacritic)
    /\ matched <> []
    /\ Forall2 (row_of_pair steam) (filter (has_match steam) metacritic) matched.
Proof.
  intros H. apply merge_datasets_returned in H. cbv zeta in *.
  set (metacritic := prepare_metacritic metacritic_df) in *.
  set (steam := prepare_steam steam_df) in *.
  rewrite unmatched_mc_of_lone, unmatched_steam_of_lone in H.
  destruct H as [Hne H].
  pose proof (matched_rows_pairs metacritic steam) as Hp.
  destruct H as [[_ ->]|[_ ->]]; cbn [rows].
  - exists (matched_rows metacritic steam). split; [reflexivity|]. split; [exact Hne|].
    eapply Forall2_impl; [|exact Hp].
    intros g r (s & H1 & H2 & H3 & H4). exists s. auto.
  - exists (map add_scores (matched_rows metacritic steam)).
    split; [|split].
    + rewrite !map_app. f_equal. f_equal; apply map_add_scores_unmatched;
        apply Forall_forall; intros r Hr; apply in_map_iff in Hr as (x & <- & _);
        reflexivity.
    + destruct (matched_rows metacritic steam); [contradiction|discriminate].
    + clear Hne. induction Hp as [|g r gs l Hgr _ IH]; cbn [map]; [constructor|].
      constructor; [|exact IH].
      destruct Hgr as (s & H1 & H2 & H3 & ->). exists s. auto.
Qed.






Lemma Forall2_In_r {A B : Type} (R : A -> B -> Prop) (l : list A) (l' : list B)
      (b : B) :
  Forall2 R l l' -> In b l' -> exists a, In a l /\ R a b.
Proof.
  induction 1 as [|a0 b0 l l' Hab _ IH]; intros Hb; [destruct Hb|].
  destruct Hb as [<-|Hb].
  - exists a0. split; [now left|exact Hab].
  - destruct (IH Hb) as (a & Ha & HR). exists a. split; [now right|exact HR].
Qed.

(** A matched row of a returned frame is the row of a pair the inner
    loop selected. *)
Lemma matched_row_of_frame (metacritic_df : list Metacritic.row)
      (steam_df : list Steam.row) (df : frame) (r : merged_row) :
  merge_datasets metacritic_df steam_df = Returned df ->
  In r (rows df) -> is_matched r = true ->
  exists g, In g (prepare_metacritic metacritic_df)
            /\ row_of_pair (prepare_steam steam_df) g r.
Proof.
  intros H Hr Hm.
  destruct (merge_rows_exact _ _ H) as (matched & Hrows & _ & Hpairs).
  cbv zeta in Hrows, Hpairs. rewrite Hrows, !in_app_iff in Hr.
  destruct Hr as [Hr|[Hr|Hr]].
  - destruct (@Forall2_In_r _ _ _ _ _ r Hpairs Hr) as (g & Hg & HR).
    exists g. split; [|exact HR]. now apply filter_In in Hg.
  - apply in_map_iff in Hr as (g & <- & _). discriminate Hm.
  - apply in_map_iff in Hr as (s & <- & _). discriminate Hm.
Qed.

(** A pair the inner loop selects gives a matched row of the frame,
    which is returned. *)
Lemma selected_pair_row (metacritic_df : list Metacritic.row)
      (steam_df : list Steam.row) (g : Metacritic.row) (st : Steam.row) (c : float) :
  In g (prepare_metacritic metacritic_df) ->
  find_best g (prepare_steam steam_df) = (Some st, c) ->
  exists df r,
    merge_datasets metacritic_df steam_df = Returned df
    /\ In r (rows df)
    /\ (r = matched_row g st c \/ r = add_scores (matched_row g st c)).
Proof.
  intros Hg Hf.
  assert (Hin : In (matched_row g st c)
                  (matched_rows (prepare_metacritic metacritic_df)
                     (prepare_steam steam_df)))
    by (apply matched_rows_In; now exists g, st, c).
  destruct (merge_datasets metacritic_df steam_df) as [df|e] eqn:E.
  - apply merge_datasets_returned in E. cbv zeta in E. destruct E as [_ E].
    destruct E as [[_ ->]|[_ ->]]; cbn [rows].
    + exists (mkframe (base_columns ++ ["combined_score"]%string)
                (matched_rows (prepare_metacritic metacritic_df) (prepare_steam steam_df)
                 ++ map unmatched_mc_row
                      (unmatched_mc_of (prepare_metacritic metacritic_df)
                         (matched_rows (prepare_metacritic metacritic_df)
                            (prepare_steam steam_df)))
                 ++ map unmatched_steam_row
                      (unmatched_steam_of (prepare_steam steam_df)
                         (matched_rows (prepare_metacritic metacritic_df)
                            (prepare_steam steam_df)
                          ++ map unmatched_mc_row
                               (unmatched_mc_of (prepare_metacritic metacritic_df)
                                  (matched_rows (prepare_metacritic metacritic_df)
                                     (prepare_steam steam_df))))))),
        (matched_row g st c).
      split; [reflexivity|]. split; [|now left].
      cbn [rows]. apply in_or_app. now left.
    + eexists _, (add_scores (matched_row g st c)).
      split; [reflexivity|]. split; [|now right].
      cbn [rows]. apply in_map. apply in_or_app. now left.
  - exfalso. unfold merge_datasets in E. cbv zeta in E.
    destruct (matched_rows (prepare_metacritic metacritic_df) (prepare_steam steam_df));
      [destruct Hin|].
    destruct (existsb mask _); discriminate E.
Qed.

(** C5. A pair is accepted as a match only when its score is strictly
    greater than 0.70: the row [find_best] returns has the score it
    returns, which is above 0.70, so a pair scoring exactly 0.70 is never
    the match; a left record with some pair scoring above 0.70 is matched,
    and it is matched to the first pair whose score is above 0.70, above
    the scores before it and not below those after it.  In a returned
    frame the confidence of a matched row is above 0.70 and that of an
    unmatched row is 0.  The pair selected is the pair of the frame: a
    matched row of a returned frame is the row of a left record and of
    the right record selected for it, with the score of the pair, above
    0.70 and not 0.70, as its confidence; and when a right record is
    selected for a left record the merge returns a frame that holds the
    matched row of the two, with the score as its confidence. *)
Theorem match_threshold_strict :
  (forall mc steam st s,
      find_best mc steam = (Some st, s) ->
      In st steam /\ s = match_score mc st /\ (0.7 <? s)%float = true
      /\ match_score mc st <> 0.7%float)
  /\ (forall mc steam st,
         In st steam -> (0.7 <? match_score mc st)%float = true ->
         exists st' s, find_best mc steam = (Some st', s))
  /\ (forall mc pre st post,
         (0.7 <? match_score mc st)%float = true ->
         (forall y, In y pre -> (match_score mc y <? match_score mc st)%float = true) ->
         (forall y, In y post -> (match_score mc st <? match_score mc y)%float = false) ->
         find_best mc (pre ++ st :: post) = (Some st, match_score mc st))
  /\ (forall metacritic_df steam_df df r,
         merge_datasets metacritic_df steam_df = Returned df -> In r (rows df) ->
         if is_matched r then (0.7 <? match_confidence r)%float = true
         else match_confidence r = 0%float)
  /\ (forall metacritic_df steam_df df r,
         merge_datasets metacritic_df steam_df = Returned df -> In r (rows df) ->
         is_matched r = true ->
         exists g st,
           In g (prepare_metacritic metacritic_df)
           /\ In st (prepare_steam steam_df)
           /\ find_best g (prepare_steam steam_df) = (Some st, match_score g st)
           /\ (0.7 <? match_score g st)%float = true
           /\ match_score g st <> 0.7%float
           /\ match_confidence r = match_score g st
           /\ (r = matched_row g st (match_score g st)
               \/ r = add_scores (matched_row g st (match_score g st))))
  /\ (forall metacritic_df steam_df g st c,
         In g (prepare_metacritic metacritic_df) ->
         find_best g (prepare_steam steam_df) = (Some st, c) ->
         exists df r,
           merge_datasets metacritic_df steam_df = Returned df
           /\ In r (rows df)
           /\ is_matched r = true
           /\ match_confidence r = c
           /\ c = match_score g st
           /\ (r = matched_row g st c \/ r = add_scores (matched_row g st c)))
  /\ (forall metacritic_df steam_df g pre st post,
         In g (prepare_metacritic metacritic_df) ->
         prepare_steam steam_df = pre ++ st :: post ->
         (0.7 <? match_score g st)%float = true ->
         (forall y, In y pre -> (match_score g y <? match_score g st)%float = true) ->
         (forall y, In y post -> (match_score g st <? match_score g y)%float = false) ->
         exists df r,
           merge_datasets metacritic_df steam_df = Returned df
           /\ In r (rows df)
           /\ match_confidence r = match_score g st
           /\ (r = matched_row g st (match_score g st)
               \/ r = add_scores (matched_row g st (match_score g st)))).
Proof.
  assert (Hne : forall s : float, (0.7 <? s)%float = true -> s <> 0.7%float).
  { intros s Ht Heq. rewrite Heq in Ht. discriminate Ht. }
  assert (Hconf : forall g st c r,
             r = matched_row g st c \/ r = add_scores (matched_row g st c) ->
             is_matched r = true /\ match_confidence r = c).
  { intros g st c r [->| ->]; [now split|].
    destruct (add_scores_keeps (matched_row g st c)) as (E1 & E2 & _).
    now rewrite E1, E2. }
  assert (Hfirst : forall mc pre st post,
         (0.7 <? match_score mc st)%float = true ->
         (forall y, In y pre -> (match_score mc y <? match_score mc st)%float = true) ->
         (forall y, In y post -> (match_score mc st <? match_score mc y)%float = false) ->
         find_best mc (pre ++ st :: post) = (Some st, match_score mc st)).
  { intros mc pre st post Hs Hpre Hpost. unfold find_best.
    apply best_from_first_max; try assumption.
    now apply above_threshold_positive. }
  split; [|split; [|split; [|split; [|split; [|split]]]]].
  - intros mc steam st s H. destruct (find_best_some _ _ H) as (Hin & Hs & Ht).
    repeat split; try assumption. rewrite <- Hs. now apply Hne.
  - intros mc steam st Hin Hs. unfold find_best.
    eapply best_from_finds; eassumption.
  - exact Hfirst.
  - intros metacritic_df steam_df df r H Hr.
    destruct (@returned_row_origin metacritic_df steam_df df r H Hr) as (r0 & Hr0 & Horigin).
    assert (H0 : if is_matched r0 then (0.7 <? match_confidence r0)%float = true
                 else match_confidence r0 = 0%float).
    { destruct Horigin as [(g & s & c & _ & Hf & ->)|[(g & _ & ->)|(s & _ & ->)]];
        cbn [is_matched match_confidence matched_row unmatched_mc_row
             unmatched_steam_row]; try reflexivity.
      now destruct (find_best_some _ _ Hf) as (_ & _ & Ht). }
    destruct Hr0 as [->|[-> _]]; [exact H0|].
    destruct (add_scores_keeps r0) as (Km & Kc & _). now rewrite Km, Kc.
  - intros metacritic_df steam_df df r H Hr Hm.
    destruct (@matched_row_of_frame _ _ _ _ H Hr Hm) as (g & Hg & st & Hst & Hf & Ht & Hrow).
    exists g, st. repeat split; try assumption.
    + now apply Hne.
    + now destruct (Hconf _ _ _ _ Hrow).
  - intros metacritic_df steam_df g st c Hg Hf.
    destruct (@selected_pair_row _ _ _ _ _ Hg Hf) as (df & r & E & Hr & Hrow).
    exists df, r. destruct (Hconf _ _ _ _ Hrow) as [E1 E2].
    destruct (find_best_some _ _ Hf) as (_ & Hc & _).
    repeat split; assumption.
  - intros metacritic_df steam_df g pre st post Hg Hs Ht Hpre Hpost.
    pose proof (Hfirst g pre st post Ht Hpre Hpost) as Hf. rewrite <- Hs in Hf.
    destruct (@selected_pair_row _ _ _ _ _ Hg Hf) as (df & r & E & Hr & Hrow).
    exists df, r. destruct (Hconf _ _ _ _ Hrow) as [E1 E2].
    repeat split; assumption.
Qed.

Lemma match_threshold_witness :
  find_best (mc_sample "Game A" None None)
    [steam_sample "Zelda" None None; steam_sample "Game A!" None None;
     steam_sample "Game" None None]
  = (Some (steam_sample "Game A!" None None),
     match_score (mc_sample "Game A" None None) (steam_sample "Game A!" None None))
  /\ (0.7 <? match_score (mc_sample "Game A" None None)
               (steam_sample "Game A!" None None))%float = true
  /\ match_score (mc_sample "abcdefghij" None None)
        (steam_sample "abcdefgxyz" None None) = 0.7%float
  /\ find_best (mc_sample "abcdefghij" None None)
        [steam_sample "abcdefgxyz" None None] = (None, 0%float)
  /\ exists df r,
       merge_datasets [mc_sample "Game A" None None]
         [steam_sample "Zelda" None None; steam_sample "Game A!" None None;
          steam_sample "Game" None None]
       = Returned df
       /\ In r (rows df)
       /\ match_confidence r
          = match_score (mc_sample "Game A" None None)
              (steam_sample "Game A!" None None)
       /\ (r = matched_row (mc_sample "Game A" None None)
                 (steam_sample "Game A!" None None)
                 (match_score (mc_sample "Game A" None None)
                    (steam_sample "Game A!" None None))
           \/ r = add_scores
                    (matched_row (mc_sample "Game A" None None)
                       (steam_sample "Game A!" None None)
                       (match_score (mc_sample "Game A" None None)
                          (steam_sample "Game A!" None None)))).
Proof.
  destruct match_threshold_strict as (Hstrict & Hsome & Hfirst & _ & _ & _ & Hrow).
  assert (H1 : find_best (mc_sample "Game A" None None)
                 ([steam_sample "Zelda" None None]
                    ++ steam_sample "Game A!" None None
                    :: [steam_sample "Game" None None])
               = (Some (steam_sample "Game A!" None None),
                  match_score (mc_sample "Game A" None None)
                    (steam_sample "Game A!" None None))).
  { apply Hfirst.
    - vm_compute. reflexivity.
    - intros y [<-|[]]. vm_compute. reflexivity.
    - intros y [<-|[]]. vm_compute. reflexivity. }
  split; [exact H1|]. split; [|split; [|split]].
  - exact (proj1 (proj2 (proj2 (Hstrict _ _ _ _ H1)))).
  - vm_compute. reflexivity.
  - vm_compute. reflexivity.
  - apply (Hrow [mc_sample "Game A" None None]
             [steam_sample "Zelda" None None; steam_sample "Game A!" None None;
              steam_sample "Game" None None]
             (mc_sample "Game A" None None)
             [steam_sample "Zelda" None None]
             (steam_sample "Game A!" None None)
             [steam_sample "Game" None None]).
    + vm_compute. now left.
    + vm_compute. reflexivity.
    + vm_compute. reflexivity.
    + intros y [<-|[]]. vm_compute. reflexivity.
    + intros y [<-|[]]. vm_compute. reflexivity.
Defined.



